(** * Ouroboros: background scheduler, budget ledger and memory store

    A shallow embedding of the TypeScript sources (utils.ts, state.ts,
    memory.ts, mcp-server.ts, consciousness.ts, daemon.ts) and the
    properties checked against them.

    Conventions of the embedding.
    - A JS [number] that counts (milliseconds, seconds, turns, ticks) is a
      [Z]; an amount of money is an exact rational [Qc]; [Infinity] is the
      [None] of an [option].
    - A JS string is a [string], read as its sequence of 8-bit code units.
    - The disk is a finite map from paths to file contents together with a
      journal of every [node:fs] call made, reads included, in call order.
      Reading, renaming, stat-ing or unlinking a missing file throws; the
      other calls succeed.
    - Code that may throw lives in a state-and-exception monad; [try/catch]
      is [try_catch].
    - What the JS runtime provides ([JSON.stringify], [JSON.parse],
      [Number.prototype.toFixed], [process.pid]) is the class [JsRuntime]. *)

From Stdlib Require Import ZArith QArith Qcanon Ascii String List Bool Lia.
From stdpp Require Import base option list gmap strings countable numbers sorting pretty.

Local Open Scope string_scope.
Local Open Scope Z_scope.

(* ===================================================================== *)
(** * Shared types (types.ts) *)
(* ===================================================================== *)

Module Types.

(** [interface StateData]. *)
Record StateData := mkState {
  createdAt : string;
  sessionId : string;
  spentUsd : Qc;
  spentCalls : Z;
  spentTokensPrompt : Z;
  spentTokensCompletion : Z;
  currentBranch : option string;
  currentSha : option string;
  bgEnabled : bool;
  bgWakeupSec : Z;
  lastInteractionAt : string
}.

(** [Partial<StateData>]: what [JSON.parse(raw) as Partial<StateData>]
    yields; a field is [None] when the key is absent from the object. *)
Record PartialStateData := mkPartial {
  p_createdAt : option string;
  p_sessionId : option string;
  p_spentUsd : option Qc;
  p_spentCalls : option Z;
  p_spentTokensPrompt : option Z;
  p_spentTokensCompletion : option Z;
  p_currentBranch : option (option string);
  p_currentSha : option (option string);
  p_bgEnabled : option bool;
  p_bgWakeupSec : option Z;
  p_lastInteractionAt : option string
}.

(** The object with every key of [st] present. *)
Definition total (st : StateData) : PartialStateData :=
  {| p_createdAt := Some (createdAt st);
     p_sessionId := Some (sessionId st);
     p_spentUsd := Some (spentUsd st);
     p_spentCalls := Some (spentCalls st);
     p_spentTokensPrompt := Some (spentTokensPrompt st);
     p_spentTokensCompletion := Some (spentTokensCompletion st);
     p_currentBranch := Some (currentBranch st);
     p_currentSha := Some (currentSha st);
     p_bgEnabled := Some (bgEnabled st);
     p_bgWakeupSec := Some (bgWakeupSec st);
     p_lastInteractionAt := Some (lastInteractionAt st) |}.

(** [{ ...d, ...o }]: the keys of [o] override those of [d]. *)
Definition spread (d : StateData) (o : PartialStateData) : StateData :=
  {| createdAt := default (createdAt d) (p_createdAt o);
     sessionId := default (sessionId d) (p_sessionId o);
     spentUsd := default (spentUsd d) (p_spentUsd o);
     spentCalls := default (spentCalls d) (p_spentCalls o);
     spentTokensPrompt := default (spentTokensPrompt d) (p_spentTokensPrompt o);
     spentTokensCompletion :=
       default (spentTokensCompletion d) (p_spentTokensCompletion o);
     currentBranch := default (currentBranch d) (p_currentBranch o);
     currentSha := default (currentSha d) (p_currentSha o);
     bgEnabled := default (bgEnabled d) (p_bgEnabled o);
     bgWakeupSec := default (bgWakeupSec d) (p_bgWakeupSec o);
     lastInteractionAt := default (lastInteractionAt d) (p_lastInteractionAt o) |}.

(** Field assignments [st.f = v] used by the sources. *)
Definition set_spent (usd : Qc) (calls tp tc : Z) (st : StateData) : StateData :=
  mkState (createdAt st) (sessionId st) usd calls tp tc (currentBranch st)
          (currentSha st) (bgEnabled st) (bgWakeupSec st) (lastInteractionAt st).

Definition set_bgEnabled (b : bool) (st : StateData) : StateData :=
  mkState (createdAt st) (sessionId st) (spentUsd st) (spentCalls st)
          (spentTokensPrompt st) (spentTokensCompletion st) (currentBranch st)
          (currentSha st) b (bgWakeupSec st) (lastInteractionAt st).

Definition set_bgWakeupSec (sec : Z) (st : StateData) : StateData :=
  mkState (createdAt st) (sessionId st) (spentUsd st) (spentCalls st)
          (spentTokensPrompt st) (spentTokensCompletion st) (currentBranch st)
          (currentSha st) (bgEnabled st) sec (lastInteractionAt st).

(** A value stored in a log entry. *)
Inductive jsval :=
| VStr (s : string)
| VInt (z : Z)
| VNum (q : Qc)
| VBool (b : bool).

(** [Record<string, unknown>] as written to the event log: keys in
    insertion order. *)
Definition LogEntry := list (string * jsval).

(** A thrown [Error]. *)
Record Err := mkErr { err_name : string; err_message : string }.

(** One reading of the clocks and of the random source, shared by the
    calls of one synchronous step. *)
Record Env := mkEnv {
  now_ms : Z;          (* Date.now() *)
  now_iso : string;    (* new Date().toISOString() *)
  uuid : string;       (* crypto.randomUUID() *)
  commit_hours : Qc;   (* getLastCommitAge(repoDir).hours *)
  commit_message : string
}.

(** [interface AppConfig], with the feature toggles of ouroboros.json. *)
Record Features := mkFeatures {
  consciousness : bool;
  deepMode : bool;
  selfModify : bool
}.

Record AppConfig := mkConfig {
  repoDir : string;
  dataDir : string;
  budgetLimitUsd : Qc;
  bgBudgetPct : Qc;
  maxTurns : Z;
  defaultWakeupSec : Z;
  agentName : string;
  features : Features
}.

(** What the JS runtime supplies. *)
Class JsRuntime := {
  pid : N;                                              (* process.pid *)
  JSON_stringify_state : StateData → string;            (* JSON.stringify(state, null, 2) *)
  JSON_parse_state : string → option PartialStateData;  (* None: SyntaxError *)
  JSON_stringify_entry : LogEntry → string;             (* JSON.stringify(entry) *)
  toFixed : Qc → nat → string                           (* q.toFixed(n) *)
}.

(** [JSON.parse] reads back what [JSON.stringify] printed. *)
Definition json_roundtrip `{JsRuntime} : Prop :=
  ∀ st, JSON_parse_state (JSON_stringify_state st) = Some (total st).

End Types.
Export Types.

(* ===================================================================== *)
(** * State and exceptions *)
(* ===================================================================== *)

Module Exn.

Inductive Res (A : Type) :=
| Ok (a : A)
| Throw (e : Err).
Arguments Ok {A} a.
Arguments Throw {A} e.

(** A computation over a state [S] that returns or throws. *)
Definition M (S A : Type) : Type := S → Res A * S.

Definition ret {S A} (a : A) : M S A := λ s, (Ok a, s).
Definition throw {S A} (e : Err) : M S A := λ s, (Throw e, s).
Definition bind {S A B} (m : M S A) (k : A → M S B) : M S B :=
  λ s, match m s with
       | (Ok a, s') => k a s'
       | (Throw e, s') => (Throw e, s')
       end.
Definition try_catch {S A} (m : M S A) (h : Err → M S A) : M S A :=
  λ s, match m s with
       | (Ok a, s') => (Ok a, s')
       | (Throw e, s') => h e s'
       end.
Definition get {S} : M S S := λ s, (Ok s, s).
Definition modify {S} (f : S → S) : M S unit := λ s, (Ok tt, f s).

(** Run a computation on a part [T] of the state [S]. *)
Definition zoom {S T A} (proj : S → T) (upd : T → S → S) (m : M T A) : M S A :=
  λ s, let '(r, t) := m (proj s) in (r, upd t s).

End Exn.
Export Exn.

Notation "'let*' x := m 'in' k" := (bind m (λ x, k))
  (at level 10, x name, m at level 100, k at level 200,
   format "'[v' 'let*'  x  :=  m  'in' '/' k ']'").
Notation "m ;; k" := (bind m (λ _, k))
  (at level 100, k at level 200, right associativity).

(* ===================================================================== *)
(** * Utilities (utils.ts) and the [node:fs] calls they use *)
(* ===================================================================== *)

Module Utils.

(** ** Strings and paths *)

Definition slash : ascii := "/"%char.

(** The one-character string written ["\n"] in the sources. *)
Definition LF : string := String (ascii_of_nat 10) EmptyString.

(** [s.endsWith(suf)]. *)
Definition endsWith (suf s : string) : bool :=
  String.prefix (String.rev suf) (String.rev s).

(** [s.includes(sub)]. *)
Fixpoint includes (sub s : string) : bool :=
  String.prefix sub s ||
  match s with
  | EmptyString => false
  | String _ s' => includes sub s'
  end.

(** [s.startsWith(pre)]. *)
Definition startsWith (pre s : string) : bool := String.prefix pre s.

(** [s.slice(0, k)]. *)
Fixpoint str_take (k : nat) (s : string) : string :=
  match k, s with
  | S k', String c s' => String c (str_take k' s')
  | _, _ => EmptyString
  end.

(** [path.join(a, b)] for a normalised [a] and a plain relative [b]. *)
Definition path_join (a b : string) : string := a +:+ "/" +:+ b.

(** The part of [s] before its last separator, if it has one. *)
Fixpoint split_dir (s : string) : option string :=
  match s with
  | EmptyString => None
  | String c s' =>
      match split_dir s' with
      | Some d => Some (String c d)
      | None => if Ascii.eqb c slash then Some EmptyString else None
      end
  end.

(** The part of [s] after its last separator. *)
Fixpoint basename (s : string) : string :=
  match s with
  | EmptyString => EmptyString
  | String c s' =>
      if includes "/" s' then basename s'
      else if Ascii.eqb c slash then s' else s
  end.

(** [path.dirname(p)] for paths without trailing or doubled separators. *)
Definition dirname (p : string) : string :=
  match split_dir p with
  | Some EmptyString => "/"
  | Some d => d
  | None => "."
  end.

(** ** The disk *)

Inductive syscall :=
| Exists (p : string)                 (* fs.existsSync *)
| ReadFile (p : string)               (* fs.readFileSync *)
| Stat (p : string)                   (* fs.statSync *)
| Readdir (p : string)                (* fs.readdirSync *)
| Mkdir (p : string)                  (* fs.mkdirSync(p, {recursive}) *)
| WriteFile (p content : string)      (* fs.writeFileSync *)
| AppendFile (p content : string)     (* fs.appendFileSync *)
| Rename (src dst : string)           (* fs.renameSync *)
| Unlink (p : string).                (* fs.unlinkSync *)

Record Disk := mkDisk {
  files : gmap string string;
  journal : list syscall
}.

Definition empty_disk : Disk := mkDisk ∅ [].

(** The path a call is made on (for [Rename], see [touches]). *)
Definition touches (c : syscall) : list string :=
  match c with
  | Exists p | ReadFile p | Stat p | Readdir p | Mkdir p | Unlink p => [p]
  | WriteFile p _ | AppendFile p _ => [p]
  | Rename a b => [a; b]
  end.

Definition mutates (c : syscall) : bool :=
  match c with
  | WriteFile _ _ | AppendFile _ _ | Rename _ _ | Unlink _ => true
  | _ => false
  end.

(** The effect of one completed call on the files. *)
Definition apply_call (c : syscall) (fs : gmap string string) : gmap string string :=
  match c with
  | WriteFile p s => <[p := s]> fs
  | AppendFile p s => <[p := default EmptyString (fs !! p) +:+ s]> fs
  | Rename a b =>
      match fs !! a with
      | Some s => <[b := s]> (delete a fs)
      | None => fs
      end
  | Unlink p => delete p fs
  | _ => fs
  end.

Definition record (c : syscall) (d : Disk) : Disk :=
  mkDisk (apply_call c (files d)) (journal d ++ [c]).

Definition ENOENT (p : string) : Err :=
  mkErr "Error" ("ENOENT: no such file or directory, " +:+ p).

Definition existsSync (p : string) : M Disk bool :=
  λ d, (Ok (bool_decide (is_Some (files d !! p))), record (Exists p) d).

Definition readFileSync (p : string) : M Disk string :=
  λ d, match files d !! p with
       | Some s => (Ok s, record (ReadFile p) d)
       | None => (Throw (ENOENT p), record (ReadFile p) d)
       end.

(** [fs.statSync(p).size]. *)
Definition statSync_size (p : string) : M Disk Z :=
  λ d, match files d !! p with
       | Some s => (Ok (Z.of_nat (String.length s)), record (Stat p) d)
       | None => (Throw (ENOENT p), record (Stat p) d)
       end.

(** The names of the files directly in [dir]. *)
Definition readdirSync (dir : string) : M Disk (list string) :=
  λ d, (Ok (basename <$>
              filter (λ p, dirname p = dir) (map_to_list (files d)).*1),
        record (Readdir dir) d).

Definition mkdirSync (p : string) : M Disk unit :=
  λ d, (Ok tt, record (Mkdir p) d).

Definition writeFileSync (p s : string) : M Disk unit :=
  λ d, (Ok tt, record (WriteFile p s) d).

Definition appendFileSync (p s : string) : M Disk unit :=
  λ d, (Ok tt, record (AppendFile p s) d).

Definition renameSync (a b : string) : M Disk unit :=
  λ d, match files d !! a with
       | Some _ => (Ok tt, record (Rename a b) d)
       | None => (Throw (ENOENT a), record (Rename a b) d)
       end.

Definition unlinkSync (p : string) : M Disk unit :=
  λ d, match files d !! p with
       | Some _ => (Ok tt, record (Unlink p) d)
       | None => (Throw (ENOENT p), record (Unlink p) d)
       end.

(** ** utils.ts *)

Section WithRuntime.
Context `{JsRuntime}.

Definition readText (filePath : string) : M Disk string :=
  readFileSync filePath.

Definition tmp_of (filePath : string) : string :=
  filePath +:+ ".tmp." +:+ pretty pid.

Definition writeText (filePath content : string) : M Disk unit :=
  mkdirSync (dirname filePath) ;;
  let tmp := tmp_of filePath in
  writeFileSync tmp content ;;
  renameSync tmp filePath.

Definition appendJsonl (filePath : string) (entry : LogEntry) : M Disk unit :=
  mkdirSync (dirname filePath) ;;
  appendFileSync filePath (JSON_stringify_entry entry +:+ LF).

Definition ensureDir (dirPath : string) : M Disk unit :=
  mkdirSync dirPath.

End WithRuntime.

(** ** What a crash can leave behind *)

(** The files as a crash in the middle of call [c] can leave them: the
    call has not started, or a write has put only the first [k] bytes of
    its data in place.  A rename is all or nothing. *)
Definition torn (c : syscall) (fs : gmap string string) : list (gmap string string) :=
  match c with
  | WriteFile p s =>
      (λ k, <[p := str_take k s]> fs) <$> seq 0 (String.length s)
  | AppendFile p s =>
      (λ k, <[p := default EmptyString (fs !! p) +:+ str_take k s]> fs)
        <$> seq 0 (String.length s)
  | _ => []
  end.

(** Every state of the files that a crash during (or right after) the
    calls [cs] can expose. *)
Fixpoint crash_states (cs : list syscall) (fs : gmap string string)
  : list (gmap string string) :=
  match cs with
  | [] => [fs]
  | c :: cs' => fs :: torn c fs ++ crash_states cs' (apply_call c fs)
  end.

(** The calls a computation added to the journal. *)
Definition calls_of {A} (m : M Disk A) (d : Disk) : list syscall :=
  drop (length (journal d)) (journal (m d).2).

(** Comparisons of amounts, as booleans. *)
Definition Qc_ltb (a b : Qc) : bool := negb (Qle_bool b a).
Definition Qc_leb (a b : Qc) : bool := Qle_bool a b.
(** [Math.max(a, b)]. *)
Definition Qc_max (a b : Qc) : Qc := if Qc_leb a b then b else a.

(** ** Slices, lines and clipped text *)

(** [l.slice(start, end)], for arrays and strings alike: a negative
    index counts from the end, and both are clamped to the length. *)
Definition slice {A} (l : list A) (start end_ : Z) : list A :=
  let len := Z.of_nat (length l) in
  let from := if start <? 0 then Z.max (len + start) 0 else Z.min start len in
  let to := if end_ <? 0 then Z.max (len + end_) 0 else Z.min end_ len in
  take (Z.to_nat (to - from)) (drop (Z.to_nat from) l).

(** [l.slice(start)]. *)
Definition slice_from {A} (l : list A) (start : Z) : list A :=
  slice l start (Z.of_nat (length l)).

(** [s.split(LF)]: the lines of [s], one more than it has line feeds. *)
Fixpoint split_lines (s : string) : list string :=
  match s with
  | EmptyString => [EmptyString]
  | String c s' =>
      if Ascii.eqb c (ascii_of_nat 10) then EmptyString :: split_lines s'
      else match split_lines s' with
           | l :: ls => String c l :: ls
           | [] => [String c EmptyString]
           end
  end.

(** A JS string as the list of its UTF-16 code units, for text that is
    measured in them and holds characters beyond the 8-bit ones. *)
Definition units : Type := list N.

(** The horizontal ellipsis, U+2026. *)
Definition ELLIPSIS : N := 8230%N.

Definition clipText (text : units) (maxLen : Z) : units :=
  if Z.of_nat (length text) <=? maxLen then text
  else (slice text 0 (maxLen - 1) ++ [ELLIPSIS])%list.

End Utils.
Export Utils.

(* ===================================================================== *)
(** * State management (state.ts) *)
(* ===================================================================== *)

Module State.
Section WithRuntime.
Context `{JsRuntime}.

Definition statePath (dataDir : string) : string :=
  path_join (path_join dataDir "state") "state.json".

Definition defaultState (env : Env) : StateData :=
  {| createdAt := now_iso env;
     sessionId := uuid env;
     spentUsd := 0%Qc;
     spentCalls := 0;
     spentTokensPrompt := 0;
     spentTokensCompletion := 0;
     currentBranch := None;
     currentSha := None;
     bgEnabled := false;
     bgWakeupSec := 300;
     lastInteractionAt := now_iso env |}.

Definition saveState (dataDir : string) (state : StateData) : M Disk unit :=
  let p := statePath dataDir in
  writeText p (JSON_stringify_state state).

Definition SyntaxError : Err := mkErr "SyntaxError" "Unexpected token in JSON".

(** [JSON.parse(raw) as Partial<StateData>]. *)
Definition JSON_parse (raw : string) : M Disk PartialStateData :=
  match JSON_parse_state raw with
  | Some obj => ret obj
  | None => throw SyntaxError
  end.

Definition loadState (dataDir : string) (env : Env) : M Disk StateData :=
  let p := statePath dataDir in
  try_catch
    (let* raw := readFileSync p in
     let* obj := JSON_parse raw in
     (* Merge with defaults to ensure all fields exist *)
     ret (spread (defaultState env) obj))
    (λ _,
     let st := defaultState env in
     saveState dataDir st ;;
     ret st).

Definition updateBudget (dataDir : string) (costUsd : Qc)
    (turns promptTokens completionTokens : Z) (env : Env) : M Disk StateData :=
  let* st := loadState dataDir env in
  let st := set_spent (spentUsd st + costUsd)%Qc
                      (spentCalls st + turns)
                      (spentTokensPrompt st + promptTokens)
                      (spentTokensCompletion st + completionTokens) st in
  saveState dataDir st ;;
  ret st.

(** [None] is [Infinity]. *)
Definition budgetRemaining (state : StateData) (limitUsd : Qc) : option Qc :=
  if Qc_leb limitUsd 0 then None
  else Some (Qc_max 0 (limitUsd - spentUsd state))%Qc.

End WithRuntime.
End State.
Export State.

(* ===================================================================== *)
(** * Memory (memory.ts): knowledge base and event log *)
(* ===================================================================== *)

Module Memory.

Definition LOG_MAX_BYTES : Z := 5 * 1024 * 1024.
Definition LOG_KEEP_ROTATED : nat := 2.
Definition KNOWLEDGE_DIR : string := "memory/knowledge".
Definition INDEX_FILE : string := "_index.md".

(** ** Characters *)

Definition code (c : ascii) : nat := nat_of_ascii c.

Definition between (lo hi : nat) (c : ascii) : bool :=
  (lo <=? code c)%nat && (code c <=? hi)%nat.

(** [[a-zA-Z0-9]]. *)
Definition is_alnum (c : ascii) : bool :=
  between 97 122 c || between 65 90 c || between 48 57 c.

(** [[a-zA-Z0-9_.-]]. *)
Definition is_topic_char (c : ascii) : bool :=
  is_alnum c || (code c =? 95)%nat || (code c =? 46)%nat || (code c =? 45)%nat.

(** What [String.prototype.trim] strips, among 8-bit code units: TAB, LF,
    VT, FF, CR, SPACE and NBSP. *)
Definition is_ws (c : ascii) : bool :=
  between 9 13 c || (code c =? 32)%nat || (code c =? 160)%nat.

Fixpoint trimStart (s : string) : string :=
  match s with
  | EmptyString => EmptyString
  | String c s' => if is_ws c then trimStart s' else s
  end.

Fixpoint trimEnd (s : string) : string :=
  match s with
  | EmptyString => EmptyString
  | String c s' =>
      match trimEnd s' with
      | EmptyString => if is_ws c then EmptyString else String c EmptyString
      | t => String c t
      end
  end.

Definition trim (s : string) : string := trimEnd (trimStart s).

Fixpoint map_chars (f : ascii → ascii) (s : string) : string :=
  match s with
  | EmptyString => EmptyString
  | String c s' => String (f c) (map_chars f s')
  end.

(** [toLowerCase] on the letters A-Z. *)
Definition toLowerCase (s : string) : string :=
  map_chars (λ c, if between 65 90 c then ascii_of_nat (code c + 32) else c) s.

Fixpoint all_chars (f : ascii → bool) (s : string) : bool :=
  match s with
  | EmptyString => true
  | String c s' => f c && all_chars f s'
  end.

(** The characters after the first hold at most 98 topic characters and
    then one last alphanumeric character. *)
Fixpoint valid_rest (s : string) : bool :=
  match s with
  | EmptyString => false
  | String c EmptyString => is_alnum c
  | String c s' => is_topic_char c && valid_rest s'
  end.

(** [VALID_TOPIC.test(s)] for
    [/^[a-zA-Z0-9][a-zA-Z0-9_.-]{0,98}[a-zA-Z0-9]$|^[a-zA-Z0-9]$/]. *)
Definition VALID_TOPIC_test (s : string) : bool :=
  match s with
  | EmptyString => false
  | String c EmptyString => is_alnum c
  | String c s' =>
      is_alnum c && valid_rest s' && (String.length s' <=? 99)%nat
  end.

Definition RESERVED_TOPICS : list string := ["_index"; "con"; "prn"; "aux"; "nul"].

Definition is_reserved (s : string) : bool :=
  existsb (String.eqb s) RESERVED_TOPICS.

(** ** Topic validation *)

Definition Error (msg : string) : Err := mkErr "Error" msg.

Definition sanitizeTopic (topic : string) : Res string :=
  let topic := trim topic in
  if String.eqb topic "" then Throw (Error "Topic must be a non-empty string")
  else if includes "/" topic || includes "\" topic || includes ".." topic then
    Throw (Error ("Invalid characters in topic: " +:+ topic))
  else if negb (VALID_TOPIC_test topic) then
    Throw (Error ("Invalid topic name: " +:+ topic +:+
                  ". Use alphanumeric, underscore, hyphen, dot."))
  else if is_reserved (toLowerCase topic) then
    Throw (Error ("Reserved topic name: " +:+ topic))
  else Ok topic.

Inductive WriteMode := overwrite | append.

Definition mode_name (m : WriteMode) : string :=
  match m with overwrite => "overwrite" | append => "append" end.

(** [JSON.parse] on one line of a log: any JSON value, or [None] for the
    [SyntaxError]. *)
Class JsonLines := {
  JsonValue : Type;
  JSON_parse_line : string → option JsonValue
}.

(** The text work of [updateIndexEntry] (splitting the index into lines,
    dropping the old entry, summarising the topic file, sorting with
    [localeCompare]) is left to this function of the old index, the topic
    and the topic file ([None]: no such file; [Some None]: unreadable). *)
Class IndexText := index_text : string → string → option (option string) → string.

Section WithRuntime.
Context `{JsRuntime} `{IndexText}.
Variable dataDir : string.

Definition knowledgeDir : string := path_join dataDir KNOWLEDGE_DIR.
Definition logsPath (name : string) : string :=
  path_join (path_join dataDir "logs") name.

Definition topicFile (sanitized : string) : string :=
  path_join knowledgeDir (sanitized +:+ ".md").

Definition knowledgeRead (topic : string) : M Disk string :=
  match sanitizeTopic topic with
  | Throw e => ret ("Warning: Invalid topic: " +:+ err_message e)
  | Ok sanitized =>
      let filePath := topicFile sanitized in
      let* ex := existsSync filePath in
      if negb ex then
        ret ("Topic '" +:+ sanitized +:+
             "' not found. Use knowledge_list to see available topics.")
      else readText filePath
  end.

Definition updateIndexEntry (topic : string) : M Disk unit :=
  let kdir := knowledgeDir in
  let indexPath := path_join kdir INDEX_FILE in
  let topicPath := path_join kdir (topic +:+ ".md") in
  ensureDir kdir ;;
  let* hasIndex := existsSync indexPath in
  let* indexContent :=
    (if hasIndex then readText indexPath
     else ret ("# Knowledge Base Index" +:+ LF +:+ LF)) in
  let* hasTopic := existsSync topicPath in
  let* topicText :=
    (if hasTopic then
       try_catch (let* text := readText topicPath in ret (Some (Some text)))
                 (λ _, ret (Some None))
     else ret None) in
  writeText indexPath (index_text indexContent topic topicText).

Definition knowledgeWrite (topic content : string) (mode : WriteMode)
  : M Disk string :=
  match sanitizeTopic topic with
  | Throw e => ret ("Warning: Invalid topic: " +:+ err_message e)
  | Ok sanitized =>
      ensureDir knowledgeDir ;;
      let filePath := topicFile sanitized in
      match mode with
      | append =>
          let* ex := existsSync filePath in
          let* existing :=
            (if ex then
               let* existing := readText filePath in
               if (0 <? String.length existing)%nat && negb (endsWith LF existing)
               then ret (existing +:+ LF) else ret existing
             else ret "") in
          writeText filePath (existing +:+ content)
      | overwrite => writeText filePath content
      end ;;
      updateIndexEntry sanitized ;;
      ret ("Knowledge '" +:+ sanitized +:+ "' saved (" +:+ mode_name mode +:+ ").")
  end.

(** ** Scratchpad and identity *)

Definition memoryPath (rel : string) : string :=
  path_join (path_join dataDir "memory") rel.

Definition saveScratchpad (content : string) : M Disk unit :=
  writeText (memoryPath "scratchpad.md") content.

Definition saveIdentity (content : string) : M Disk unit :=
  writeText (memoryPath "identity.md") content.

(** ** Event log *)

(** [{ ...e, [k]: v }] on an entry. *)
Fixpoint entry_set (k : string) (v : jsval) (e : LogEntry) : LogEntry :=
  match e with
  | [] => [(k, v)]
  | (k', v') :: e' =>
      if String.eqb k k' then (k, v) :: e' else (k', v') :: entry_set k v e'
  end.

(** [{ ts: now, ...entry }]. *)
Definition stamped (env : Env) (entry : LogEntry) : LogEntry :=
  foldl (λ acc kv, entry_set kv.1 kv.2 acc) [("ts", VStr (now_iso env))] entry.

(** [iso.replace(/[:.]/g, "-")]. *)
Definition dashed (iso : string) : string :=
  map_chars (λ c, if (code c =? 58)%nat || (code c =? 46)%nat then "-"%char else c)
            iso.

Fixpoint unlink_each (paths : list string) : M Disk unit :=
  match paths with
  | [] => ret tt
  | p :: ps => unlinkSync p ;; unlink_each ps
  end.

Definition rotateIfNeeded (logPath : string) (env : Env) : M Disk unit :=
  try_catch
    (let* ex := existsSync logPath in
     if negb ex then ret tt else
     let* size := statSync_size logPath in
     if size <? LOG_MAX_BYTES then ret tt else
     (* Rotate: rename current to timestamped backup *)
     let ts := dashed (now_iso env) in
     let rotated := logPath +:+ "." +:+ ts in
     renameSync logPath rotated ;;
     (* Prune old rotated files, keep only LOG_KEEP_ROTATED *)
     let dir := dirname logPath in
     let base := basename logPath in
     let* names := readdirSync dir in
     let rotatedFiles :=
       reverse (merge_sort String.le
                  (List.filter (λ f, startsWith (base +:+ ".") f
                                     && negb (String.eqb f base)) names)) in
     unlink_each (path_join dir <$> drop LOG_KEEP_ROTATED rotatedFiles))
    (λ _, (* Best-effort rotation *) ret tt).

Definition appendLog (logName : string) (entry : LogEntry) (env : Env)
  : M Disk unit :=
  let logPath := logsPath logName in
  rotateIfNeeded logPath env ;;
  appendJsonl logPath (stamped env entry).

(** ** Loading the scratchpad and the identity *)

Definition defaultScratchpad (env : Env) : string :=
  "# Scratchpad" +:+ LF +:+ LF +:+ "UpdatedAt: " +:+ now_iso env +:+ LF +:+ LF +:+
  "(empty — write anything here)" +:+ LF.

Definition loadScratchpad (env : Env) : M Disk string :=
  let p := memoryPath "scratchpad.md" in
  let* ex := existsSync p in
  if ex then readText p
  else
    let def := defaultScratchpad env in
    writeText p def ;;
    ret def.

Definition defaultIdentity (agentName : string) : string :=
  String.concat LF
    [ "# Who I Am" +:+ LF;
      "I am " +:+ agentName +:+ ". This file is my persistent self-identification.";
      "I can write anything here: how I see myself, how I want to communicate,";
      "what matters to me, what I have understood about myself." +:+ LF;
      "This file is read at every dialogue and influences my responses.";
      "I update it when I feel the need." +:+ LF ].

Definition loadIdentity (agentName : string) : M Disk string :=
  let p := memoryPath "identity.md" in
  let* ex := existsSync p in
  if ex then readText p
  else
    let def := defaultIdentity agentName in
    writeText p def ;;
    ret def.

(** ** Reading the event log *)

Context `{JsonLines}.

Definition readJsonlTail (logName : string) (maxEntries : Z)
  : M Disk (list JsonValue) :=
  let p := logsPath logName in
  let* ex := existsSync p in
  if negb ex then ret [] else
  try_catch
    (let* text := readText p in
     let lines := split_lines (trim text) in
     let tail := slice_from lines (- maxEntries) in
     ret (omap (λ line, if String.eqb (trim line) "" then None
                        else JSON_parse_line line) tail))
    (λ _, ret []).

(** ** Ensure files on first run *)

Definition ensureFiles (agentName : string) (env : Env) : M Disk unit :=
  loadScratchpad env ;;
  loadIdentity agentName ;;
  ensureDir (path_join dataDir "logs") ;;
  ensureDir (path_join dataDir "state") ;;
  ensureDir knowledgeDir.

End WithRuntime.
End Memory.
Export Memory.

(* ===================================================================== *)
(** * MCP tools (mcp-server.ts) *)
(* ===================================================================== *)

Module McpServer.

(** What a tool call gives back: the text of the handler, or the rejection
    of arguments that fail the tool's schema (the handler does not run). *)
Inductive ToolResult :=
| ToolText (text : string)
| ToolInvalidArguments.

(** [z.number().min(30).max(7200)]. *)
Definition seconds_schema (seconds : Z) : bool :=
  (30 <=? seconds) && (seconds <=? 7200).

Section Tools.
Context {W : Type}.

Record McpDeps := mkDeps {
  onSetWakeup : option (Z → M W unit);
  onToggleConsciousness : option (bool → M W unit)
}.

(** [deps.f?.(x)]. *)
Definition call_opt {A} (f : option (A → M W unit)) (x : A) : M W unit :=
  match f with Some f => f x | None => ret tt end.

Definition set_next_wakeup (deps : McpDeps) (seconds : Z) : M W ToolResult :=
  if seconds_schema seconds then
    call_opt (onSetWakeup deps) seconds ;;
    ret (ToolText ("Next wakeup set to " +:+ pretty seconds +:+ "s."))
  else ret ToolInvalidArguments.

Definition toggle_consciousness (deps : McpDeps) (enabled : bool) : M W ToolResult :=
  call_opt (onToggleConsciousness deps) enabled ;;
  ret (ToolText ("Consciousness " +:+
                 (if enabled then "started" else "stopped") +:+ ".")).

End Tools.
(** The tools that act on the memory. *)
Section MemoryTools.
Context `{JsRuntime} `{IndexText}.
Variable dataDir : string.

Definition update_scratchpad (content : string) (env : Env) : M Disk ToolResult :=
  saveScratchpad dataDir content ;;
  appendLog dataDir "events.jsonl"
            [("type", VStr "scratchpad_update");
             ("chars", VInt (Z.of_nat (String.length content)))] env ;;
  ret (ToolText "Scratchpad updated.").

Definition update_identity (content : string) (env : Env) : M Disk ToolResult :=
  saveIdentity dataDir content ;;
  appendLog dataDir "events.jsonl"
            [("type", VStr "identity_update");
             ("chars", VInt (Z.of_nat (String.length content)))] env ;;
  ret (ToolText "Identity updated.").

Definition knowledge_read (topic : string) : M Disk ToolResult :=
  let* result := knowledgeRead dataDir topic in
  ret (ToolText result).

(** [mode] is optional and defaults to overwrite. *)
Definition knowledge_write (topic content : string) (mode : option WriteMode)
  : M Disk ToolResult :=
  let* result := knowledgeWrite dataDir topic content (default overwrite mode) in
  ret (ToolText result).

End MemoryTools.

End McpServer.
Export McpServer.

(* ===================================================================== *)
(** * Background consciousness (consciousness.ts) *)
(* ===================================================================== *)

Module Consciousness.

Definition MAX_BG_ROUNDS : Z := 5.
Definition MAX_DEEP_ROUNDS : Z := 15.
Definition DEEP_TICK_INTERVAL : Z := 3.
Definition LIGHT_TIMEOUT_MS : Z := 2 * 60 * 1000.
Definition DEEP_TIMEOUT_MS : Z := 5 * 60 * 1000.
Definition STAGNATION_HOURS : Qc := Q2Qc 4.

Inductive Mode := Light | Deep.

(** A pending [setTimeout] of the scheduler. *)
Record Timer := mkTimer { tid : nat; delay_ms : Z }.

(** An episode suspended at [for await (const message of q)]. *)
Record Episode := mkEpisode { ep_mode : Mode; ep_systemPrompt : string }.

(** A message of the SDK stream, as far as the loop looks at it. *)
Inductive SDKMessage :=
| MsgResult (total_cost_usd : Qc) (num_turns : Z) (success : bool) (result : string)
| MsgOther.

(** One whole run of a query: the messages it yields, then its end: a
    normal end, or a throw ([AbortError] when the episode's time-out
    aborted the call). *)
Record QueryRun := mkRun { messages : list SDKMessage; thrown : option Err }.

(** The fields of a [BackgroundConsciousness] object, then the part of
    the world it acts on: the disk, the scheduler's pending timers and the
    next timer handle of the event loop, and the episodes in flight. *)
Record World := mkWorld {
  timer : option nat;
  paused : bool;
  running : bool;
  wakeupSec : Z;
  observations : list string;
  tickCount : Z;
  lastTickAt : Z;
  disk : Disk;
  pending : list Timer;
  next_tid : nat;
  inflight : list Episode
}.

Definition set_timer (x : option nat) (w : World) : World :=
  mkWorld x (paused w) (running w) (wakeupSec w) (observations w) (tickCount w)
          (lastTickAt w) (disk w) (pending w) (next_tid w) (inflight w).
Definition set_paused (x : bool) (w : World) : World :=
  mkWorld (timer w) x (running w) (wakeupSec w) (observations w) (tickCount w)
          (lastTickAt w) (disk w) (pending w) (next_tid w) (inflight w).
Definition set_running (x : bool) (w : World) : World :=
  mkWorld (timer w) (paused w) x (wakeupSec w) (observations w) (tickCount w)
          (lastTickAt w) (disk w) (pending w) (next_tid w) (inflight w).
Definition set_wakeupSec (x : Z) (w : World) : World :=
  mkWorld (timer w) (paused w) (running w) x (observations w) (tickCount w)
          (lastTickAt w) (disk w) (pending w) (next_tid w) (inflight w).
Definition set_observations (x : list string) (w : World) : World :=
  mkWorld (timer w) (paused w) (running w) (wakeupSec w) x (tickCount w)
          (lastTickAt w) (disk w) (pending w) (next_tid w) (inflight w).
Definition set_tickCount (x : Z) (w : World) : World :=
  mkWorld (timer w) (paused w) (running w) (wakeupSec w) (observations w) x
          (lastTickAt w) (disk w) (pending w) (next_tid w) (inflight w).
Definition set_lastTickAt (x : Z) (w : World) : World :=
  mkWorld (timer w) (paused w) (running w) (wakeupSec w) (observations w)
          (tickCount w) x (disk w) (pending w) (next_tid w) (inflight w).
Definition set_disk (x : Disk) (w : World) : World :=
  mkWorld (timer w) (paused w) (running w) (wakeupSec w) (observations w)
          (tickCount w) (lastTickAt w) x (pending w) (next_tid w) (inflight w).
Definition set_pending (x : list Timer) (n : nat) (w : World) : World :=
  mkWorld (timer w) (paused w) (running w) (wakeupSec w) (observations w)
          (tickCount w) (lastTickAt w) (disk w) x n (inflight w).
Definition set_inflight (x : list Episode) (w : World) : World :=
  mkWorld (timer w) (paused w) (running w) (wakeupSec w) (observations w)
          (tickCount w) (lastTickAt w) (disk w) (pending w) (next_tid w) x.

(** The scheduler's collaborators: the prompt assembler (context.ts) and
    the [onLog] callback installed by the host, which returns normally. *)
Class Collaborators := {
  buildConsciousnessPrompt : AppConfig → StateData → Env → M Disk string;
  buildDeepConsciousnessPrompt : AppConfig → StateData → Env → M Disk string;
  onLog : string → Env → Disk → Disk
}.

(** What happens to the scheduler: calls of its methods, calls of the two
    MCP tools that reach it, a pending timer firing, and the SDK query of
    the [i]-th episode in flight running to its end. *)
Inductive Event :=
| EStart
| EStop
| EPause
| EResume
| EInjectObservation (text : string)
| ESetNextWakeup (seconds : Z)
| EToggleConsciousness (enabled : bool)
| ETimerFires (id : nat)
| EQueryEnds (i : nat) (run : QueryRun).

(** The quotation mark, as a string. *)
Definition DQ : string := String (ascii_of_nat 34) EmptyString.

Section WithConfig.
Context `{JsRuntime} `{Collaborators}.
Variable config : AppConfig.

(** [new BackgroundConsciousness(config, memory)] in a world whose
    disk is [d]. *)
Definition new (d : Disk) : World :=
  {| timer := None; paused := false; running := false;
     wakeupSec := defaultWakeupSec config;
     observations := []; tickCount := 0; lastTickAt := 0;
     disk := d; pending := []; next_tid := 0; inflight := [] |}.

Definition on_disk {A} (m : M Disk A) : M World A := zoom disk set_disk m.

(** [setTimeout(callback, ms)]. *)
Definition setTimeout (ms : Z) : M World nat :=
  λ w, (Ok (next_tid w),
        set_pending (pending w ++ [mkTimer (next_tid w) ms]) (S (next_tid w)) w).

(** The pending timers without the one of handle [id]. *)
Definition without (id : nat) (ts : list Timer) : list Timer :=
  List.filter (λ t, negb (tid t =? id)%nat) ts.

(** [clearTimeout(id)]. *)
Definition clearTimeout (id : nat) : M World unit :=
  modify (λ w, set_pending (without id (pending w)) (next_tid w) w).

Definition log (text : string) (env : Env) : M World unit :=
  modify (λ w, set_disk (onLog text env (disk w)) w).

Definition appendEvent (entry : LogEntry) (env : Env) : M World unit :=
  on_disk (appendLog (dataDir config) "events.jsonl" entry env).

Definition scheduleNext : M World unit :=
  let* w := get in
  if negb (running w) then ret tt
  else
    let* id := setTimeout (wakeupSec w * 1000) in
    modify (set_timer (Some id)).

Definition start (env : Env) : M World unit :=
  let* w := get in
  if running w then ret tt
  else
    modify (set_running true) ;;
    modify (set_paused false) ;;
    let* st := on_disk (loadState (dataDir config) env) in
    let st := set_bgEnabled true st in
    on_disk (saveState (dataDir config) st) ;;
    log "Consciousness started" env ;;
    scheduleNext.

Definition stop (env : Env) : M World unit :=
  modify (set_running false) ;;
  let* w := get in
  match timer w with
  | Some id => clearTimeout id ;; modify (set_timer None)
  | None => ret tt
  end ;;
  let* st := on_disk (loadState (dataDir config) env) in
  let st := set_bgEnabled false st in
  on_disk (saveState (dataDir config) st) ;;
  log "Consciousness stopped" env.

Definition pause : M World unit :=
  modify (set_paused true).

Definition resume : M World unit :=
  let* w := get in
  if negb (running w) then ret tt
  else
    modify (set_paused false) ;;
    (* If no timer is pending, schedule one *)
    let* w := get in
    match timer w with
    | None => scheduleNext
    | Some _ => ret tt
    end.

Definition injectObservation (text : string) : M World unit :=
  modify (λ w, set_observations (observations w ++ [text]) w).

Definition isRunning (w : World) : bool := running w.

(** Returns true if the last tick completed within 3x the wakeup
    interval. *)
Definition isHealthy (env : Env) (w : World) : bool :=
  if negb (running w) then true
  else if lastTickAt w =? 0 then true
  else
    let overdueMs := wakeupSec w * 1000 * 3 in
    now_ms env - lastTickAt w <? overdueMs.

(** The [onSetWakeup] and [onToggleConsciousness] callbacks that the
    constructor hands to the MCP server. *)
Definition deps (env : Env) : McpDeps :=
  {| onSetWakeup := Some (λ sec,
       modify (set_wakeupSec sec) ;;
       let* st := on_disk (loadState (dataDir config) env) in
       let st := set_bgWakeupSec sec st in
       on_disk (saveState (dataDir config) st));
     onToggleConsciousness := Some (λ enabled : bool,
       if enabled then start env else stop env) |}.


(** ** Episodes

    An episode runs in two parts: what [think] does before it first
    waits for the SDK ([*_start]), and what it does once the query has
    run to its end ([*_finish]).  Other events can happen in between.
    The time-out of an episode is its own [setTimeout]; it shows here
    only as the [AbortError] that ends the query. *)

Definition with_observations (prompt : string) : M World string :=
  let* w := get in
  match observations w with
  | [] => ret prompt
  | obs =>
      modify (set_observations []) ;;
      ret (prompt +:+ LF +:+ LF +:+ "## Recent Observations" +:+ LF +:+ LF +:+
           "- " +:+ String.concat (LF +:+ "- ") obs)
  end.

Definition think_start (state : StateData) (env : Env) : M World unit :=
  log "Consciousness waking (light)..." env ;;
  let* prompt := on_disk (buildConsciousnessPrompt config state env) in
  let* prompt := with_observations prompt in
  let* w := get in
  appendEvent [("type", VStr "consciousness_wake"); ("mode", VStr "light");
               ("wakeupSec", VInt (wakeupSec w))] env ;;
  modify (λ w, set_inflight (inflight w ++ [mkEpisode Light prompt]) w).

Definition thinkDeep_start (state : StateData) (env : Env) : M World unit :=
  log "Consciousness waking (DEEP)..." env ;;
  let* prompt := on_disk (buildDeepConsciousnessPrompt config state env) in
  let hours := commit_hours env in
  let stagnationNote :=
    LF +:+ LF +:+ "## Stagnation Check" +:+ LF +:+ LF +:+ "Last commit: " +:+
    toFixed hours 1 +:+ "h ago — " +:+ DQ +:+ commit_message env +:+ DQ in
  let stagnationNote :=
    if Qc_ltb STAGNATION_HOURS hours then
      stagnationNote +:+ LF +:+ LF +:+ "**WARNING: No commits in " +:+
      toFixed hours 1 +:+
      " hours. Evolve NOW — make a meaningful change and commit.**"
    else stagnationNote in
  let prompt := prompt +:+ stagnationNote in
  let* prompt := with_observations prompt in
  let* w := get in
  appendEvent [("type", VStr "consciousness_wake"); ("mode", VStr "deep");
               ("wakeupSec", VInt (wakeupSec w));
               ("stagnationHours", VNum hours)] env ;;
  modify (λ w, set_inflight (inflight w ++ [mkEpisode Deep prompt]) w).

(** [text.slice(0, n)] followed by ["..."] when [text] is longer. *)
Definition clipped (n : nat) (text : string) : string :=
  str_take n text +:+ (if (n <? String.length text)%nat then "..." else "").

(** The body of [for await (const message of q)]: the last result
    message sets the cost and the turns. *)
Fixpoint consume (label : string) (n : nat) (msgs : list SDKMessage)
    (acc : Qc * Z) (env : Env) : M World (Qc * Z) :=
  match msgs with
  | [] => ret acc
  | MsgOther :: rest => consume label n rest acc env
  | MsgResult cost turns success text :: rest =>
      (if success && negb (String.eqb text "")
       then log (label +:+ clipped n text) env else ret tt) ;;
      consume label n rest (cost, turns) env
  end.

Definition after_query (label : string) (n : nat) (timed_out : string)
    (mode_name done : string) (run : QueryRun) (env : Env) : M World unit :=
  let* r := consume label n (messages run) (0%Qc, 0) env in
  let '(costUsd, turns) := r in
  match thrown run with
  | Some err =>
      if String.eqb (err_name err) "AbortError" then log timed_out env
      else throw err
  | None => ret tt
  end ;;
  (if Qc_ltb 0 costUsd
   then on_disk (updateBudget (dataDir config) costUsd turns 0 0 env) ;; ret tt
   else ret tt) ;;
  appendEvent [("type", VStr "consciousness_done"); ("mode", VStr mode_name);
               ("cost", VNum costUsd); ("turns", VInt turns)] env ;;
  log (done +:+ " (cost: $" +:+ toFixed costUsd 4 +:+ ", turns: " +:+
       pretty turns +:+ ")") env.

Definition think_finish : QueryRun → Env → M World unit :=
  after_query "Thought: " 200 "Light tick timed out (2m), continuing"
              "light" "Light tick done".

Definition thinkDeep_finish : QueryRun → Env → M World unit :=
  after_query "Deep thought: " 300 "Deep tick timed out (5m), continuing"
              "deep" "Deep tick done".

(** ** The tick *)

(** [config.features.deepMode && n % DEEP_TICK_INTERVAL === 0]. *)
Definition isDeep (n : Z) : bool :=
  deepMode (features config) && (Z.rem n DEEP_TICK_INTERVAL =? 0).

(** [None] is [Infinity]. *)
Definition bgBudgetLimit : option Qc :=
  if Qc_ltb 0 (budgetLimitUsd config)
  then Some (budgetLimitUsd config * bgBudgetPct config / Q2Qc 100)%Qc
  else None.

(** [spent > limit]. *)
Definition exceeds (spent : Qc) (limit : option Qc) : bool :=
  match limit with
  | Some l => Qc_ltb l spent
  | None => false
  end.

(** The [catch] block of [tick]. *)
Definition tick_catch (env : Env) (err : Err) : M World unit :=
  log ("Consciousness error: " +:+ err_message err) env ;;
  appendEvent [("type", VStr "consciousness_error");
               ("error", VStr (err_message err))] env.

(** The last two statements of [tick]. *)
Definition tick_end (env : Env) : M World unit :=
  modify (set_lastTickAt (now_ms env)) ;;
  scheduleNext.

(** [tick()] up to the point where its episode waits for the SDK, and
    to its end when the episode throws before that. *)
Definition tick (env : Env) : M World unit :=
  let* w := get in
  if negb (running w) || paused w then
    (* If paused, don't schedule - resume() will do it *)
    (if running w && negb (paused w) then scheduleNext else ret tt)
  else
    (* Budget check *)
    let* state := on_disk (loadState (dataDir config) env) in
    if exceeds (spentUsd state) bgBudgetLimit then
      log "Background budget exceeded, skipping" env ;;
      scheduleNext
    else
      modify (λ w, set_tickCount (tickCount w + 1) w) ;;
      let* w := get in
      let* waiting :=
        try_catch
          ((if isDeep (tickCount w) then thinkDeep_start state env
            else think_start state env) ;; ret true)
          (λ err, tick_catch env err ;; ret false) in
      if waiting : bool then ret tt else tick_end env.

(** The rest of [tick()] for the [i]-th episode in flight, once its
    query has run to its end. *)
Definition tick_resume (i : nat) (run : QueryRun) (env : Env) : M World unit :=
  let* w := get in
  match inflight w !! i with
  | None => ret tt
  | Some ep =>
      modify (set_inflight (delete i (inflight w))) ;;
      try_catch
        (match ep_mode ep with
         | Deep => thinkDeep_finish run env
         | Light => think_finish run env
         end)
        (tick_catch env) ;;
      tick_end env
  end.

(** The callback given to [setTimeout] by [scheduleNext], run when the
    pending timer [id] fires. *)
Definition timer_fires (id : nat) (env : Env) : M World unit :=
  let* w := get in
  if existsb (λ t, (tid t =? id)%nat) (pending w) then
    (* the timer has fired: it is no longer pending *)
    modify (λ w, set_pending (without id (pending w)) (next_tid w) w) ;;
    modify (set_timer None) ;;
    tick env
  else ret tt.

(** ** The scheduler as a transition system *)

Definition step (env : Env) (e : Event) : M World unit :=
  match e with
  | EStart => start env
  | EStop => stop env
  | EPause => pause
  | EResume => resume
  | EInjectObservation text => injectObservation text
  | ESetNextWakeup seconds => set_next_wakeup (deps env) seconds ;; ret tt
  | EToggleConsciousness enabled =>
      toggle_consciousness (deps env) enabled ;; ret tt
  | ETimerFires id => timer_fires id env
  | EQueryEnds i run => tick_resume i run env
  end.

Definition run (evs : list (Env * Event)) (w : World) : World :=
  foldl (λ w ee, (step ee.1 ee.2 w).2) w evs.

End WithConfig.
End Consciousness.
Export Consciousness.

(* ===================================================================== *)
(** * The daemon's use of the scheduler (daemon.ts) *)
(* ===================================================================== *)

Module Daemon.
Section WithConfig.
Context `{JsRuntime} `{Collaborators}.
Variable config : AppConfig.

(** "Restore consciousness state" when the server starts. *)
Definition restore (env : Env) : M World unit :=
  if consciousness (features config) then
    let* initialState := on_disk (loadState (dataDir config) env) in
    if bgEnabled initialState then start config env else ret tt
  else ret tt.

(** One run of the watchdog's interval callback on the count of
    unhealthy checks in a row: the new count, or [None] when it makes the
    process exit. *)
Definition watchdog (env : Env) (w : World) (unhealthyCount : nat) : option nat :=
  if negb (isRunning w) then Some 0%nat
  else if isHealthy env w then Some 0%nat
  else
    let unhealthyCount := S unhealthyCount in
    if (5 <=? unhealthyCount)%nat then None else Some unhealthyCount.

(** The watchdog over the worlds it sees at its successive checks,
    until the process exits. *)
Fixpoint watch (checks : list (Env * World)) (unhealthyCount : nat) : option nat :=
  match checks with
  | [] => Some unhealthyCount
  | (env, w) :: rest =>
      match watchdog env w unhealthyCount with
      | Some n => watch rest n
      | None => None
      end
  end.

End WithConfig.
End Daemon.
Export Daemon.

(* ===================================================================== *)
(** * A concrete runtime, configuration and host *)
(* ===================================================================== *)

(** Instances on which the definitions above compute: a serialisation of
    states that [JSON_parse_state] reads back, a host that wires [onLog] to
    the event log as daemon.ts does, and prompt assemblers that return, or
    throw. *)
Module Demo.

Fixpoint bits (p : positive) : string :=
  match p with
  | xH => EmptyString
  | xO p => String "0"%char (bits p)
  | xI p => String "1"%char (bits p)
  end.

Fixpoint unbits (s : string) : option positive :=
  match s with
  | EmptyString => Some xH
  | String c s' =>
      p ← unbits s';
      if Ascii.eqb c "0"%char then Some (xO p)
      else if Ascii.eqb c "1"%char then Some (xI p)
      else None
  end.

Definition fields (o : PartialStateData) : list positive :=
  [encode (p_createdAt o); encode (p_sessionId o); encode (p_spentUsd o);
   encode (p_spentCalls o); encode (p_spentTokensPrompt o);
   encode (p_spentTokensCompletion o); encode (p_currentBranch o);
   encode (p_currentSha o); encode (p_bgEnabled o); encode (p_bgWakeupSec o);
   encode (p_lastInteractionAt o)].

Definition of_fields (l : list positive) : option PartialStateData :=
  match l with
  | [a; b; c; d; e; f; g; h; i; j; k] =>
      a ← decode a; b ← decode b; c ← decode c; d ← decode d; e ← decode e;
      f ← decode f; g ← decode g; h ← decode h; i ← decode i; j ← decode j;
      k ← decode k;
      Some (mkPartial a b c d e f g h i j k)
  | _ => None
  end.

(** The text of the object [o]. *)
Definition text_of (o : PartialStateData) : string := bits (encode (fields o)).

Definition show (v : jsval) : string :=
  match v with
  | VStr s => DQ +:+ s +:+ DQ
  | VInt z => pretty z
  | VNum q => pretty (Qnum q) +:+ "/" +:+ pretty (Z.pos (Qden q))
  | VBool b => if b then "true" else "false"
  end.

#[export] Instance runtime : JsRuntime :=
  {| pid := 4242%N;
     JSON_stringify_state := λ st, text_of (total st);
     JSON_parse_state := λ raw, p ← unbits raw; l ← decode p; of_fields l;
     JSON_stringify_entry := λ e,
       "{" +:+ String.concat ","
                 ((λ kv : string * jsval, DQ +:+ kv.1 +:+ DQ +:+ ":" +:+ show kv.2) <$> e)
           +:+ "}";
     toFixed := λ q _, show (VNum q) |}.

#[export] Instance index : IndexText :=
  λ old topic text, old +:+ "- **" +:+ topic +:+ "**" +:+ LF.

Definition config : AppConfig :=
  {| repoDir := "/repo"; dataDir := "/repo/data";
     budgetLimitUsd := 0%Qc; bgBudgetPct := Q2Qc 10;
     maxTurns := 200; defaultWakeupSec := 300; agentName := "Ouroboros";
     features := mkFeatures true true true |}.

(** The same configuration with deep mode switched off in
    ouroboros.json. *)
Definition config_light : AppConfig :=
  {| repoDir := "/repo"; dataDir := "/repo/data";
     budgetLimitUsd := 0%Qc; bgBudgetPct := Q2Qc 10;
     maxTurns := 200; defaultWakeupSec := 300; agentName := "Ouroboros";
     features := mkFeatures true false true |}.

(** The same configuration started with [OUROBOROS_WAKEUP_SEC=1]. *)
Definition config_fast : AppConfig :=
  {| repoDir := "/repo"; dataDir := "/repo/data";
     budgetLimitUsd := 0%Qc; bgBudgetPct := Q2Qc 10;
     maxTurns := 200; defaultWakeupSec := 1; agentName := "Ouroboros";
     features := mkFeatures true true true |}.

(** [onLog] as daemon.ts installs it. *)
Definition daemon_onLog (text : string) (env : Env) (d : Disk) : Disk :=
  (appendLog "/repo/data" "events.jsonl"
             [("type", VStr "daemon_bg_log"); ("text", VStr text)] env d).2.

#[export] Instance host : Collaborators :=
  {| buildConsciousnessPrompt := λ _ _ _, ret "light prompt";
     buildDeepConsciousnessPrompt := λ _ _ _, ret "deep prompt";
     onLog := daemon_onLog |}.

(** A host whose prompt assembler throws. *)
Definition broken_host : Collaborators :=
  {| buildConsciousnessPrompt := λ _ _ _, throw (mkErr "Error" "EACCES");
     buildDeepConsciousnessPrompt := λ _ _ _, throw (mkErr "Error" "EACCES");
     onLog := daemon_onLog |}.

(** The clocks at millisecond [t]. *)
Definition at_ms (t : Z) : Env :=
  {| now_ms := t; now_iso := "2026-01-01T00:00:00.000Z"; uuid := "u-u-i-d";
     commit_hours := Q2Qc 1; commit_message := "init" |}.

(** A query that ends normally with one successful result. *)
Definition good_run : QueryRun :=
  mkRun [MsgOther; MsgResult (Q2Qc (1 # 100)) 2 true "ok"] None.

(** A query that throws. *)
Definition bad_run : QueryRun :=
  mkRun [MsgOther] (Some (mkErr "Error" "socket hang up")).

(** A state file that holds only the key [bgWakeupSec], with value [sec]. *)
Definition only_wakeup (sec : Z) : PartialStateData :=
  mkPartial None None None None None None None None None (Some sec) None.

Definition disk_with_state (o : PartialStateData) : Disk :=
  mkDisk {[ statePath "/repo/data" := text_of o ]} [].

(** An event log with one entry, and the entry to append to it. *)
Definition events_path : string := "/repo/data/logs/events.jsonl".
Definition disk_with_log : Disk := mkDisk {[ events_path := "{}" +:+ LF ]} [].
Definition an_entry : LogEntry := [("type", VStr "user_message")].

(** Worlds reached by a new scheduler on an empty disk. *)
Definition fresh : World := new config empty_disk.

Definition started : World := run config [(at_ms 1000, EStart)] fresh.

(** The first timer has fired and its episode waits for the SDK. *)
Definition ticking : World :=
  run config [(at_ms 1000, EStart); (at_ms 2000, ETimerFires 0%nat)] fresh.

(** A message arrives during that episode: the host calls [pause]. *)
Definition paused_mid_tick : World :=
  run config [(at_ms 2500, EPause)] ticking.

(** Started, then paused, with the first timer still pending. *)
Definition paused_idle : World :=
  run config [(at_ms 1500, EPause)] started.

(** ... and after that timer has fired. *)
Definition paused_no_timer : World :=
  run config [(at_ms 2000, ETimerFires 0%nat)] paused_idle.

(** A message is handled while the scheduler has never been started:
    the host calls [pause], then [resume]. *)
Definition message_while_stopped : list (Env * Event) :=
  [(at_ms 1000, EPause); (at_ms 9000, EResume)].

(** A message is handled while the first episode is in flight (the host
    calls [pause], then [resume]), and then the episode ends. *)
Definition message_mid_tick : list (Env * Event) :=
  [(at_ms 1000, EStart); (at_ms 2000, ETimerFires 0%nat);
   (at_ms 2500, EPause); (at_ms 2600, EResume);
   (at_ms 3000, EQueryEnds 0%nat good_run)].

(** Three ticks in a row, each query ending before the next timer fires. *)
Definition three_ticks : list (Env * Event) :=
  [(at_ms 1000, EStart);
   (at_ms 2000, ETimerFires 0%nat); (at_ms 2100, EQueryEnds 0%nat good_run);
   (at_ms 3000, ETimerFires 1%nat); (at_ms 3100, EQueryEnds 0%nat good_run);
   (at_ms 4000, ETimerFires 2%nat)].

(** The log after a crash that cut the append after its first byte. *)
Definition torn_log : gmap string string :=
  <[events_path := "{}" +:+ LF +:+ "{"]> (files disk_with_log).

(** A parser of log lines that takes the text of an object for its
    value. *)
#[export] Instance lines : JsonLines :=
  {| JsonValue := string;
     JSON_parse_line := λ line, if startsWith "{" line then Some line else None |}.

(** A budget of ten dollars, a tenth of it for the background. *)
Definition config_budget : AppConfig :=
  {| repoDir := "/repo"; dataDir := "/repo/data";
     budgetLimitUsd := Q2Qc 10; bgBudgetPct := Q2Qc 10;
     maxTurns := 200; defaultWakeupSec := 300; agentName := "Ouroboros";
     features := mkFeatures true true true |}.

(** A state with two dollars spent, and a scheduler started on it. *)
Definition overspent : StateData :=
  set_spent (Q2Qc 2) 40 0 0 (defaultState (at_ms 0)).

Definition started_overspent : World :=
  run config_budget [(at_ms 1000, EStart)]
      (new config_budget (disk_with_state (total overspent))).

(** A second entry for the log. *)
Definition another_entry : LogEntry := [("type", VStr "agent_reply")].

(** A knowledge base with one topic, whose text does not end a line. *)
Definition disk_with_topic : Disk :=
  mkDisk {[ topicFile "/repo/data" "notes" := "line one" ]} [].

(** A disk with a scratchpad. *)
Definition disk_with_scratchpad : Disk :=
  mkDisk {[ memoryPath "/repo/data" "scratchpad.md" := "remember the milk" ]} [].

(** [s] doubled [n] times. *)
Fixpoint doubled (n : nat) (s : string) : string :=
  match n with
  | O => s
  | S n' => doubled n' (s +:+ s)
  end.

(** An event log of eight megabytes. *)
Definition big_log : string := doubled 23 "x".
Definition disk_with_big_log : Disk := mkDisk {[ events_path := big_log ]} [].

End Demo.

(* ===================================================================== *)
(** * Properties, in the words of the specification *)
(* ===================================================================== *)

Module Spec.

(** A field of the loaded state has the stored value when the file has
    the key, and the default otherwise. *)
Definition kept_or_default {A} (stored : option A) (dflt got : A) : Prop :=
  match stored with
  | Some v => got = v
  | None => got = dflt
  end.

Definition merged (dflt : StateData) (obj : PartialStateData) (st : StateData)
  : Prop :=
  kept_or_default (p_createdAt obj) (createdAt dflt) (createdAt st) ∧
  kept_or_default (p_sessionId obj) (sessionId dflt) (sessionId st) ∧
  kept_or_default (p_spentUsd obj) (spentUsd dflt) (spentUsd st) ∧
  kept_or_default (p_spentCalls obj) (spentCalls dflt) (spentCalls st) ∧
  kept_or_default (p_spentTokensPrompt obj) (spentTokensPrompt dflt)
                  (spentTokensPrompt st) ∧
  kept_or_default (p_spentTokensCompletion obj) (spentTokensCompletion dflt)
                  (spentTokensCompletion st) ∧
  kept_or_default (p_currentBranch obj) (currentBranch dflt) (currentBranch st) ∧
  kept_or_default (p_currentSha obj) (currentSha dflt) (currentSha st) ∧
  kept_or_default (p_bgEnabled obj) (bgEnabled dflt) (bgEnabled st) ∧
  kept_or_default (p_bgWakeupSec obj) (bgWakeupSec dflt) (bgWakeupSec st) ∧
  kept_or_default (p_lastInteractionAt obj) (lastInteractionAt dflt)
                  (lastInteractionAt st).

(** Reading the state file, or parsing it, fails. *)
Definition unreadable `{JsRuntime} (dataDir : string) (d : Disk) : Prop :=
  files d !! statePath dataDir = None ∨
  ∃ raw, files d !! statePath dataDir = Some raw ∧ JSON_parse_state raw = None.

(** The bounded range of the wakeup interval. *)
Definition in_range (sec : Z) : Prop := 30 ≤ sec ≤ 7200.

(** An invalid topic name: empty after trimming, containing a slash, a
    backslash or two dots in a row, not matching the allowed pattern, or
    reserved. *)
Definition invalid_topic (topic : string) : Prop :=
  let t := trim topic in
  t = "" ∨ includes "/" t ∨ includes "\" t ∨ includes ".." t
  ∨ ¬ VALID_TOPIC_test t ∨ is_reserved (toLowerCase t).

(** [p] is the directory [dir] itself or a file directly in it. *)
Definition inside (dir p : string) : Prop :=
  p = dir ∨ ∃ name, p = path_join dir name ∧ includes "/" name = false
                    ∧ name ≠ "." ∧ name ≠ "..".

(** Every [fs] call that the computation [m] makes satisfies [P]. *)
Definition emits {A} (P : syscall → Prop) (m : M Disk A) : Prop :=
  ∀ d, ∃ cs, journal (m d).2 = (journal d ++ cs)%list ∧ Forall P cs.

(** A call that puts data into a file does so into a temporary file; no
    call appends in place. *)
Definition by_rename `{JsRuntime} (c : syscall) : Prop :=
  match c with
  | WriteFile p _ => ∃ q, p = tmp_of q
  | Rename a b => a = tmp_of b
  | AppendFile _ _ => False
  | _ => True
  end.

(** The messages with which a topic that trims to [t] is rejected. *)
Definition rejections (t : string) : list string :=
  [ "Topic must be a non-empty string";
    "Invalid characters in topic: " +:+ t;
    "Invalid topic name: " +:+ t +:+ ". Use alphanumeric, underscore, hyphen, dot.";
    "Reserved topic name: " +:+ t ].

(** Every path the call is made on is [dir] or directly in it. *)
Definition confined (dir : string) (c : syscall) : Prop :=
  Forall (inside dir) (touches c).

(** The computation [m] takes every world to one related to it by [R]. *)
Definition keeps {A} (R : World → World → Prop) (m : M World A) : Prop :=
  ∀ w, R w (m w).2.

(** [w'] differs from [w] at most in the disk, the observations and the
    episodes in flight: the flags, the interval, the counters and the
    timers are the same. *)
Definition same_control (w w' : World) : Prop :=
  timer w' = timer w ∧ paused w' = paused w ∧ running w' = running w
  ∧ wakeupSec w' = wakeupSec w ∧ tickCount w' = tickCount w
  ∧ lastTickAt w' = lastTickAt w ∧ pending w' = pending w
  ∧ next_tid w' = next_tid w.

(** The computation [m] returns, whatever the world it starts in. *)
Definition never_throws {S A} (m : M S A) : Prop :=
  ∀ s, ∃ a s', m s = (Ok a, s').

Definition events_file (config : AppConfig) : string :=
  logsPath (dataDir config) "events.jsonl".

(** The structured error event of a failed episode. *)
Definition error_event (env : Env) (err : Err) : LogEntry :=
  [("ts", VStr (now_iso env)); ("type", VStr "consciousness_error");
   ("error", VStr (err_message err))].

(** From the world [w2] in which the episode body threw [err], the tick
    has gone on to [w']: the error event is the last line of the event
    log, the completion time is recorded, the running flag is as it was,
    and if it is set a new timer is pending and is the one the scheduler
    holds. *)
Definition failure_handled `{JsRuntime} (config : AppConfig) (env : Env)
    (err : Err) (w2 w' : World) : Prop :=
  (∃ pre, files (disk w') !! events_file config =
            Some (pre +:+ JSON_stringify_entry (error_event env err) +:+ LF))
  ∧ lastTickAt w' = now_ms env
  ∧ running w' = running w2
  ∧ (running w2 = true →
       timer w' = Some (next_tid w2)
       ∧ pending w' =
           (pending w2 ++ [mkTimer (next_tid w2) (wakeupSec w2 * 1000)])%list)
  ∧ (running w2 = false → timer w' = timer w2 ∧ pending w' = pending w2).

(** [w] after [setTimeout] has been called for the next tick and the
    handle stored. *)
Definition scheduled (w : World) : World :=
  set_timer (Some (next_tid w))
    (set_pending (pending w ++ [mkTimer (next_tid w) (wakeupSec w * 1000)])
                 (S (next_tid w)) w).

(** [w] after the timer whose handle is held, if any, has been cleared. *)
Definition unscheduled (w : World) : World :=
  match timer w with
  | Some id => set_timer None (set_pending (without id (pending w)) (next_tid w) w)
  | None => w
  end.

(** The kind of episode of tick number [n]: deep when [n mod 3 = 0] and
    deep mode is enabled, light otherwise. *)
Definition expected_mode (config : AppConfig) (n : Z) : Mode :=
  if deepMode (features config) && (n mod 3 =? 0) then Deep else Light.

(** The start of an episode of the given kind. *)
Definition episode_start `{JsRuntime} `{Collaborators} (config : AppConfig)
    (mode : Mode) : StateData → Env → M World unit :=
  match mode with
  | Deep => thinkDeep_start config
  | Light => think_start config
  end.

(** The rest of an episode of the given kind. *)
Definition episode_finish `{JsRuntime} `{Collaborators} (config : AppConfig)
    (mode : Mode) : QueryRun → Env → M World unit :=
  match mode with
  | Deep => thinkDeep_finish config
  | Light => think_finish config
  end.

Definition same_wakeup (w w' : World) : Prop := wakeupSec w' = wakeupSec w.

(** The events after which a timer may have been scheduled although the
    paused flag was set before. *)
Definition may_schedule (ev : Event) : bool :=
  match ev with
  | EResume | EStart | EToggleConsciousness true | EQueryEnds _ _ => true
  | _ => false
  end.

Definition is_timer_fire (ev : Event) : bool :=
  match ev with
  | ETimerFires _ => true
  | _ => false
  end.

(** No [setTimeout] was called between [w] and [w']. *)
Definition no_new_timer (w w' : World) : Prop :=
  next_tid w' = next_tid w ∧ pending w' ⊆ pending w.

(** ** Words for the further properties *)

(** The disk after the entries [es] have been appended to [p], one call
    after the other. *)
Definition appended `{JsRuntime} (p : string) (es : list LogEntry) (d : Disk) : Disk :=
  foldl (λ d e, (appendJsonl p e d).2) d es.

(** The lines that [appendJsonl] writes for the entries [es]. *)
Definition entry_lines `{JsRuntime} (es : list LogEntry) : string :=
  foldr (λ e rest, JSON_stringify_entry e +:+ LF +:+ rest) "" es.

(** The paths of the index of the knowledge base, of the scratchpad, of
    the identity and of the directory of the logs. *)
Definition indexPath (dataDir : string) : string :=
  path_join (knowledgeDir dataDir) INDEX_FILE.
Definition scratchpadPath (dataDir : string) : string :=
  memoryPath dataDir "scratchpad.md".
Definition identityPath (dataDir : string) : string :=
  memoryPath dataDir "identity.md".
Definition logsDir (dataDir : string) : string := path_join dataDir "logs".

(** The text that an append of [content] leaves in a topic file that
    held [old]. *)
Definition appended_text (old : option string) (content : string) : string :=
  match old with
  | Some existing =>
      (if (0 <? String.length existing)%nat && negb (endsWith LF existing)
       then existing +:+ LF else existing) +:+ content
  | None => content
  end.

(** The values of the lines that are not blank and parse. *)
Definition parsed_lines `{JsonLines} (lines : list string) : list JsonValue :=
  omap (λ line, if String.eqb (trim line) "" then None else JSON_parse_line line)
       lines.

(** The names that [rotateIfNeeded] takes for rotated copies of the log
    [base]. *)
Definition rotated_logs (base : string) (names : list string) : list string :=
  List.filter (λ f, startsWith (base +:+ ".") f && negb (String.eqb f base)) names.

(** The names of the files directly in [dir]. *)
Definition names_of (dir : string) (fs : gmap string string) : list string :=
  basename <$> filter (λ p, dirname p = dir) (map_to_list fs).*1.

(** The host's [onLog] leaves the file [p] as it is. *)
Definition log_spares `{Collaborators} (p : string) : Prop :=
  ∀ text env d, files (onLog text env d) !! p = files d !! p.

(** [w'] differs from [w] at most in the disk, and not in the files
    [Q]. *)
Definition agree_on (Q : string → Prop) (w w' : World) : Prop :=
  ∃ d', w' = set_disk d' w ∧ ∀ q, Q q → files d' !! q = files (disk w) !! q.

(** The cost and the turns that the loop over the messages ends with. *)
Fixpoint last_result (msgs : list SDKMessage) (acc : Qc * Z) : Qc * Z :=
  match msgs with
  | [] => acc
  | MsgOther :: rest => last_result rest acc
  | MsgResult cost turns _ _ :: rest => last_result rest (cost, turns)
  end.

(** The events that start the scheduler. *)
Definition starts (ev : Event) : bool :=
  match ev with
  | EStart | EToggleConsciousness true => true
  | _ => false
  end.

(** The block that carries the observations in a prompt. *)
Definition observations_block (obs : list string) : string :=
  LF +:+ LF +:+ "## Recent Observations" +:+ LF +:+ LF +:+
  "- " +:+ String.concat (LF +:+ "- ") obs.

(** Between [w] and [w'] the scheduler stayed stopped: no tick was
    counted, no timer scheduled and no episode started. *)
Definition inert (w w' : World) : Prop :=
  running w' = false ∧ tickCount w' = tickCount w ∧ no_new_timer w w'
  ∧ (length (inflight w') ≤ length (inflight w))%nat.

(** The scheduler waits for its one pending timer: it is running, not
    paused, no episode is in flight, and the timer it holds is the only
    one pending. *)
Definition idle (w : World) : Prop :=
  running w = true ∧ paused w = false ∧ inflight w = []
  ∧ ∃ id, timer w = Some id ∧ tid <$> pending w = [id].

(** The path [q] is the state file. *)
Definition is_state_file (dataDir q : string) : Prop := q = statePath dataDir.

(** A check of the watchdog that finds the scheduler running and not
    healthy. *)
Definition unhealthy (check : Env * World) : Prop :=
  running check.2 = true ∧ isHealthy check.1 check.2 = false.

End Spec.
Export Spec.

(* ===================================================================== *)
(** * Facts about utils.ts *)
(* ===================================================================== *)

Section UtilsFacts.
Context `{JsRuntime}.

Lemma str_length_app (a b : string) :
  String.length (a +:+ b) = (String.length a + String.length b)%nat.
Proof. induction a as [|c a IH]; simpl; [done | by rewrite IH]. Qed.

Lemma tmp_of_ne (p : string) : tmp_of p ≠ p.
Proof.
  intros E. apply (f_equal String.length) in E.
  unfold tmp_of in E. rewrite !str_length_app in E. simpl in E. lia.
Qed.

Lemma calls_of_journal {A} (m : M Disk A) (d : Disk) (cs : list syscall) :
  journal (m d).2 = (journal d ++ cs)%list → calls_of m d = cs.
Proof. intros E. unfold calls_of. rewrite E. by rewrite drop_app_length. Qed.

Lemma writeText_run (p c : string) (d : Disk) :
  writeText p c d =
    (Ok tt,
     mkDisk (<[p := c]> (delete (tmp_of p) (<[tmp_of p := c]> (files d))))
            (journal d ++ [Mkdir (dirname p); WriteFile (tmp_of p) c;
                           Rename (tmp_of p) p])%list).
Proof.
  unfold writeText, bind, mkdirSync, writeFileSync, renameSync, record. simpl.
  rewrite lookup_insert_eq. simpl.
  by rewrite <- !app_assoc.
Qed.

Lemma writeText_calls (p c : string) (d : Disk) :
  calls_of (writeText p c) d =
    [Mkdir (dirname p); WriteFile (tmp_of p) c; Rename (tmp_of p) p].
Proof. apply calls_of_journal. by rewrite writeText_run. Qed.

Lemma writeText_target (p c : string) (d : Disk) :
  files (writeText p c d).2 !! p = Some c.
Proof. rewrite writeText_run. simpl. apply lookup_insert_eq. Qed.

Lemma writeText_other (p c q : string) (d : Disk) :
  q ≠ p → q ≠ tmp_of p → files (writeText p c d).2 !! q = files d !! q.
Proof.
  intros ??. rewrite writeText_run. simpl.
  rewrite lookup_insert_ne by done. rewrite lookup_delete_ne by done.
  by rewrite lookup_insert_ne.
Qed.

Lemma writeText_crash (p c : string) (d : Disk) (fs' : gmap string string) :
  fs' ∈ crash_states (calls_of (writeText p c) d) (files d) →
  fs' !! p = files d !! p ∨ fs' !! p = Some c.
Proof.
  rewrite writeText_calls. simpl.
  pose proof (tmp_of_ne p) as Hne.
  rewrite !elem_of_cons, elem_of_app, list_elem_of_fmap, !elem_of_cons.
  intros [->|[->|[[k [-> _]]|[->|[->|Hnil]]]]].
  - by left.
  - by left.
  - left. by rewrite lookup_insert_ne.
  - left. by rewrite lookup_insert_ne.
  - right. rewrite lookup_insert_eq. simpl. by rewrite lookup_insert_eq.
  - by apply elem_of_nil in Hnil.
Qed.

Lemma appendJsonl_run (p : string) (entry : LogEntry) (d : Disk) :
  appendJsonl p entry d =
    (Ok tt,
     mkDisk (<[p := default "" (files d !! p) +:+ JSON_stringify_entry entry +:+ LF]>
               (files d))
            (journal d ++ [Mkdir (dirname p);
                           AppendFile p (JSON_stringify_entry entry +:+ LF)])%list).
Proof.
  unfold appendJsonl, bind, mkdirSync, appendFileSync, record. simpl.
  by rewrite <- !app_assoc.
Qed.

End UtilsFacts.

(* ===================================================================== *)
(** * Facts about state.ts *)
(* ===================================================================== *)

Section StateFacts.
Context `{JsRuntime}.
Variable dataDir : string.

Lemma spread_total (d st : StateData) : spread d (total st) = st.
Proof. by destruct st. Qed.

Lemma spread_merged (d : StateData) (obj : PartialStateData) :
  merged d obj (spread d obj).
Proof.
  unfold merged, spread. simpl.
  repeat split;
    match goal with |- kept_or_default ?o _ _ => by destruct o end.
Qed.

Lemma loadState_parsed (env : Env) (d : Disk) (raw : string)
    (obj : PartialStateData) :
  files d !! statePath dataDir = Some raw →
  JSON_parse_state raw = Some obj →
  loadState dataDir env d =
    (Ok (spread (defaultState env) obj), record (ReadFile (statePath dataDir)) d).
Proof.
  intros Hf Hp. unfold loadState, try_catch, bind, readFileSync, JSON_parse.
  rewrite Hf. by rewrite Hp.
Qed.

Lemma loadState_fresh (env : Env) (d : Disk) :
  unreadable dataDir d →
  loadState dataDir env d =
    (Ok (defaultState env),
     (saveState dataDir (defaultState env)
                (record (ReadFile (statePath dataDir)) d)).2).
Proof.
  intros Hu. unfold loadState, try_catch, bind, readFileSync, JSON_parse.
  destruct Hu as [Hf | (raw & Hf & Hp)]; rewrite Hf; [|rewrite Hp]; simpl;
    unfold saveState; rewrite writeText_run; done.
Qed.

Lemma readable_or_not (d : Disk) :
  (∃ raw obj, files d !! statePath dataDir = Some raw ∧
              JSON_parse_state raw = Some obj) ∨ unreadable dataDir d.
Proof.
  unfold unreadable.
  destruct (files d !! statePath dataDir) as [raw|] eqn:Hf; [|by right; left].
  destruct (JSON_parse_state raw) as [obj|] eqn:Hp; [left | right; right]; eauto.
Qed.

(** [loadState] never throws. *)
Lemma loadState_returns (env : Env) (d : Disk) :
  ∃ st d', loadState dataDir env d = (Ok st, d').
Proof.
  destruct (readable_or_not d) as [(raw & obj & Hf & Hp) | Hu].
  - eexists _, _. exact (loadState_parsed _ _ _ _ Hf Hp).
  - eexists _, _. exact (loadState_fresh _ _ Hu).
Qed.

Lemma saveState_then_load (env : Env) (st : StateData) (d : Disk) :
  json_roundtrip →
  loadState dataDir env (saveState dataDir st d).2 =
    (Ok st, record (ReadFile (statePath dataDir)) (saveState dataDir st d).2).
Proof.
  intros Hrt.
  rewrite (loadState_parsed env _ (JSON_stringify_state st) (total st)).
  - by rewrite spread_total.
  - apply writeText_target.
  - apply Hrt.
Qed.

Lemma updateBudget_run (env : Env) (d : Disk) (cost : Qc) (turns pt ct : Z) :
  ∃ st d', loadState dataDir env d = (Ok st, d') ∧
    let st' := set_spent (spentUsd st + cost)%Qc (spentCalls st + turns)
                         (spentTokensPrompt st + pt)
                         (spentTokensCompletion st + ct) st in
    updateBudget dataDir cost turns pt ct env d =
      (Ok st', (saveState dataDir st' d').2).
Proof.
  destruct (readable_or_not d) as [(raw & obj & Hf & Hp) | Hu].
  - eexists _, _. split; [exact (loadState_parsed _ _ _ _ Hf Hp)|].
    unfold updateBudget, bind. rewrite (loadState_parsed _ _ _ _ Hf Hp).
    unfold saveState. rewrite writeText_run. done.
  - eexists _, _. split; [exact (loadState_fresh _ _ Hu)|].
    unfold updateBudget, bind. rewrite (loadState_fresh _ _ Hu).
    unfold saveState at 1 3. rewrite !writeText_run. done.
Qed.

End StateFacts.

Section StateTheorems.
Context `{JsRuntime}.
Variable dataDir : string.



End StateTheorems.

(* ===================================================================== *)
(** * Facts about memory.ts *)
(* ===================================================================== *)

Section Emits.
Context {A B : Type} (P : syscall → Prop).

Lemma emits_ret (a : A) : emits P (ret a).
Proof. intros d. exists []. by rewrite app_nil_r. Qed.

Lemma emits_throw (e : Err) : emits P (@throw Disk A e).
Proof. intros d. exists []. by rewrite app_nil_r. Qed.

Lemma emits_bind (m : M Disk A) (k : A → M Disk B) :
  emits P m → (∀ a, emits P (k a)) → emits P (bind m k).
Proof.
  intros Hm Hk d. destruct (Hm d) as (cs & E & HP). unfold bind.
  destruct (m d) as [[a|e] d1]; simpl in *.
  - destruct (Hk a d1) as (cs' & E' & HP'). exists (cs ++ cs')%list.
    rewrite E', E, app_assoc. split; [done | by apply Forall_app].
  - by exists cs.
Qed.

Lemma emits_try_catch (m : M Disk A) (h : Err → M Disk A) :
  emits P m → (∀ e, emits P (h e)) → emits P (try_catch m h).
Proof.
  intros Hm Hh d. destruct (Hm d) as (cs & E & HP). unfold try_catch.
  destruct (m d) as [[a|e] d1]; simpl in *.
  - by exists cs.
  - destruct (Hh e d1) as (cs' & E' & HP'). exists (cs ++ cs')%list.
    rewrite E', E, app_assoc. split; [done | by apply Forall_app].
Qed.

Lemma emits_calls (m : M Disk A) (d : Disk) :
  emits P m → Forall P (calls_of m d).
Proof.
  intros Hm. destruct (Hm d) as (cs & E & HP).
  unfold calls_of. by rewrite E, drop_app_length.
Qed.
End Emits.

Section EmitsPrimitives.
Context `{JsRuntime} (P : syscall → Prop).

Local Ltac one_call c :=
  intros HP d; exists [c]; split; [|by repeat constructor];
  cbv [existsSync readFileSync readText mkdirSync ensureDir];
  try destruct (files d !! _); reflexivity.

Lemma emits_existsSync p : P (Exists p) → emits P (existsSync p).
Proof. one_call (Exists p). Qed.

Lemma emits_readText p : P (ReadFile p) → emits P (readText p).
Proof. one_call (ReadFile p). Qed.

Lemma emits_ensureDir p : P (Mkdir p) → emits P (ensureDir p).
Proof. one_call (Mkdir p). Qed.

Lemma emits_writeText p c :
  P (Mkdir (dirname p)) → P (WriteFile (tmp_of p) c) → P (Rename (tmp_of p) p) →
  emits P (writeText p c).
Proof.
  intros ??? d. eexists. rewrite writeText_run. simpl. split; [done|].
  by repeat constructor.
Qed.
End EmitsPrimitives.

Ltac emits_step :=
  first
    [ apply emits_ret
    | apply emits_throw
    | apply emits_existsSync
    | apply emits_readText
    | apply emits_ensureDir
    | apply emits_writeText
    | apply emits_bind; [|intros ?]
    | apply emits_try_catch; [|intros ?]
    | match goal with
      | |- emits _ (if ?b then _ else _) => destruct b
      | |- emits _ (match ?x with _ => _ end) => destruct x
      end ].

Section PathFacts.

Lemma str_app_assoc (a b c : string) : (a +:+ b) +:+ c = a +:+ b +:+ c.
Proof.
  induction a as [|x a IH]; [done|].
  change (String x ((a +:+ b) +:+ c) = String x (a +:+ b +:+ c)). by rewrite IH.
Qed.

Lemma prefix_empty (s : string) : String.prefix "" s = true.
Proof. by destruct s. Qed.

Lemma includes_slash_cons (c : ascii) (s : string) :
  includes "/" (String c s) = Ascii.eqb slash c || includes "/" s.
Proof.
  cbn [includes String.prefix]. destruct (ascii_dec "/" c) as [<-|Hne].
  - by rewrite prefix_empty.
  - cbn [orb]. destruct (Ascii.eqb_spec slash c) as [E|]; [|done].
    by destruct Hne.
Qed.

Lemma includes_slash_app (a b : string) :
  includes "/" (a +:+ b) = includes "/" a || includes "/" b.
Proof.
  induction a as [|c a IH]; [done|].
  change (String c a +:+ b) with (String c (a +:+ b)).
  rewrite !includes_slash_cons, IH. by rewrite orb_assoc.
Qed.

Lemma split_dir_no_slash (s : string) :
  includes "/" s = false → split_dir s = None.
Proof.
  induction s as [|c s IH]; [done|].
  rewrite includes_slash_cons. intros [Hc Hs]%orb_false_elim.
  cbn [split_dir]. rewrite (IH Hs).
  rewrite Ascii.eqb_sym in Hc. by rewrite Hc.
Qed.

Lemma split_dir_join (dir name : string) :
  includes "/" name = false → split_dir (path_join dir name) = Some dir.
Proof.
  intros Hn. unfold path_join. induction dir as [|c dir IH].
  - change ("" +:+ "/" +:+ name) with (String slash name).
    cbn [split_dir]. rewrite (split_dir_no_slash _ Hn).
    by rewrite Ascii.eqb_refl.
  - change (String c dir +:+ "/" +:+ name) with (String c (dir +:+ "/" +:+ name)).
    cbn [split_dir]. by rewrite IH.
Qed.

Lemma dirname_join (dir name : string) :
  dir ≠ "" → includes "/" name = false → dirname (path_join dir name) = dir.
Proof.
  intros Hd Hn. unfold dirname. rewrite (split_dir_join _ _ Hn).
  by destruct dir.
Qed.

Lemma path_join_ne_empty (a b : string) : path_join a b ≠ "".
Proof. unfold path_join. by destruct a. Qed.

(** A printed number has no separator in it. *)
Lemma pretty_N_go_no_slash (x : N) (s : string) :
  includes "/" s = false → includes "/" (pretty_N_go x s) = false.
Proof.
  revert s. induction (N.lt_wf_0 x) as [x _ IH]; intros s Hs.
  assert (x = 0 ∨ 0 < x)%N as [->|Hx] by lia.
  - by rewrite pretty_N_go_0.
  - rewrite pretty_N_go_step by done. apply IH; [by apply N.div_lt|].
    rewrite includes_slash_cons, Hs, orb_false_r.
    unfold pretty_N_char. by repeat case_match.
Qed.

Lemma pretty_N_no_slash (x : N) : includes "/" (pretty x) = false.
Proof.
  unfold pretty, pretty_N. case_decide; [done|].
  by apply pretty_N_go_no_slash.
Qed.

End PathFacts.

Section TopicFacts.

Lemma sanitizeTopic_ok (topic t : string) :
  sanitizeTopic topic = Ok t →
  t = trim topic ∧ t ≠ "" ∧ includes "/" t = false ∧ includes "\" t = false
  ∧ includes ".." t = false ∧ VALID_TOPIC_test t = true
  ∧ is_reserved (toLowerCase t) = false.
Proof.
  unfold sanitizeTopic.
  destruct (String.eqb_spec (trim topic) "") as [|Hne]; [done|].
  destruct (includes "/" (trim topic)) eqn:E1; [done|].
  destruct (includes "\" (trim topic)) eqn:E2; [done|].
  destruct (includes ".." (trim topic)) eqn:E3; [done|].
  destruct (VALID_TOPIC_test (trim topic)) eqn:E4; [|done].
  destruct (is_reserved (toLowerCase (trim topic))) eqn:E5; [done|].
  simpl. intros [= <-]. by rewrite E1, E2, E3, E4, E5.
Qed.

Lemma sanitizeTopic_throws_iff (topic : string) :
  (∃ e, sanitizeTopic topic = Throw e) ↔ invalid_topic topic.
Proof.
  unfold invalid_topic, sanitizeTopic.
  destruct (String.eqb_spec (trim topic) "") as [E0|Hne].
  { split; [by left | eauto]. }
  destruct (includes "/" (trim topic)) eqn:E1.
  { simpl. split; [right; by left | eauto]. }
  destruct (includes "\" (trim topic)) eqn:E2.
  { simpl. split; [right; right; by left | eauto]. }
  destruct (includes ".." (trim topic)) eqn:E3.
  { simpl. split; [right; right; right; by left | eauto]. }
  destruct (VALID_TOPIC_test (trim topic)) eqn:E4; simpl.
  2: { split; [right; right; right; right; left; by intros [] | eauto]. }
  destruct (is_reserved (toLowerCase (trim topic))) eqn:E5; simpl.
  { split; [by repeat right | eauto]. }
  split; [by intros [e ?]|].
  intros [?|[[]|[[]|[[]|[Hv|[]]]]]]; [done|]. by destruct Hv.
Qed.

Lemma sanitizeTopic_message (topic : string) (e : Err) :
  sanitizeTopic topic = Throw e → err_message e ∈ rejections (trim topic).
Proof.
  unfold sanitizeTopic, rejections.
  repeat match goal with |- context [if ?b then _ else _] => destruct b end;
    intros [= <-]; simpl; set_solver.
Qed.

End TopicFacts.

Section MemoryFacts.
Context `{JsRuntime} `{IndexText}.
Variable dataDir : string.

Lemma inside_file (dir name : string) :
  includes "/" name = false → (3 ≤ String.length name)%nat →
  inside dir (path_join dir name).
Proof.
  intros Hs Hl. right. exists name. split; [done|]. split; [done|].
  split; intros ->; simpl in Hl; lia.
Qed.

Lemma tmp_of_join (dir name : string) :
  tmp_of (path_join dir name) = path_join dir (name +:+ ".tmp." +:+ pretty pid).
Proof. unfold tmp_of, path_join. by rewrite !str_app_assoc. Qed.

(** The calls made on a file [name] of [dir], and on its temporary file,
    stay in [dir]. *)
Lemma confined_file (dir name : string) :
  dir ≠ "" →
  includes "/" name = false → (3 ≤ String.length name)%nat →
  let f := path_join dir name in
  confined dir (Mkdir dir) ∧ confined dir (Exists f) ∧ confined dir (ReadFile f)
  ∧ confined dir (Mkdir (dirname f))
  ∧ (∀ c, confined dir (WriteFile (tmp_of f) c))
  ∧ confined dir (Rename (tmp_of f) f).
Proof.
  intros Hd Hs Hl f.
  assert (inside dir f) as Hf by by apply inside_file.
  assert (inside dir (tmp_of f)) as Ht.
  { unfold f. rewrite tmp_of_join. apply inside_file.
    - rewrite !includes_slash_app, Hs, pretty_N_no_slash. done.
    - rewrite str_length_app. lia. }
  assert (inside dir dir) as Hdd by by left.
  unfold confined, f. rewrite (dirname_join _ _ Hd Hs). simpl.
  repeat split; try intros c; repeat (apply Forall_cons_2; [done|]);
    apply Forall_nil_2.
Qed.

Lemma topic_file_confined (t : string) :
  includes "/" t = false →
  let f := topicFile dataDir t in
  let dir := knowledgeDir dataDir in
  confined dir (Mkdir dir) ∧ confined dir (Exists f) ∧ confined dir (ReadFile f)
  ∧ confined dir (Mkdir (dirname f))
  ∧ (∀ c, confined dir (WriteFile (tmp_of f) c))
  ∧ confined dir (Rename (tmp_of f) f).
Proof.
  intros Hs. apply confined_file.
  - apply path_join_ne_empty.
  - by rewrite includes_slash_app, Hs.
  - rewrite str_length_app. simpl. lia.
Qed.

Lemma knowledgeRead_confined (topic : string) :
  emits (confined (knowledgeDir dataDir)) (knowledgeRead dataDir topic).
Proof.
  unfold knowledgeRead.
  destruct (sanitizeTopic topic) as [t|e] eqn:E; [|apply emits_ret].
  apply sanitizeTopic_ok in E as (_ & Hne & Hs & _).
  destruct (topic_file_confined t Hs) as (? & ? & ? & ? & ? & ?).
  repeat emits_step; done.
Qed.

Lemma updateIndexEntry_confined (t : string) :
  includes "/" t = false →
  emits (confined (knowledgeDir dataDir)) (updateIndexEntry dataDir t).
Proof.
  intros Hs. unfold updateIndexEntry.
  destruct (topic_file_confined t Hs) as (? & ? & ? & ? & ? & ?).
  destruct (confined_file (knowledgeDir dataDir) INDEX_FILE
              (path_join_ne_empty _ _)) as (? & ? & ? & ? & ? & ?);
    [done | simpl; lia |].
  unfold topicFile in *. repeat emits_step; done.
Qed.

Lemma knowledgeWrite_confined (topic content : string) (mode : WriteMode) :
  emits (confined (knowledgeDir dataDir))
        (knowledgeWrite dataDir topic content mode).
Proof.
  unfold knowledgeWrite.
  destruct (sanitizeTopic topic) as [t|e] eqn:E; [|apply emits_ret].
  apply sanitizeTopic_ok in E as (_ & Hne & Hs & _).
  destruct (topic_file_confined t Hs) as (? & ? & ? & ? & ? & ?).
  pose proof (updateIndexEntry_confined t Hs).
  apply emits_bind; [apply emits_ensureDir; done|intros _].
  apply emits_bind; [|intros _; apply emits_bind; [done|intros; apply emits_ret]].
  destruct mode; repeat emits_step; done.
Qed.

Lemma knowledgeWrite_by_rename (topic content : string) (mode : WriteMode) :
  emits by_rename (knowledgeWrite dataDir topic content mode).
Proof.
  unfold knowledgeWrite, updateIndexEntry.
  destruct (sanitizeTopic topic) as [t|e]; [|apply emits_ret].
  destruct mode; repeat emits_step; simpl; eauto.
Qed.

End MemoryFacts.

Section MemoryTheorems.
Context `{JsRuntime} `{IndexText}.
Variable dataDir : string.

(** C9. For every invalid topic name, [knowledgeRead] and
    [knowledgeWrite] return, without throwing and without any [fs] call,
    the text "Warning: Invalid topic: " followed by the reason, which
    names the rule broken and the topic.  And for every topic argument,
    valid or not, every [fs] call of the two functions is made on the
    knowledge directory or on a file directly in it. *)
Theorem invalid_topic_is_answered_with_a_warning :
  (∀ (topic content : string) (mode : WriteMode) (d : Disk),
     invalid_topic topic →
     ∃ e, sanitizeTopic topic = Throw e
          ∧ err_message e ∈ rejections (trim topic)
          ∧ knowledgeRead dataDir topic d =
              (Ok ("Warning: Invalid topic: " +:+ err_message e), d)
          ∧ knowledgeWrite dataDir topic content mode d =
              (Ok ("Warning: Invalid topic: " +:+ err_message e), d))
  ∧ (∀ (topic content : string) (mode : WriteMode) (d : Disk),
       Forall (confined (knowledgeDir dataDir))
              (calls_of (knowledgeRead dataDir topic) d)
       ∧ Forall (confined (knowledgeDir dataDir))
                (calls_of (knowledgeWrite dataDir topic content mode) d)).
Proof.
  split.
  - intros topic content mode d [e He]%sanitizeTopic_throws_iff.
    exists e. split; [done|]. split; [by apply sanitizeTopic_message|].
    unfold knowledgeRead, knowledgeWrite. by rewrite He.
  - intros topic content mode d. split; apply emits_calls.
    + apply knowledgeRead_confined.
    + apply knowledgeWrite_confined.
Qed.

(** C7 (amended). Every write of the persisted state and of the memory
    files goes through [writeText], which writes the content to a
    temporary file and renames it over the target: a crash at any point
    of it leaves the target as it was or holding the whole new content.
    An entry is added to the event log by one in-place append. *)
Theorem state_and_memory_writes_are_atomic :
  (∀ (p c : string) (d : Disk) (fs' : gmap string string),
     fs' ∈ crash_states (calls_of (writeText p c) d) (files d) →
     fs' !! p = files d !! p ∨ fs' !! p = Some c)
  ∧ (∀ (p c : string) (d : Disk),
       (writeText p c d).1 = Ok tt ∧ files (writeText p c d).2 !! p = Some c
       ∧ calls_of (writeText p c) d =
           [Mkdir (dirname p); WriteFile (tmp_of p) c; Rename (tmp_of p) p])
  ∧ (∀ st, saveState dataDir st =
             writeText (statePath dataDir) (JSON_stringify_state st))
  ∧ (∀ content,
       saveScratchpad dataDir content =
         writeText (memoryPath dataDir "scratchpad.md") content
       ∧ saveIdentity dataDir content =
           writeText (memoryPath dataDir "identity.md") content)
  ∧ (∀ (topic content : string) (mode : WriteMode) (d : Disk),
       Forall by_rename (calls_of (knowledgeWrite dataDir topic content mode) d))
  ∧ (∀ (p : string) (entry : LogEntry) (d : Disk),
       calls_of (appendJsonl p entry) d =
         [Mkdir (dirname p); AppendFile p (JSON_stringify_entry entry +:+ LF)]).
Proof.
  split; [exact writeText_crash|]. split; [|split; [done|split; [done|split]]].
  - intros p c d. split; [by rewrite writeText_run|].
    split; [apply writeText_target | apply writeText_calls].
  - intros topic content mode d. apply emits_calls, knowledgeWrite_by_rename.
  - intros p entry d. apply calls_of_journal. by rewrite appendJsonl_run.
Qed.

End MemoryTheorems.

(* ===================================================================== *)
(** * The concrete runtime reads back what it prints *)
(* ===================================================================== *)

Section DemoFacts.
Import Demo.

Lemma unbits_bits (p : positive) : unbits (bits p) = Some p.
Proof. induction p as [p IH|p IH|]; simpl; [by rewrite IH..|done]. Qed.

Lemma of_fields_fields (o : PartialStateData) : of_fields (fields o) = Some o.
Proof.
  unfold of_fields, fields. rewrite !decode_encode. simpl. by destruct o.
Qed.

Lemma demo_parse_text_of (o : PartialStateData) :
  JSON_parse_state (text_of o) = Some o.
Proof.
  unfold text_of. simpl. rewrite unbits_bits. simpl.
  rewrite decode_encode. simpl. apply of_fields_fields.
Qed.

Lemma demo_roundtrip : json_roundtrip.
Proof. intros st. apply demo_parse_text_of. Qed.

End DemoFacts.

(* ===================================================================== *)
(** * Facts about consciousness.ts *)
(* ===================================================================== *)

Section Keeps.
Context {A B : Type} (R : World → World → Prop) `{!PreOrder R}.

Lemma keeps_ret (a : A) : keeps R (ret a).
Proof. intros w. simpl. reflexivity. Qed.

Lemma keeps_throw (e : Err) : keeps R (@throw World A e).
Proof. intros w. simpl. reflexivity. Qed.

Lemma keeps_get : keeps R (@get World).
Proof. intros w. simpl. reflexivity. Qed.

Lemma keeps_bind (m : M World A) (k : A → M World B) :
  keeps R m → (∀ a, keeps R (k a)) → keeps R (bind m k).
Proof.
  intros Hm Hk w. specialize (Hm w). unfold bind.
  destruct (m w) as [[a|e] w1]; simpl in *; [|done].
  etrans; [done | apply Hk].
Qed.

Lemma keeps_try_catch (m : M World A) (h : Err → M World A) :
  keeps R m → (∀ e, keeps R (h e)) → keeps R (try_catch m h).
Proof.
  intros Hm Hh w. specialize (Hm w). unfold try_catch.
  destruct (m w) as [[a|e] w1]; simpl in *; [done|].
  etrans; [done | apply Hh].
Qed.

Lemma keeps_modify (f : World → World) :
  (∀ w, R w (f w)) → keeps R (modify f).
Proof. intros Hf w. apply Hf. Qed.
End Keeps.

Global Instance same_control_preorder : PreOrder same_control.
Proof.
  split.
  - intros w. repeat split.
  - intros w1 w2 w3 (?&?&?&?&?&?&?&?) (?&?&?&?&?&?&?&?).
    repeat split; congruence.
Qed.

Lemma control_ret {A} (a : A) : keeps same_control (ret a).
Proof. apply (keeps_ret same_control). Qed.

Lemma control_throw {A} (e : Err) : keeps same_control (@throw World A e).
Proof. apply (keeps_throw same_control). Qed.

Lemma control_get : keeps same_control (@get World).
Proof. apply (keeps_get same_control). Qed.

Lemma control_bind {A B} (m : M World A) (k : A → M World B) :
  keeps same_control m → (∀ a, keeps same_control (k a)) →
  keeps same_control (bind m k).
Proof. apply (keeps_bind same_control). Qed.

Lemma control_try_catch {A} (m : M World A) (h : Err → M World A) :
  keeps same_control m → (∀ e, keeps same_control (h e)) →
  keeps same_control (try_catch m h).
Proof. apply (keeps_try_catch same_control). Qed.

Section ConsciousnessFacts.
Context `{JsRuntime} `{Collaborators}.
Variable config : AppConfig.

Lemma on_disk_run {A} (m : M Disk A) (w : World) :
  on_disk m w = ((m (disk w)).1, set_disk (m (disk w)).2 w).
Proof. unfold on_disk, zoom. by destruct (m (disk w)). Qed.

Lemma keeps_on_disk {A} (m : M Disk A) : keeps same_control (on_disk m).
Proof. intros w. rewrite on_disk_run. simpl. repeat split. Qed.

Lemma keeps_log (text : string) (env : Env) : keeps same_control (log text env).
Proof. intros w. repeat split. Qed.

Lemma keeps_appendEvent (e : LogEntry) (env : Env) :
  keeps same_control (appendEvent config e env).
Proof. apply keeps_on_disk. Qed.

Local Ltac keeps_step :=
  first
    [ apply control_ret
    | apply control_throw
    | apply control_get
    | apply keeps_log
    | apply keeps_appendEvent
    | apply keeps_on_disk
    | apply keeps_modify; intros ?; by repeat split
    | apply control_bind; [|intros ?]
    | apply control_try_catch; [|intros ?]
    | match goal with
      | |- keeps _ (if ?b then _ else _) => destruct b
      | |- keeps _ (match ?x with _ => _ end) => destruct x
      | |- keeps _ (let '(_, _) := ?x in _) => destruct x
      end
    | case_match ].

Lemma keeps_with_observations (prompt : string) :
  keeps same_control (with_observations prompt).
Proof. unfold with_observations. repeat keeps_step. Qed.

Lemma keeps_think_start (state : StateData) (env : Env) :
  keeps same_control (think_start config state env).
Proof.
  unfold think_start.
  repeat first [apply keeps_with_observations | keeps_step].
Qed.

Lemma keeps_thinkDeep_start (state : StateData) (env : Env) :
  keeps same_control (thinkDeep_start config state env).
Proof.
  unfold thinkDeep_start.
  repeat first [apply keeps_with_observations | keeps_step].
Qed.

Lemma keeps_consume label n msgs acc env :
  keeps same_control (consume label n msgs acc env).
Proof.
  revert acc. induction msgs as [|[cost turns success text|] msgs IH]; intros acc;
    simpl; repeat first [apply IH | keeps_step].
Qed.

Lemma keeps_after_query label n t mn dn run env :
  keeps same_control (after_query config label n t mn dn run env).
Proof.
  unfold after_query.
  repeat first [apply keeps_consume | keeps_step].
Qed.

Lemma keeps_tick_catch env err : keeps same_control (tick_catch config env err).
Proof. unfold tick_catch. repeat keeps_step. Qed.

(** *** What the methods compute *)

Lemma rotateIfNeeded_returns (dir p : string) (env : Env) (d : Disk) :
  ∃ d1, rotateIfNeeded p env d = (Ok tt, d1).
Proof.
  unfold rotateIfNeeded, try_catch.
  match goal with |- context [match ?m d with _ => _ end] =>
    destruct (m d) as [[[]|e] d1] end; eauto.
Qed.

Lemma appendLog_run (dir name : string) (entry : LogEntry) (env : Env) (d : Disk) :
  ∃ pre d', appendLog dir name entry env d = (Ok tt, d')
    ∧ files d' !! logsPath dir name =
        Some (pre +:+ JSON_stringify_entry (stamped env entry) +:+ LF).
Proof.
  unfold appendLog, bind.
  destruct (rotateIfNeeded_returns dir (logsPath dir name) env d) as (d1 & ->).
  rewrite appendJsonl_run. eexists _, _. split; [done|]. simpl.
  apply lookup_insert_eq.
Qed.

Lemma tick_catch_run (env : Env) (err : Err) (w : World) :
  ∃ pre d', tick_catch config env err w = (Ok tt, set_disk d' w)
    ∧ files d' !! events_file config =
        Some (pre +:+ JSON_stringify_entry (error_event env err) +:+ LF).
Proof.
  unfold tick_catch, appendEvent, bind, log, modify. rewrite on_disk_run. simpl.
  match goal with |- context [appendLog ?a ?b ?c ?e ?d] =>
    destruct (appendLog_run a b c e d) as (pre & d' & -> & Hf) end.
  exists pre, d'. by split.
Qed.

Lemma scheduleNext_run (w : World) :
  scheduleNext w = (Ok tt, if running w then scheduled w else w).
Proof. unfold scheduleNext, bind, get. simpl. by destruct (running w). Qed.

Lemma tick_end_run (env : Env) (w : World) :
  tick_end env w =
    (Ok tt, let w1 := set_lastTickAt (now_ms env) w in
            if running w then scheduled w1 else w1).
Proof. unfold tick_end, bind, modify. by rewrite scheduleNext_run. Qed.

(** The [catch] block and the end of [tick], from the world in which the
    episode body threw. *)
Lemma caught_then_ended (env : Env) (err : Err) (w2 : World) :
  ∃ w', (tick_catch config env err ;; tick_end env) w2 = (Ok tt, w')
        ∧ failure_handled config env err w2 w'.
Proof.
  destruct (tick_catch_run env err w2) as (pre & d' & E & Hf).
  unfold bind. rewrite E, tick_end_run. eexists. split; [done|].
  unfold failure_handled. simpl.
  destruct (running w2) eqn:Hr; simpl; (split; [by exists pre|]);
    rewrite ?Hr; repeat split; done.
Qed.
End ConsciousnessFacts.

Global Instance same_wakeup_preorder : PreOrder same_wakeup.
Proof. split; [by intros w | intros w1 w2 w3; unfold same_wakeup; congruence]. Qed.

Section SchedulerFacts.
Context `{JsRuntime} `{Collaborators}.
Variable config : AppConfig.

Lemma caught_and_ended (env : Env) (err : Err) (w2 : World) :
  ∃ w3 w', tick_catch config env err w2 = (Ok tt, w3)
           ∧ tick_end env w3 = (Ok tt, w')
           ∧ failure_handled config env err w2 w'.
Proof.
  destruct (caught_then_ended config env err w2) as (w' & E & Hh).
  destruct (tick_catch_run config env err w2) as (pre & d' & Ec & _).
  unfold bind in E. rewrite Ec in E. eauto.
Qed.

Lemma save_run (st : StateData) (w : World) :
  ∃ d', on_disk (saveState (dataDir config) st) w = (Ok tt, set_disk d' w).
Proof.
  rewrite on_disk_run. unfold saveState. rewrite writeText_run. simpl. eauto.
Qed.

Lemma load_run (env : Env) (w : World) :
  ∃ st d', on_disk (loadState (dataDir config) env) w = (Ok st, set_disk d' w).
Proof.
  rewrite on_disk_run.
  destruct (loadState_returns (dataDir config) env (disk w)) as (st & d' & ->).
  simpl. eauto.
Qed.

Lemma start_run (env : Env) (w : World) :
  if running w then start config env w = (Ok tt, w)
  else ∃ d', start config env w =
               (Ok tt, scheduled (set_disk d' (set_paused false (set_running true w)))).
Proof.
  unfold start, bind, get. simpl. destruct (running w) eqn:Hr; [done|].
  unfold modify. simpl.
  match goal with |- context [on_disk (loadState _ ?e) ?x] =>
    destruct (load_run e x) as (st & d1 & ->) end.
  match goal with |- context [on_disk (saveState _ ?s) ?x] =>
    destruct (save_run s x) as (d2 & ->) end.
  unfold log, modify. rewrite scheduleNext_run. simpl. eauto.
Qed.

Lemma stop_run (env : Env) (w : World) :
  ∃ d', stop config env w = (Ok tt, set_disk d' (unscheduled (set_running false w))).
Proof.
  unfold stop, bind, get, modify, unscheduled, clearTimeout, modify. simpl.
  destruct (timer w) as [id|] eqn:Ht; simpl.
  all: match goal with |- context [on_disk (loadState _ ?e) ?x] =>
         destruct (load_run e x) as (st & d1 & ->) end.
  all: match goal with |- context [on_disk (saveState _ ?s) ?x] =>
         destruct (save_run s x) as (d2 & ->) end.
  all: unfold log, modify; simpl; eauto.
Qed.

Lemma resume_run (w : World) :
  resume w =
    (Ok tt,
     if running w then
       match timer w with
       | None => scheduled (set_paused false w)
       | Some _ => set_paused false w
       end
     else w).
Proof.
  unfold resume, bind, get, modify. simpl. destruct (running w) eqn:Hr; [|done].
  simpl. destruct (timer w); [done|]. rewrite scheduleNext_run. simpl.
  by rewrite Hr.
Qed.

Lemma set_next_wakeup_run (env : Env) (sec : Z) (w : World) :
  if seconds_schema sec then
    ∃ st d', loadState (dataDir config) env (disk w) = (Ok st, d')
      ∧ set_next_wakeup (deps config env) sec w =
          (Ok (ToolText ("Next wakeup set to " +:+ pretty sec +:+ "s.")),
           set_disk (saveState (dataDir config) (set_bgWakeupSec sec st) d').2
                    (set_wakeupSec sec w))
  else set_next_wakeup (deps config env) sec w = (Ok ToolInvalidArguments, w).
Proof.
  unfold set_next_wakeup. destruct (seconds_schema sec); [|done].
  destruct (loadState_returns (dataDir config) env (disk w)) as (st & d' & E).
  exists st, d'. split; [done|].
  unfold bind, call_opt, deps. simpl. unfold bind, modify. simpl.
  rewrite !on_disk_run. simpl. rewrite E. simpl.
  unfold saveState. rewrite on_disk_run, !writeText_run. done.
Qed.

Lemma timer_fires_paused (id : nat) (env : Env) (w : World) :
  paused w = true →
  timer_fires config id env w =
    (Ok tt,
     if existsb (λ t, (tid t =? id)%nat) (pending w)
     then set_timer None (set_pending (without id (pending w)) (next_tid w) w)
     else w).
Proof.
  intros Hp. unfold timer_fires, bind, get, modify. simpl.
  destruct (existsb _ _); [|done]. simpl.
  unfold tick, bind, get. simpl. rewrite Hp, orb_true_r, andb_false_r. done.
Qed.


Lemma tick_runs (env : Env) (w : World) (state : StateData) (d1 : Disk) :
  running w = true → paused w = false →
  loadState (dataDir config) env (disk w) = (Ok state, d1) →
  exceeds (spentUsd state) (bgBudgetLimit config) = false →
  let n := tickCount w + 1 in
  tick config env w =
    match episode_start config (if isDeep config n then Deep else Light)
                        state env (set_tickCount n (set_disk d1 w)) with
    | (Ok _, w2) => (Ok tt, w2)
    | (Throw err, w2) => (tick_catch config env err ;; tick_end env) w2
    end.
Proof.
  intros Hr Hp Hl Hb n. subst n. unfold tick, bind at 1 2 3 4, get. simpl.
  rewrite Hr, Hp. simpl. rewrite on_disk_run, Hl. simpl. rewrite Hb.
  unfold modify. simpl. unfold try_catch, bind, get. simpl.
  destruct (isDeep config (tickCount w + 1)); simpl.
  - destruct (thinkDeep_start config state env _) as [[[]|e] w2]; simpl; [done|].
    destruct (tick_catch_run config env e w2) as (pre & d' & -> & _); done.
  - destruct (think_start config state env _) as [[[]|e] w2]; simpl; [done|].
    destruct (tick_catch_run config env e w2) as (pre & d' & -> & _); done.
Qed.

Lemma with_observations_run (prompt : string) (w : World) :
  ∃ prompt', with_observations prompt w =
    (Ok prompt', match observations w with [] => w | _ => set_observations [] w end).
Proof.
  unfold with_observations, bind, get, modify. simpl.
  destruct (observations w); simpl; eauto.
Qed.

(** The start of an episode puts one episode of its kind in flight, or
    throws and puts none. *)
Lemma episode_start_inflight (mode : Mode) (state : StateData) (env : Env)
    (w : World) :
  match episode_start config mode state env w with
  | (Ok _, w2) => ∃ prompt, inflight w2 = (inflight w ++ [mkEpisode mode prompt])%list
  | (Throw _, w2) => inflight w2 = inflight w
  end.
Proof.
  destruct mode; unfold episode_start, think_start, thinkDeep_start.
  all: unfold bind at 1 2, log, modify; simpl; rewrite on_disk_run; simpl.
  - destruct (buildConsciousnessPrompt config state env _) as [[prompt|e] d2];
      simpl; [|done].
    unfold bind at 1.
    match goal with |- context [with_observations ?p ?x] =>
      destruct (with_observations_run p x) as (prompt' & ->) end.
    unfold bind at 1, get; simpl; unfold bind, appendEvent.
    rewrite on_disk_run.
    match goal with |- context [appendLog ?a ?b ?c ?e ?d] =>
      destruct (appendLog_run a b c e d) as (pre & d' & -> & _) end; simpl.
    exists prompt'; by destruct (observations w).
  - destruct (buildDeepConsciousnessPrompt config state env _) as [[prompt|e] d2];
      simpl; [|done].
    unfold bind at 1.
    match goal with |- context [with_observations ?p ?x] =>
      destruct (with_observations_run p x) as (prompt' & ->) end.
    unfold bind at 1, get; simpl; unfold bind, appendEvent.
    rewrite on_disk_run.
    match goal with |- context [appendLog ?a ?b ?c ?e ?d] =>
      destruct (appendLog_run a b c e d) as (pre & d' & -> & _) end; simpl.
    exists prompt'; by destruct (observations w).
Qed.


(** *** Nothing but the wakeup tool changes the interval *)

Lemma keeps_weaken {A} (R R' : World → World → Prop) (m : M World A) :
  (∀ w w', R w w' → R' w w') → keeps R m → keeps R' m.
Proof. intros HR Hm w. apply HR, Hm. Qed.

Lemma control_wakeup (w w' : World) : same_control w w' → same_wakeup w w'.
Proof. by intros (?&?&?&?&?). Qed.

Local Ltac wakeup_step :=
  first
    [ apply (keeps_ret same_wakeup)
    | apply (keeps_throw same_wakeup)
    | apply (keeps_get same_wakeup)
    | apply (keeps_weaken same_control same_wakeup _ control_wakeup);
      first [ apply keeps_log | apply keeps_on_disk | apply keeps_tick_catch
            | apply keeps_think_start | apply keeps_thinkDeep_start
            | apply keeps_after_query ]
    | apply (keeps_modify same_wakeup); intros ?; reflexivity
    | (intros ?; reflexivity)
    | apply (keeps_bind same_wakeup); [|intros ?]
    | apply (keeps_try_catch same_wakeup); [|intros ?]
    | match goal with
      | |- keeps _ (if ?b then _ else _) => destruct b
      end
    | case_match ].

Lemma wakeup_scheduleNext : keeps same_wakeup scheduleNext.
Proof. unfold scheduleNext, setTimeout. repeat wakeup_step. Qed.

Lemma wakeup_tick_end (env : Env) : keeps same_wakeup (tick_end env).
Proof.
  unfold tick_end. repeat first [apply wakeup_scheduleNext | wakeup_step].
Qed.

Lemma wakeup_tick (env : Env) : keeps same_wakeup (tick config env).
Proof.
  unfold tick.
  repeat first [apply wakeup_scheduleNext | apply wakeup_tick_end | wakeup_step].
Qed.

Lemma wakeup_tick_resume (i : nat) (run : QueryRun) (env : Env) :
  keeps same_wakeup (tick_resume config i run env).
Proof.
  unfold tick_resume, think_finish, thinkDeep_finish.
  repeat first [apply wakeup_scheduleNext | apply wakeup_tick_end | wakeup_step].
Qed.

Lemma wakeup_start (env : Env) : keeps same_wakeup (start config env).
Proof. unfold start. repeat first [apply wakeup_scheduleNext | wakeup_step]. Qed.

Lemma wakeup_stop (env : Env) : keeps same_wakeup (stop config env).
Proof. unfold stop, clearTimeout. repeat wakeup_step. Qed.

Lemma wakeup_step_other (env : Env) (ev : Event) :
  (∀ sec, ev ≠ ESetNextWakeup sec) → keeps same_wakeup (step config env ev).
Proof.
  intros Hev. destruct ev; cbn [step].
  - apply wakeup_start.
  - apply wakeup_stop.
  - unfold pause. repeat wakeup_step.
  - unfold resume. repeat first [apply wakeup_scheduleNext | wakeup_step].
  - unfold injectObservation. repeat wakeup_step.
  - by destruct (Hev seconds).
  - unfold toggle_consciousness, call_opt. simpl.
    repeat first [apply wakeup_start | apply wakeup_stop | wakeup_step].
  - unfold timer_fires. repeat first [apply wakeup_tick | wakeup_step].
  - apply wakeup_tick_resume.
Qed.

End SchedulerFacts.

Section SchedulerTheorems.
Context `{JsRuntime} `{Collaborators}.
Variable config : AppConfig.

Lemma tick_never_throws (env : Env) : never_throws (tick config env).
Proof.
  intros w.
  destruct (loadState_returns (dataDir config) env (disk w)) as (st & d1 & Hl).
  destruct (running w) eqn:Hr, (paused w) eqn:Hp,
           (exceeds (spentUsd st) (bgBudgetLimit config)) eqn:Hb.
  4: { rewrite (tick_runs config env w st d1 Hr Hp Hl Hb).
       destruct (episode_start _ _ _ _ _) as [[[]|e] w2]; [eauto|].
       destruct (caught_and_ended config env e w2) as (w3 & w' & E1 & E2 & _).
       unfold bind. rewrite E1, E2. eauto. }
  all: unfold tick, bind at 1, get; simpl; rewrite Hr, Hp; simpl; eauto.
  unfold bind at 1. rewrite on_disk_run, Hl. simpl. rewrite Hb.
  unfold bind, log, modify. rewrite scheduleNext_run. eauto.
Qed.

Lemma tick_resume_never_throws (i : nat) (run : QueryRun) (env : Env) :
  never_throws (tick_resume config i run env).
Proof.
  intros w. unfold tick_resume, bind at 1, get. simpl.
  destruct (inflight w !! i) as [ep|]; [|eauto].
  unfold bind at 1 2, modify, try_catch.
  destruct (ep_mode ep).
  - destruct (think_finish config run env _) as [[[]|err] w2].
    + rewrite tick_end_run. eauto.
    + destruct (caught_and_ended config env err w2) as (w3 & w' & E1 & E2 & _).
      rewrite E1, E2. eauto.
  - destruct (thinkDeep_finish config run env _) as [[[]|err] w2].
    + rewrite tick_end_run. eauto.
    + destruct (caught_and_ended config env err w2) as (w3 & w' & E1 & E2 & _).
      rewrite E1, E2. eauto.
Qed.

Lemma tick_resume_caught (env : Env) (w : World) (i : nat) (ep : Episode)
    (run : QueryRun) (err : Err) (w2 : World) :
  inflight w !! i = Some ep →
  episode_finish config (ep_mode ep) run env
                 (set_inflight (delete i (inflight w)) w) = (Throw err, w2) →
  ∃ w', tick_resume config i run env w = (Ok tt, w')
        ∧ failure_handled config env err w2 w'.
Proof.
  intros Hi Hthrow. unfold tick_resume, bind at 1, get. simpl. rewrite Hi.
  unfold bind at 1 2, modify, try_catch.
  destruct (caught_and_ended config env err w2) as (w3 & w' & E1 & E2 & Hh).
  destruct (ep_mode ep); simpl in Hthrow; rewrite Hthrow, E1, E2; eauto.
Qed.

Lemma tick_caught (env : Env) (w : World) (state : StateData) (d1 : Disk)
    (err : Err) (w2 : World) :
  running w = true → paused w = false →
  loadState (dataDir config) env (disk w) = (Ok state, d1) →
  exceeds (spentUsd state) (bgBudgetLimit config) = false →
  episode_start config (if isDeep config (tickCount w + 1) then Deep else Light)
                state env (set_tickCount (tickCount w + 1) (set_disk d1 w))
    = (Throw err, w2) →
  ∃ w', tick config env w = (Ok tt, w') ∧ failure_handled config env err w2 w'.
Proof.
  intros Hr Hp Hl Hb Hthrow. rewrite (tick_runs config env w state d1 Hr Hp Hl Hb).
  rewrite Hthrow.
  destruct (caught_and_ended config env err w2) as (w3 & w' & E1 & E2 & Hh).
  unfold bind. rewrite E1, E2. eauto.
Qed.


Lemma without_subseteq (id : nat) (ts : list Timer) : without id ts ⊆ ts.
Proof.
  intros t Ht. apply list_elem_of_In. apply list_elem_of_In in Ht.
  unfold without in Ht. by apply filter_In in Ht as [? _].
Qed.

(** C2 (amended). [pause] only sets the paused flag.  A timer that
    fires while the flag is set only leaves the pending timers and
    clears the handle: no episode runs and nothing is scheduled.  While
    the flag is set, no event schedules a timer except [resume], [start]
    (which clears the flag) and the end of an episode that was already in
    flight; [resume] on a running scheduler that holds no handle
    schedules the next timer. *)
Theorem paused_timer_is_a_noop (env : Env) :
  (∀ w : World, pause w = (Ok tt, set_paused true w))
  ∧ (∀ (w : World) (id : nat),
       paused w = true →
       timer_fires config id env w =
         (Ok tt,
          if existsb (λ t, (tid t =? id)%nat) (pending w)
          then set_timer None
                 (set_pending (without id (pending w)) (next_tid w) w)
          else w))
  ∧ (∀ (w : World) (ev : Event),
       paused w = true → may_schedule ev = false →
       paused (step config env ev w).2 = true
       ∧ no_new_timer w (step config env ev w).2)
  ∧ (∀ w : World,
       paused w = true → running w = true → timer w = None →
       resume w = (Ok tt, scheduled (set_paused false w))).
Proof.
  split; [done|]. split; [|split].
  - intros w id Hp. by apply timer_fires_paused.
  - intros w ev Hp Hev. destruct ev as [| | | |text|sec|[]|id|i run];
      try discriminate Hev; cbn [step].
    + destruct (stop_run config env w) as (d' & ->). simpl.
      unfold unscheduled, no_new_timer. simpl. destruct (timer w); simpl;
        (split; [done|]); (split; [done|]);
        [apply without_subseteq | done].
    + done.
    + done.
    + pose proof (set_next_wakeup_run config env sec w) as Hs.
      unfold bind. destruct (seconds_schema sec).
      * destruct Hs as (st & d' & _ & ->). done.
      * rewrite Hs. done.
    + unfold toggle_consciousness, call_opt, bind. simpl.
      destruct (stop_run config env w) as (d' & ->). simpl.
      unfold unscheduled, no_new_timer. simpl. destruct (timer w); simpl;
        (split; [done|]); (split; [done|]);
        [apply without_subseteq | done].
    + rewrite (timer_fires_paused config id env w Hp). simpl.
      destruct (existsb _ _); simpl; (split; [done|]); (split; [done|]);
        [apply without_subseteq | done].
  - intros w Hp Hr Ht. by rewrite resume_run, Hr, Ht.
Qed.

(** C3 (amended). [resume] does nothing when the scheduler is not
    running: the paused flag is left as it is.  When it is running,
    [resume] clears the flag and, if no timer handle is held, schedules
    exactly one timer and holds its handle; if a handle is held it
    schedules nothing.  So when the pending timers are exactly the held
    handle, they still are after [resume], and at most one is pending. *)
Theorem resume_schedules_once_when_running :
  (∀ w : World, running w = false → resume w = (Ok tt, w))
  ∧ (∀ w : World,
       running w = true → timer w = None →
       resume w = (Ok tt, scheduled (set_paused false w))
       ∧ pending (scheduled (set_paused false w)) =
           (pending w ++ [mkTimer (next_tid w) (wakeupSec w * 1000)])%list
       ∧ timer (scheduled (set_paused false w)) = Some (next_tid w))
  ∧ (∀ (w : World) (id : nat),
       running w = true → timer w = Some id →
       resume w = (Ok tt, set_paused false w))
  ∧ (∀ w : World,
       running w = true → tid <$> pending w = option_list (timer w) →
       tid <$> pending (resume w).2 = option_list (timer (resume w).2)
       ∧ (length (pending (resume w).2) ≤ 1)%nat).
Proof.
  split; [|split; [|split]].
  - intros w Hr. by rewrite resume_run, Hr.
  - intros w Hr Ht. by rewrite resume_run, Hr, Ht.
  - intros w id Hr Ht. by rewrite resume_run, Hr, Ht.
  - intros w Hr Hh. rewrite resume_run, Hr.
    destruct (timer w) as [id|] eqn:Ht; simpl in *.
    + rewrite Ht. split; [done|]. apply (f_equal length) in Hh.
      rewrite length_fmap in Hh. simpl in Hh. lia.
    + apply fmap_nil_inv in Hh. rewrite Hh. simpl. split; [done | lia].
Qed.

Lemma step_before_first_tick (env : Env) (ev : Event) (w : World) :
  is_timer_fire ev = false → lastTickAt w = 0 → inflight w = [] →
  lastTickAt (step config env ev w).2 = 0 ∧ inflight (step config env ev w).2 = [].
Proof.
  intros Hev Hl Hi. destruct ev as [| | | |text|sec|[]|id|i run];
    try discriminate Hev; cbn [step].
  - pose proof (start_run config env w) as Hs.
    destruct (running w); [by rewrite Hs | by destruct Hs as (d' & ->)].
  - destruct (stop_run config env w) as (d' & ->). unfold unscheduled. simpl.
    by destruct (timer w).
  - done.
  - rewrite resume_run. destruct (running w); [|done]. by destruct (timer w).
  - done.
  - pose proof (set_next_wakeup_run config env sec w) as Hs. unfold bind.
    destruct (seconds_schema sec); [by destruct Hs as (st & d' & _ & ->) | by rewrite Hs].
  - unfold toggle_consciousness, call_opt, bind. simpl.
    pose proof (start_run config env w) as Hs.
    destruct (running w); [by rewrite Hs | by destruct Hs as (d' & ->)].
  - unfold toggle_consciousness, call_opt, bind. simpl.
    destruct (stop_run config env w) as (d' & ->). unfold unscheduled. simpl.
    by destruct (timer w).
  - unfold tick_resume, bind, get. simpl. by rewrite Hi.
Qed.

Lemma run_before_first_tick (evs : list (Env * Event)) (w : World) :
  Forall (λ ee, is_timer_fire ee.2 = false) evs →
  lastTickAt w = 0 → inflight w = [] →
  lastTickAt (run config evs w) = 0 ∧ inflight (run config evs w) = [].
Proof.
  revert w. induction evs as [|[env ev] evs IH]; intros w Hall Hl Hi; [done|].
  apply Forall_cons_1 in Hall as [Hev Hall]. simpl.
  destruct (step_before_first_tick env ev w Hev Hl Hi) as [Hl' Hi'].
  by apply IH.
Qed.


Lemma isDeep_mode (n : Z) :
  (if isDeep config n then Deep else Light) = expected_mode config n.
Proof.
  unfold isDeep, expected_mode, DEEP_TICK_INTERVAL.
  destruct (deepMode (features config)); [simpl|done].
  destruct (Z.eqb_spec (Z.rem n 3) 0) as [E|E],
           (Z.eqb_spec (n mod 3) 0) as [E'|E']; try done.
  - destruct E'. apply Z.rem_divide in E; [|done]. by apply Z.mod_divide.
  - destruct E. apply Z.mod_divide in E'; [|done]. by apply Z.rem_divide.
Qed.

Lemma expected_mode_facts (n : Z) :
  (deepMode (features config) = true →
   (expected_mode config n = Deep ↔ n mod 3 = 0)
   ∧ expected_mode config <$> [1; 2; 3; 4; 5; 6; 7; 8; 9; 10; 11; 12] =
       [Light; Light; Deep; Light; Light; Deep;
        Light; Light; Deep; Light; Light; Deep])
  ∧ (deepMode (features config) = false → expected_mode config n = Light).
Proof.
  unfold expected_mode. split; [intros ->; simpl|by intros ->].
  split; [|done]. by destruct (Z.eqb_spec (n mod 3) 0).
Qed.

(** C5 (amended). A tick that runs (scheduler running, not paused,
    within budget) takes the tick count from [n - 1] to [n] and starts
    the episode of kind [expected_mode config n]: with deep mode enabled
    in the configuration that is a deep episode exactly when
    [n mod 3 = 0] (ticks 3, 6, 9 and 12 among 1..12), and with deep mode
    disabled it is a light episode for every [n]. *)
Theorem tick_kind_follows_tick_number
    (env : Env) (w : World) (state : StateData) (d1 : Disk) :
  running w = true → paused w = false →
  loadState (dataDir config) env (disk w) = (Ok state, d1) →
  exceeds (spentUsd state) (bgBudgetLimit config) = false →
  let n := tickCount w + 1 in
  let w' := (tick config env w).2 in
  tick config env w =
    match episode_start config (expected_mode config n) state env
                        (set_tickCount n (set_disk d1 w)) with
    | (Ok _, w2) => (Ok tt, w2)
    | (Throw err, w2) => (tick_catch config env err ;; tick_end env) w2
    end
  ∧ tickCount w' = n
  ∧ (inflight w' = inflight w
     ∨ ∃ prompt,
         inflight w' = (inflight w ++ [mkEpisode (expected_mode config n) prompt])%list)
  ∧ (deepMode (features config) = true →
     (expected_mode config n = Deep ↔ n mod 3 = 0)
     ∧ expected_mode config <$> [1; 2; 3; 4; 5; 6; 7; 8; 9; 10; 11; 12] =
         [Light; Light; Deep; Light; Light; Deep;
          Light; Light; Deep; Light; Light; Deep])
  ∧ (deepMode (features config) = false → expected_mode config n = Light).
Proof.
  intros Hr Hp Hl Hb n w'. subst w'.
  pose proof (tick_runs config env w state d1 Hr Hp Hl Hb) as Ht.
  simpl in Ht. fold n in Ht. rewrite isDeep_mode in Ht.
  split; [done|]. rewrite Ht.
  pose proof (episode_start_inflight config (expected_mode config n) state env
                (set_tickCount n (set_disk d1 w))) as Hin.
  pose proof (keeps_think_start config state env
                (set_tickCount n (set_disk d1 w))) as Hk1.
  pose proof (keeps_thinkDeep_start config state env
                (set_tickCount n (set_disk d1 w))) as Hk2.
  assert (tickCount (episode_start config (expected_mode config n) state env
                       (set_tickCount n (set_disk d1 w))).2 = n) as Hc.
  { unfold episode_start. destruct (expected_mode config n).
    - by destruct Hk1 as (_&_&_&_&->&_).
    - by destruct Hk2 as (_&_&_&_&->&_). }
  clear Hk1 Hk2.
  destruct (episode_start _ _ _ _ _) as [[[]|err] w2]; simpl in *.
  - split; [done|]. split; [right; exact Hin|]. apply expected_mode_facts.
  - destruct (caught_and_ended config env err w2) as (w3 & w4 & E1 & E2 & _).
    unfold bind. rewrite E1, E2. simpl.
    pose proof (keeps_tick_catch config env err w2) as Hk. rewrite E1 in Hk.
    simpl in Hk. destruct Hk as (_&_&_&_&Hk&_).
    rewrite tick_end_run in E2. injection E2 as <-.
    split; [|split].
    + destruct (running w3); simpl; congruence.
    + left. destruct (tick_catch_run config env err w2) as (pre & d' & E & _).
      rewrite E in E1. injection E1 as <-. simpl.
      destruct (running w2); simpl; done.
    + apply expected_mode_facts.
Qed.

Lemma seconds_schema_in_range (sec : Z) : seconds_schema sec = true ↔ in_range sec.
Proof. unfold seconds_schema, in_range. rewrite andb_true_iff, !Z.leb_le. done. Qed.

Lemma step_wakeup (env : Env) (ev : Event) (w : World) :
  wakeupSec (step config env ev w).2 = wakeupSec w
  ∨ ∃ sec, ev = ESetNextWakeup sec ∧ in_range sec
           ∧ wakeupSec (step config env ev w).2 = sec.
Proof.
  destruct ev as [| | | |text|sec|b|id|i run].
  6: { cbn [step]. unfold bind.
       pose proof (set_next_wakeup_run config env sec w) as Hs.
       destruct (seconds_schema sec) eqn:Hv.
       - right. exists sec. apply seconds_schema_in_range in Hv.
         destruct Hs as (st & d' & _ & ->). done.
       - left. by rewrite Hs. }
  all: left; by apply (wakeup_step_other config env).
Qed.

Lemma run_wakeup_in_range (evs : list (Env * Event)) (w : World) :
  in_range (wakeupSec w) → in_range (wakeupSec (run config evs w)).
Proof.
  revert w. induction evs as [|[env ev] evs IH]; intros w Hw; [done|].
  simpl. apply IH.
  destruct (step_wakeup env ev w) as [->|(sec & _ & ? & ->)]; done.
Qed.

(** C8 (amended). The [set_next_wakeup] tool accepts exactly the
    values from 30 to 7200; an accepted value becomes the in-memory
    interval and the persisted [bgWakeupSec], a rejected one changes
    nothing.  No other event changes the in-memory interval, which
    starts as the configured [defaultWakeupSec], whatever that is: if
    that is in range, the interval stays in range.  The default
    persisted value, 300, is in range, and [loadState] returns the
    stored value as it is when the file has one and 300 otherwise. *)
Theorem wakeup_interval_is_set_only_in_range (env : Env) :
  (∀ (w : World) (sec : Z),
     in_range sec →
     let w' := (set_next_wakeup (deps config env) sec w).2 in
     wakeupSec w' = sec
     ∧ ∃ st, files (disk w') !! statePath (dataDir config) =
               Some (JSON_stringify_state st)
             ∧ bgWakeupSec st = sec)
  ∧ (∀ (w : World) (sec : Z),
       ¬ in_range sec →
       set_next_wakeup (deps config env) sec w = (Ok ToolInvalidArguments, w))
  ∧ (∀ (w : World) (ev : Event),
       wakeupSec (step config env ev w).2 = wakeupSec w
       ∨ ∃ sec, ev = ESetNextWakeup sec ∧ in_range sec
                ∧ wakeupSec (step config env ev w).2 = sec)
  ∧ (∀ (d : Disk) (evs : list (Env * Event)),
       wakeupSec (new config d) = defaultWakeupSec config
       ∧ (in_range (defaultWakeupSec config) →
          in_range (wakeupSec (run config evs (new config d)))))
  ∧ in_range (bgWakeupSec (defaultState env))
  ∧ (∀ (d : Disk) (raw : string) (obj : PartialStateData),
       files d !! statePath (dataDir config) = Some raw →
       JSON_parse_state raw = Some obj →
       ∃ st, (loadState (dataDir config) env d).1 = Ok st
             ∧ bgWakeupSec st = default 300 (p_bgWakeupSec obj))
  ∧ (∀ d : Disk,
       unreadable (dataDir config) d →
       ∃ st, (loadState (dataDir config) env d).1 = Ok st ∧ bgWakeupSec st = 300).
Proof.
  split; [|split; [|split; [|split; [|split; [|split]]]]].
  - intros w sec Hin. apply seconds_schema_in_range in Hin.
    pose proof (set_next_wakeup_run config env sec w) as Hs. rewrite Hin in Hs.
    destruct Hs as (st & d' & _ & ->). simpl. split; [done|].
    exists (set_bgWakeupSec sec st). split; [|done]. apply writeText_target.
  - intros w sec Hout.
    pose proof (set_next_wakeup_run config env sec w) as Hs.
    destruct (seconds_schema sec) eqn:Hv; [|done].
    by apply seconds_schema_in_range in Hv.
  - intros w ev. apply step_wakeup.
  - intros d evs. split; [done|]. intros Hin. by apply run_wakeup_in_range.
  - unfold in_range. simpl. lia.
  - intros d raw obj Hf Hp. rewrite (loadState_parsed _ _ _ _ _ Hf Hp). simpl.
    eexists. split; [done|]. done.
  - intros d Hu. rewrite (loadState_fresh _ _ _ Hu). simpl. eauto.
Qed.
End SchedulerTheorems.

(* ===================================================================== *)
(** * Further properties of state.ts and utils.ts *)
(* ===================================================================== *)

Section StateLaws.
Context `{JsRuntime}.
Variable dataDir : string.

Lemma Qc_leb_le (a b : Qc) : Qc_leb a b = true ↔ (a <= b)%Qc.
Proof. unfold Qc_leb. apply Qle_bool_iff. Qed.

Lemma Qc_ltb_lt (a b : Qc) : Qc_ltb a b = true ↔ (a < b)%Qc.
Proof.
  unfold Qc_ltb. rewrite negb_true_iff, <- not_true_iff_false, Qle_bool_iff.
  split; [apply Qcnot_le_lt | apply Qclt_not_le].
Qed.


(** X2. With a serialisation that [JSON.parse] reads back, [loadState]
    after [saveState] returns the state that was saved and changes no
    file.  And when the state file is missing or unreadable, the defaults
    that [loadState] makes up are written down: the next [loadState]
    returns the same state (the same [createdAt] and [sessionId]), whatever
    the clock and the random source give by then. *)
Theorem loadState_reads_back_what_was_saved
    (env1 env2 : Env) (st : StateData) (d : Disk) :
  json_roundtrip →
  (let d1 := (saveState dataDir st d).2 in
   (loadState dataDir env2 d1).1 = Ok st
   ∧ files (loadState dataDir env2 d1).2 = files d1)
  ∧ (unreadable dataDir d →
     let r1 := loadState dataDir env1 d in
     r1.1 = Ok (defaultState env1)
     ∧ (loadState dataDir env2 r1.2).1 = Ok (defaultState env1)
     ∧ files (loadState dataDir env2 r1.2).2 = files r1.2).
Proof.
  intros Hrt. split.
  - simpl. by rewrite (saveState_then_load dataDir env2 st d Hrt).
  - intros Hu. simpl. rewrite (loadState_fresh dataDir env1 d Hu). simpl.
    by rewrite (saveState_then_load dataDir env2 _ _ Hrt).
Qed.

Lemma updateBudget_result (env : Env) (d : Disk) (cost : Qc) (turns pt ct : Z) :
  ∃ st d', loadState dataDir env d = (Ok st, d')
    ∧ (files d' = files d
       ∨ files d' = files (saveState dataDir st d).2 ∧ unreadable dataDir d)
    ∧ updateBudget dataDir cost turns pt ct env d =
        (Ok (set_spent (spentUsd st + cost)%Qc (spentCalls st + turns)
                       (spentTokensPrompt st + pt)
                       (spentTokensCompletion st + ct) st),
         (saveState dataDir
            (set_spent (spentUsd st + cost)%Qc (spentCalls st + turns)
                       (spentTokensPrompt st + pt)
                       (spentTokensCompletion st + ct) st) d').2).
Proof.
  destruct (readable_or_not dataDir d) as [(raw & obj & Hf & Hp) | Hu].
  - eexists _, _. split; [exact (loadState_parsed dataDir _ _ _ _ Hf Hp)|].
    split; [by left|].
    unfold updateBudget, bind. rewrite (loadState_parsed dataDir _ _ _ _ Hf Hp).
    unfold saveState. rewrite writeText_run. done.
  - eexists _, _. split; [exact (loadState_fresh dataDir _ _ Hu)|].
    split; [right; split; [|done]; by unfold saveState; rewrite !writeText_run|].
    unfold updateBudget, bind. rewrite (loadState_fresh dataDir _ _ Hu).
    unfold saveState at 1 3. rewrite !writeText_run. done.
Qed.


Lemma loadState_counters (env env' : Env) (d : Disk) :
  ∃ st st' d1 d1', loadState dataDir env d = (Ok st, d1)
    ∧ loadState dataDir env' d = (Ok st', d1')
    ∧ spentUsd st = spentUsd st' ∧ spentCalls st = spentCalls st'
    ∧ spentTokensPrompt st = spentTokensPrompt st'
    ∧ spentTokensCompletion st = spentTokensCompletion st'.
Proof.
  destruct (readable_or_not dataDir d) as [(raw & obj & Hf & Hp) | Hu].
  - rewrite !(loadState_parsed dataDir _ _ _ _ Hf Hp). eexists _, _, _, _.
    repeat split.
  - rewrite !(loadState_fresh dataDir _ _ Hu). eexists _, _, _, _. repeat split.
Qed.


End StateLaws.

Section UtilsLaws.
Context `{JsRuntime}.


(** X6. After entries have been appended one call after the other,
    the file holds its old text (nothing, if it was missing) followed by
    one line per entry, in the order of the calls; no other file is
    changed. *)
Theorem appendJsonl_keeps_the_log_in_order (p : string) (es : list LogEntry) (d : Disk) :
  es ≠ [] →
  files (appended p es d) !! p =
    Some (default "" (files d !! p) +:+ entry_lines es)
  ∧ (∀ q, q ≠ p → files (appended p es d) !! q = files d !! q).
Proof.
  intros Hne.
  assert (∀ es d, files (appended p es d) !! p
            = match es with [] => files d !! p
              | _ => Some (default "" (files d !! p) +:+ entry_lines es) end
          ∧ (∀ q, q ≠ p → files (appended p es d) !! q = files d !! q)) as Hgen.
  { clear. induction es as [|e es IH]; intros d; [done|].
    change (appended p (e :: es) d) with (appended p es (appendJsonl p e d).2).
    destruct (IH (appendJsonl p e d).2) as [IH1 IH2].
    assert (files (appendJsonl p e d).2 =
              <[p := default "" (files d !! p) +:+ JSON_stringify_entry e +:+ LF]>
                (files d)) as Hd by (by rewrite appendJsonl_run).
    rewrite Hd in IH1, IH2. split.
    - rewrite IH1. rewrite lookup_insert_eq. destruct es; [done|].
      simpl. f_equal. by rewrite !str_app_assoc.
    - intros q Hq. rewrite IH2 by done. by rewrite lookup_insert_ne. }
  destruct (Hgen es d) as [H1 H2]. split; [|done]. rewrite H1. by destruct es.
Qed.

End UtilsLaws.

Section ClipLaws.

Lemma slice_0_nonneg {A} (l : list A) (k : Z) :
  0 ≤ k → slice l 0 k = take (Z.to_nat k) l.
Proof.
  intros Hk. unfold slice. cbv zeta. change (0 <? 0) with false. cbv iota.
  destruct (Z.ltb_spec k 0) as [?|_]; [lia|].
  rewrite (Z.min_l 0) by lia. rewrite Z.sub_0_r. simpl. rewrite drop_0.
  destruct (Z.le_gt_cases k (Z.of_nat (length l))).
  - by rewrite Z.min_l by lia.
  - rewrite Z.min_r by lia. rewrite Nat2Z.id. rewrite !take_ge by lia. done.
Qed.

Lemma slice_0_neg {A} (l : list A) (k : Z) :
  k < 0 → slice l 0 k = take (length l - Z.to_nat (- k)) l.
Proof.
  intros Hk. unfold slice. cbv zeta. change (0 <? 0) with false. cbv iota.
  destruct (Z.ltb_spec k 0) as [_|?]; [|lia].
  rewrite (Z.min_l 0) by lia. rewrite Z.sub_0_r. simpl. rewrite drop_0.
  f_equal. lia.
Qed.

(** X7. [clipText] returns a text of at most [maxLen] code units as it
    is.  A longer text is cut to its first [maxLen - 1] units and an
    ellipsis, [maxLen] units in all; so for [maxLen] of 1 or more the
    result never has more than [maxLen] units.  For [maxLen] of 0 or less
    the slice counts from the end of the text, and the result of a text
    that is not empty is longer than [maxLen]. *)
Theorem clipText_length (text : units) (maxLen : Z) :
  (Z.of_nat (length text) ≤ maxLen → clipText text maxLen = text)
  ∧ (1 ≤ maxLen < Z.of_nat (length text) →
     clipText text maxLen = (take (Z.to_nat (maxLen - 1)) text ++ [ELLIPSIS])%list
     ∧ Z.of_nat (length (clipText text maxLen)) = maxLen)
  ∧ (1 ≤ maxLen → Z.of_nat (length (clipText text maxLen)) ≤ maxLen)
  ∧ (maxLen ≤ 0 → text ≠ [] →
     clipText text maxLen =
       (take (length text - Z.to_nat (1 - maxLen)) text ++ [ELLIPSIS])%list
     ∧ maxLen < Z.of_nat (length (clipText text maxLen))).
Proof.
  assert (1 ≤ maxLen < Z.of_nat (length text) →
     clipText text maxLen = (take (Z.to_nat (maxLen - 1)) text ++ [ELLIPSIS])%list
     ∧ Z.of_nat (length (clipText text maxLen)) = maxLen) as Hlong.
  { intros [H1 H2]. unfold clipText.
    destruct (Z.leb_spec (Z.of_nat (length text)) maxLen) as [?|_]; [lia|].
    rewrite slice_0_nonneg by lia. split; [done|].
    rewrite length_app, length_take. simpl. lia. }
  split; [|split; [done|split]].
  - intros Hfit. unfold clipText.
    destruct (Z.leb_spec (Z.of_nat (length text)) maxLen) as [_|?]; [done|lia].
  - intros H1. destruct (Z.le_gt_cases (Z.of_nat (length text)) maxLen) as [Hfit|Hlong'].
    + unfold clipText.
      destruct (Z.leb_spec (Z.of_nat (length text)) maxLen) as [_|?]; [done|lia].
    + destruct Hlong as [_ ->]; lia.
  - intros H0 Hne. unfold clipText.
    assert (0 < length text)%nat by (destruct text; [done | simpl; lia]).
    destruct (Z.leb_spec (Z.of_nat (length text)) maxLen) as [?|_]; [lia|].
    rewrite slice_0_neg by lia.
    replace (- (maxLen - 1)) with (1 - maxLen) by lia. split; [done|].
    rewrite length_app. simpl. lia.
Qed.

End ClipLaws.

(* ===================================================================== *)
(** * Further properties of memory.ts *)
(* ===================================================================== *)

Section TextFacts.

Lemma str_app_cons (c : ascii) (a b : string) :
  String c a +:+ b = String c (a +:+ b).
Proof. reflexivity. Qed.

Lemma str_app_nil_l (b : string) : "" +:+ b = b.
Proof. reflexivity. Qed.

Lemma str_app_nil_r (a : string) : a +:+ "" = a.
Proof. induction a as [|c a IH]; [done|]. by rewrite str_app_cons, IH. Qed.

Lemma str_app_inj_l (a b c : string) : a +:+ b = a +:+ c → b = c.
Proof.
  induction a as [|x a IH]; [done|]. rewrite !str_app_cons. intros [= E]. auto.
Qed.

Lemma str_app_inj_r (a b c : string) : a +:+ c = b +:+ c → a = b.
Proof.
  revert b. induction a as [|x a IH]; intros [|y b] E.
  - done.
  - apply (f_equal String.length) in E. rewrite !str_length_app in E.
    simpl in E. lia.
  - apply (f_equal String.length) in E. rewrite !str_length_app in E.
    simpl in E. lia.
  - rewrite !str_app_cons in E. injection E as -> E. f_equal. auto.
Qed.

Lemma prefix_app (a b : string) : String.prefix a (a +:+ b) = true.
Proof.
  induction a as [|x a IH]; [by destruct b|].
  rewrite str_app_cons. simpl. by destruct (ascii_dec x x).
Qed.

Lemma prefix_app_same (a b c : string) :
  String.prefix (a +:+ b) (a +:+ c) = String.prefix b c.
Proof.
  induction a as [|x a IH]; [done|].
  rewrite !str_app_cons. simpl. by destruct (ascii_dec x x).
Qed.

Lemma prefix_split (p s : string) :
  String.prefix p s = true → ∃ r, s = p +:+ r.
Proof.
  revert s. induction p as [|x p IH]; intros s Hp; [by exists s|].
  destruct s as [|y s]; [done|]. simpl in Hp.
  destruct (ascii_dec x y) as [->|]; [|done].
  destruct (IH s Hp) as [r ->]. by exists r.
Qed.

Lemma rev_app_acc (s acc : string) :
  String.rev_app s acc = String.rev_app s "" +:+ acc.
Proof.
  revert acc. induction s as [|c s IH]; intros acc; [done|].
  simpl. rewrite (IH (String c acc)), (IH (String c "")).
  by rewrite str_app_assoc.
Qed.

Lemma rev_cons (c : ascii) (s : string) :
  String.rev (String c s) = String.rev s +:+ String c "".
Proof. unfold String.rev. simpl. apply rev_app_acc. Qed.

Lemma rev_app (a b : string) :
  String.rev (a +:+ b) = String.rev b +:+ String.rev a.
Proof.
  induction a as [|c a IH].
  - by rewrite str_app_nil_l, str_app_nil_r.
  - rewrite str_app_cons, !rev_cons, IH. by rewrite str_app_assoc.
Qed.

Lemma rev_involutive (s : string) : String.rev (String.rev s) = s.
Proof.
  induction s as [|c s IH]; [done|].
  rewrite rev_cons, rev_app, IH. done.
Qed.

(** [s.endsWith(suf)] holds exactly when [s] is some text followed by
    [suf]. *)
Lemma endsWith_spec (suf s : string) :
  endsWith suf s = true ↔ ∃ x, s = x +:+ suf.
Proof.
  unfold endsWith. split.
  - intros Hp. apply prefix_split in Hp as [r Hr].
    exists (String.rev r).
    rewrite <- (rev_involutive s), Hr, rev_app. by rewrite rev_involutive.
  - intros [x ->]. rewrite rev_app. apply prefix_app.
Qed.

Lemma alnum_not_ws (c : ascii) : is_alnum c = true → is_ws c = false.
Proof. destruct c as [[] [] [] [] [] [] [] []]; vm_compute; congruence. Qed.

Lemma alnum_topic_char (c : ascii) : is_alnum c = true → is_topic_char c = true.
Proof. unfold is_topic_char. by intros ->. Qed.

Lemma trimStart_head (c : ascii) (s : string) :
  is_ws c = false → trimStart (String c s) = String c s.
Proof. intros Hc. simpl. by rewrite Hc. Qed.

Lemma trimStart_app (pre : string) (c : ascii) (s : string) :
  is_ws c = false →
  trimStart (pre +:+ String c s) = trimStart pre +:+ String c s.
Proof.
  intros Hc. induction pre as [|x pre IH].
  - rewrite !str_app_nil_l. by apply trimStart_head.
  - rewrite str_app_cons. simpl. destruct (is_ws x); [done|].
    by rewrite str_app_cons.
Qed.

Lemma trimEnd_app (a b : string) :
  trimEnd (a +:+ b) =
    if String.eqb (trimEnd b) "" then trimEnd a else a +:+ trimEnd b.
Proof.
  induction a as [|x a IH].
  - rewrite !str_app_nil_l. simpl. by destruct (String.eqb_spec (trimEnd b) "").
  - rewrite str_app_cons. cbn [trimEnd]. rewrite IH.
    destruct (String.eqb_spec (trimEnd b) "") as [E|E].
    + done.
    + rewrite str_app_cons. destruct (a +:+ trimEnd b) eqn:Ea; [|done].
      destruct a; [|done]. rewrite str_app_nil_l in Ea. done.
Qed.

Lemma trimStart_length (s : string) :
  (String.length (trimStart s) ≤ String.length s)%nat.
Proof.
  induction s as [|c s IH]; [done|]. simpl. destruct (is_ws c); simpl; lia.
Qed.

Lemma trimEnd_length (s : string) :
  (String.length (trimEnd s) ≤ String.length s)%nat.
Proof.
  induction s as [|c s IH]; [done|]. simpl.
  destruct (trimEnd s) eqn:E; [destruct (is_ws c)|]; simpl in *; lia.
Qed.

Lemma trimStart_fixed (s : string) :
  trimStart s = s → s ≠ "" → ∃ c s', s = String c s' ∧ is_ws c = false.
Proof.
  destruct s as [|c s']; [done|]. intros E _. exists c, s'. split; [done|].
  simpl in E. destruct (is_ws c); [|done].
  pose proof (trimStart_length s') as Hl. rewrite E in Hl. simpl in Hl. lia.
Qed.

(** Lines. *)
Lemma split_lines_ne (s : string) : split_lines s ≠ [].
Proof.
  induction s as [|c s IH]; [done|]. simpl.
  destruct (Ascii.eqb c _); [done|]. by destruct (split_lines s).
Qed.

Lemma split_lines_one (s : string) :
  includes LF s = false → split_lines s = [s].
Proof.
  induction s as [|c s IH]; [done|]. intros Hs.
  cbn [includes String.prefix] in Hs. unfold LF in Hs at 1. cbn [String.prefix] in Hs.
  destruct (ascii_dec (ascii_of_nat 10) c) as [<-|Hc].
  { by rewrite prefix_empty in Hs. }
  simpl in Hs. cbn [split_lines].
  destruct (Ascii.eqb_spec c (ascii_of_nat 10)) as [->|_]; [done|].
  fold LF in Hs. by rewrite (IH Hs).
Qed.

Lemma split_lines_app (a b : string) :
  split_lines (a +:+ LF +:+ b) = (split_lines a ++ split_lines b)%list.
Proof.
  induction a as [|c a IH].
  - rewrite str_app_nil_l. unfold LF. rewrite str_app_cons, str_app_nil_l.
    cbn [split_lines]. by rewrite Ascii.eqb_refl.
  - rewrite str_app_cons. cbn [split_lines]. rewrite IH.
    destruct (Ascii.eqb c (ascii_of_nat 10)); [done|].
    pose proof (split_lines_ne a). by destruct (split_lines a).
Qed.

End TextFacts.

Section TopicLaws.

Lemma trimEnd_cons_fixed (c : ascii) (s : string) :
  s ≠ "" → trimEnd s = s → trimEnd (String c s) = String c s.
Proof.
  intros Hne Ht. destruct s as [|a s]; [done|].
  remember (String a s) as x eqn:Ex. simpl. rewrite Ht. by subst x.
Qed.

Lemma all_chars_cons (f : ascii → bool) (c : ascii) (s : string) :
  all_chars f (String c s) = f c && all_chars f s.
Proof. reflexivity. Qed.

Lemma valid_rest_facts (s : string) :
  valid_rest s = true →
  s ≠ "" ∧ trimEnd s = s ∧ all_chars is_topic_char s = true
  ∧ ∃ z, String.get (String.length s - 1) s = Some z ∧ is_alnum z = true.
Proof.
  induction s as [|c s IH]; [done|]. cbn [valid_rest].
  destruct s as [|c' s'].
  - intros Hc. split; [done|]. split; [|split].
    + simpl. by rewrite (alnum_not_ws c Hc).
    + simpl. by rewrite (alnum_topic_char c Hc).
    + exists c. done.
  - intros [Hc Hr]%andb_true_iff. destruct (IH Hr) as (Hne & Ht & Ha & z & Hz & Hzl).
    split; [done|]. split; [|split].
    + by apply trimEnd_cons_fixed.
    + by rewrite all_chars_cons, Hc, Ha.
    + exists z. split; [|done].
      replace (String.length (String c (String c' s')) - 1)%nat
        with (S (String.length (String c' s') - 1)) by (simpl; lia).
      done.
Qed.

Lemma valid_topic_facts (t : string) :
  VALID_TOPIC_test t = true →
  (∃ a rest, t = String a rest ∧ is_alnum a = true)
  ∧ trimStart t = t ∧ trimEnd t = t
  ∧ (1 ≤ String.length t ≤ 100)%nat
  ∧ all_chars is_topic_char t = true
  ∧ ∃ z, String.get (String.length t - 1) t = Some z ∧ is_alnum z = true.
Proof.
  destruct t as [|c s]; [done|]. cbn [VALID_TOPIC_test].
  destruct s as [|c' s'].
  - intros Hc. split; [eauto|]. split; [|split; [|split; [|split]]].
    + by apply trimStart_head, alnum_not_ws.
    + simpl. by rewrite (alnum_not_ws c Hc).
    + simpl. lia.
    + simpl. by rewrite (alnum_topic_char c Hc).
    + exists c. done.
  - intros [[Hc Hr]%andb_true_iff Hl]%andb_true_iff.
    apply Nat.leb_le in Hl.
    destruct (valid_rest_facts _ Hr) as (Hne & Ht & Ha & z & Hz & Hzl).
    split; [eauto|]. split; [|split; [|split; [|split]]].
    + by apply trimStart_head, alnum_not_ws.
    + by apply trimEnd_cons_fixed.
    + simpl in *. lia.
    + by rewrite all_chars_cons, (alnum_topic_char c Hc), Ha.
    + exists z. split; [|done].
      replace (String.length (String c (String c' s')) - 1)%nat
        with (S (String.length (String c' s') - 1)) by (simpl; lia).
      done.
Qed.

(** X8. A topic that [sanitizeTopic] accepts is returned trimmed.  It
    has 1 to 100 characters, each a letter, a digit, an underscore, a
    hyphen or a dot; it begins and ends with a letter or a digit; it holds
    no [..]; in lower case it is none of the reserved names; and
    [sanitizeTopic] accepts it again as it is. *)
Theorem sanitizeTopic_accepts_plain_names (topic t : string) :
  sanitizeTopic topic = Ok t →
  t = trim topic
  ∧ (1 ≤ String.length t ≤ 100)%nat
  ∧ all_chars is_topic_char t = true
  ∧ (∃ a z, String.get 0 t = Some a ∧ String.get (String.length t - 1) t = Some z
            ∧ is_alnum a = true ∧ is_alnum z = true)
  ∧ includes ".." t = false
  ∧ is_reserved (toLowerCase t) = false
  ∧ sanitizeTopic t = Ok t.
Proof.
  intros Hok. pose proof Hok as Hok'.
  apply sanitizeTopic_ok in Hok as (Ht & Hne & Hs & Hb & Hd & Hv & Hr).
  destruct (valid_topic_facts t Hv)
    as ((a & rest & Ea & Ha) & Hts & Hte & Hl & Hc & z & Hz & Hzl).
  split; [done|]. split; [done|]. split; [done|]. split.
  { exists a, z. rewrite Ea at 1. done. }
  split; [done|]. split; [done|].
  assert (trim t = t) as Htt by (unfold trim; by rewrite Hts, Hte).
  unfold sanitizeTopic. rewrite Htt.
  destruct (String.eqb_spec t "") as [|_]; [done|].
  by rewrite Hs, Hb, Hd, Hv, Hr.
Qed.

End TopicLaws.

Section KnowledgeLaws.
Context `{JsRuntime} `{IndexText}.
Variable dataDir : string.

Lemma path_join_inj (dir a b : string) : path_join dir a = path_join dir b → a = b.
Proof. unfold path_join. intros E. by apply str_app_inj_l, str_app_inj_l in E. Qed.

Lemma pretty_N_go_suffix (x : N) (s : string) : ∃ pre, pretty_N_go x s = pre +:+ s.
Proof.
  revert s. induction (N.lt_wf_0 x) as [x _ IH]; intros s.
  assert (x = 0 ∨ 0 < x)%N as [->|Hx] by lia.
  - exists "". by rewrite pretty_N_go_0.
  - rewrite pretty_N_go_step by done.
    destruct (IH (x `div` 10)%N (N.div_lt x 10 Hx eq_refl)
                 (String (pretty_N_char (x `mod` 10)) s)) as [pre ->].
    exists (pre +:+ String (pretty_N_char (x `mod` 10)) "").
    by rewrite str_app_assoc.
Qed.

(** The text of a process id ends with a decimal digit. *)
Lemma pretty_N_last (x : N) :
  ∃ pre c, pretty x = pre +:+ String c "" ∧ between 48 57 c = true.
Proof.
  unfold pretty, pretty_N. case_decide as Hx.
  - exists "", "0"%char. done.
  - assert (0 < x)%N as Hpos by lia.
    rewrite pretty_N_go_step by done.
    destruct (pretty_N_go_suffix (x `div` 10)%N
                (String (pretty_N_char (x `mod` 10)) "")) as [pre ->].
    exists pre, (pretty_N_char (x `mod` 10)). split; [done|].
    unfold pretty_N_char. by repeat case_match.
Qed.

Lemma md_ne_tmp (a b : string) :
  a +:+ ".md" ≠ b +:+ ".tmp." +:+ pretty pid.
Proof.
  destruct (pretty_N_last pid) as (pre & c & -> & Hc). intros E.
  apply (f_equal String.rev) in E.
  rewrite <- !str_app_assoc in E. rewrite !rev_app in E.
  change (String.rev ".md") with "dm." in E.
  change (String.rev (String c "")) with (String c "") in E.
  rewrite !str_app_cons in E. injection E as <- _. done.
Qed.

Lemma topic_ne_index (t s : string) :
  VALID_TOPIC_test t = true →
  topicFile dataDir t ≠ path_join (knowledgeDir dataDir) (INDEX_FILE +:+ s).
Proof.
  intros Hv E. apply path_join_inj in E.
  destruct (valid_topic_facts t Hv) as ((a & rest & -> & Ha) & _).
  unfold INDEX_FILE in E. rewrite !str_app_cons in E. injection E as -> _. done.
Qed.

Lemma topic_index_paths (t : string) :
  VALID_TOPIC_test t = true →
  topicFile dataDir t ≠ indexPath dataDir
  ∧ topicFile dataDir t ≠ tmp_of (indexPath dataDir).
Proof.
  intros Hv. split.
  - unfold indexPath. rewrite <- (str_app_nil_r INDEX_FILE). by apply topic_ne_index.
  - unfold indexPath. rewrite tmp_of_join. by apply topic_ne_index.
Qed.

Lemma topic_paths (t t' : string) :
  t' ≠ t →
  topicFile dataDir t' ≠ topicFile dataDir t
  ∧ topicFile dataDir t' ≠ tmp_of (topicFile dataDir t).
Proof.
  intros Hne. split.
  - intros E. apply path_join_inj, str_app_inj_r in E. done.
  - unfold topicFile at 2. rewrite tmp_of_join. intros E.
    apply path_join_inj in E. exact (md_ne_tmp _ _ E).
Qed.

Lemma updateIndexEntry_run (t : string) (d : Disk) :
  ∃ text d', updateIndexEntry dataDir t d = (Ok tt, d')
    ∧ files d' = <[indexPath dataDir := text]>
                   (delete (tmp_of (indexPath dataDir))
                      (<[tmp_of (indexPath dataDir) := text]> (files d))).
Proof.
  unfold updateIndexEntry, bind, ensureDir, mkdirSync, existsSync, readText,
    readFileSync, try_catch, ret. simpl.
  fold (indexPath dataDir).
  destruct (files d !! indexPath dataDir) as [idx|] eqn:Hi; simpl;
    rewrite ?Hi; simpl;
    destruct (files d !! path_join (knowledgeDir dataDir) (t +:+ ".md")) as [tx|] eqn:Ht;
    simpl; rewrite ?Ht; simpl; rewrite writeText_run; simpl; eauto.
Qed.

Lemma updateIndexEntry_other (t q : string) (d : Disk) :
  q ≠ indexPath dataDir → q ≠ tmp_of (indexPath dataDir) →
  files (updateIndexEntry dataDir t d).2 !! q = files d !! q.
Proof.
  intros H1 H2. destruct (updateIndexEntry_run t d) as (text & d' & E & Hf).
  rewrite E. simpl. rewrite Hf.
  rewrite lookup_insert_ne by done. rewrite lookup_delete_ne by done.
  by rewrite lookup_insert_ne.
Qed.

Lemma knowledgeWrite_run (topic t content : string) (mode : WriteMode) (d : Disk) :
  sanitizeTopic topic = Ok t →
  ∃ d1, files d1 = files d
    ∧ knowledgeWrite dataDir topic content mode d =
        (Ok ("Knowledge '" +:+ t +:+ "' saved (" +:+ mode_name mode +:+ ")."),
         (updateIndexEntry dataDir t
            (writeText (topicFile dataDir t)
               (match mode with
                | overwrite => content
                | append => appended_text (files d !! topicFile dataDir t) content
                end) d1).2).2).
Proof.
  intros Hok. unfold knowledgeWrite. rewrite Hok.
  assert (∀ (new : string) (d1 : Disk) (msg : string),
    (writeText (topicFile dataDir t) new ;; updateIndexEntry dataDir t ;; ret msg) d1
    = (Ok msg, (updateIndexEntry dataDir t
                  (writeText (topicFile dataDir t) new d1).2).2)) as Hrest.
  { intros new d1 msg. unfold bind. rewrite writeText_run. simpl.
    match goal with |- context [updateIndexEntry dataDir t ?d0] =>
      destruct (updateIndexEntry_run t d0) as (text & d' & E & _); rewrite E end.
    done. }
  destruct mode.
  - exists (record (Mkdir (knowledgeDir dataDir)) d). split; [done|].
    rewrite <- Hrest. unfold bind, ensureDir, mkdirSync. simpl.
    by destruct (writeText _ _ _) as [[] ?].
  - unfold appended_text.
    destruct (files d !! topicFile dataDir t) as [existing|] eqn:Hf.
    + exists (record (ReadFile (topicFile dataDir t))
                (record (Exists (topicFile dataDir t))
                   (record (Mkdir (knowledgeDir dataDir)) d))).
      split; [done|]. rewrite <- Hrest.
      unfold bind, ensureDir, mkdirSync, existsSync, readText, readFileSync. simpl.
      rewrite Hf. simpl. rewrite Hf. simpl.
      destruct ((0 <? String.length existing)%nat && negb (endsWith LF existing));
        simpl; by destruct (writeText _ _ _) as [[] ?].
    + exists (record (Exists (topicFile dataDir t))
                (record (Mkdir (knowledgeDir dataDir)) d)).
      split; [done|]. rewrite <- Hrest.
      unfold bind, ensureDir, mkdirSync, existsSync, readText, readFileSync. simpl.
      rewrite Hf. simpl.
      by destruct (writeText _ _ _) as [[] ?].
Qed.

Lemma knowledgeWrite_topic_file (topic t content : string) (mode : WriteMode)
    (d : Disk) :
  sanitizeTopic topic = Ok t →
  files (knowledgeWrite dataDir topic content mode d).2 !! topicFile dataDir t =
    Some (match mode with
          | overwrite => content
          | append => appended_text (files d !! topicFile dataDir t) content
          end).
Proof.
  intros Hok. destruct (knowledgeWrite_run topic t content mode d Hok) as (d1 & Hd & ->).
  pose proof Hok as Hok'. apply sanitizeTopic_ok in Hok' as (_&_&_&_&_&Hv&_).
  destruct (topic_index_paths t Hv) as [P1 P2]. simpl.
  rewrite updateIndexEntry_other by done. apply writeText_target.
Qed.

Lemma knowledgeRead_run (topic t : string) (d : Disk) :
  sanitizeTopic topic = Ok t →
  ∃ d', files d' = files d
    ∧ knowledgeRead dataDir topic d =
        (Ok (match files d !! topicFile dataDir t with
             | Some text => text
             | None => "Topic '" +:+ t +:+
                       "' not found. Use knowledge_list to see available topics."
             end), d').
Proof.
  intros Hok. unfold knowledgeRead. rewrite Hok.
  unfold bind, existsSync, readText, readFileSync. simpl.
  destruct (files d !! topicFile dataDir t) as [text|] eqn:Hf; simpl.
  - rewrite Hf. eexists. split; [|reflexivity]. done.
  - eexists. split; [|reflexivity]. done.
Qed.

(** X9. What [knowledgeWrite] writes over a topic, [knowledgeRead]
    returns, also under another spelling of the topic that is sanitized to
    the same name. *)
Theorem knowledgeWrite_then_knowledgeRead
    (topic topic' t content : string) (d : Disk) :
  sanitizeTopic topic = Ok t → sanitizeTopic topic' = Ok t →
  let r := knowledgeWrite dataDir topic content overwrite d in
  r.1 = Ok ("Knowledge '" +:+ t +:+ "' saved (overwrite).")
  ∧ (knowledgeRead dataDir topic' r.2).1 = Ok content.
Proof.
  intros Hok Hok' r. subst r. split.
  - by destruct (knowledgeWrite_run topic t content overwrite d Hok) as (d1 & _ & ->).
  - destruct (knowledgeRead_run topic' t
                (knowledgeWrite dataDir topic content overwrite d).2 Hok')
      as (d' & _ & ->).
    simpl. by rewrite (knowledgeWrite_topic_file topic t content overwrite d Hok).
Qed.



(** X12. [knowledgeWrite] to one topic leaves the file of every other
    topic as it is, the refresh of the index included. *)
Theorem knowledgeWrite_leaves_other_topics
    (topic t topic' t' content : string) (mode : WriteMode) (d : Disk) :
  sanitizeTopic topic = Ok t → sanitizeTopic topic' = Ok t' → t' ≠ t →
  files (knowledgeWrite dataDir topic content mode d).2 !! topicFile dataDir t'
  = files d !! topicFile dataDir t'.
Proof.
  intros Hok Hok' Hne.
  destruct (knowledgeWrite_run topic t content mode d Hok) as (d1 & Hd & ->). simpl.
  apply sanitizeTopic_ok in Hok' as (_&_&_&_&_&Hv&_).
  destruct (topic_index_paths t' Hv) as [P1 P2].
  destruct (topic_paths t t' Hne) as [P3 P4].
  rewrite updateIndexEntry_other by done.
  rewrite writeText_other by done. by rewrite Hd.
Qed.

End KnowledgeLaws.

Section ScratchpadLaws.
Context `{JsRuntime}.
Variable dataDir : string.

Lemma loadScratchpad_run (env : Env) (d : Disk) :
  loadScratchpad dataDir env d =
    match files d !! scratchpadPath dataDir with
    | Some c =>
        (Ok c, record (ReadFile (scratchpadPath dataDir))
                 (record (Exists (scratchpadPath dataDir)) d))
    | None =>
        (Ok (defaultScratchpad env),
         (writeText (scratchpadPath dataDir) (defaultScratchpad env)
                    (record (Exists (scratchpadPath dataDir)) d)).2)
    end.
Proof.
  unfold loadScratchpad, bind, existsSync, readText, readFileSync. simpl.
  fold (scratchpadPath dataDir).
  destruct (files d !! scratchpadPath dataDir) as [c|] eqn:Hf; simpl.
  - by rewrite Hf.
  - by rewrite writeText_run.
Qed.

Lemma loadIdentity_run (agentName : string) (d : Disk) :
  loadIdentity dataDir agentName d =
    match files d !! identityPath dataDir with
    | Some c =>
        (Ok c, record (ReadFile (identityPath dataDir))
                 (record (Exists (identityPath dataDir)) d))
    | None =>
        (Ok (defaultIdentity agentName),
         (writeText (identityPath dataDir) (defaultIdentity agentName)
                    (record (Exists (identityPath dataDir)) d)).2)
    end.
Proof.
  unfold loadIdentity, bind, existsSync, readText, readFileSync. simpl.
  fold (identityPath dataDir).
  destruct (files d !! identityPath dataDir) as [c|] eqn:Hf; simpl.
  - by rewrite Hf.
  - by rewrite writeText_run.
Qed.

(** X13. [loadScratchpad] returns what [saveScratchpad] stored.  It
    returns the file when there is one and then changes no file; when
    there is none it returns the default text and writes it down, so that
    a second call returns what the first returned. *)
Theorem loadScratchpad_returns_what_is_stored (env env' : Env) (d : Disk) :
  (∀ content,
     (loadScratchpad dataDir env (saveScratchpad dataDir content d).2).1 = Ok content)
  ∧ (∀ c, files d !! scratchpadPath dataDir = Some c →
          (loadScratchpad dataDir env d).1 = Ok c
          ∧ files (loadScratchpad dataDir env d).2 = files d)
  ∧ (files d !! scratchpadPath dataDir = None →
     (loadScratchpad dataDir env d).1 = Ok (defaultScratchpad env)
     ∧ files (loadScratchpad dataDir env d).2 !! scratchpadPath dataDir
       = Some (defaultScratchpad env))
  ∧ (loadScratchpad dataDir env' (loadScratchpad dataDir env d).2).1
    = (loadScratchpad dataDir env d).1.
Proof.
  split; [|split; [|split]].
  - intros content. rewrite loadScratchpad_run. unfold saveScratchpad.
    fold (scratchpadPath dataDir). by rewrite writeText_target.
  - intros c Hc. rewrite loadScratchpad_run, Hc. done.
  - intros Hn. rewrite loadScratchpad_run, Hn. simpl. split; [done|].
    apply writeText_target.
  - rewrite (loadScratchpad_run env d).
    destruct (files d !! scratchpadPath dataDir) as [c|] eqn:Hf; simpl.
    + rewrite loadScratchpad_run. simpl. by rewrite Hf.
    + rewrite loadScratchpad_run. by rewrite writeText_target.
Qed.

Lemma memory_paths_distinct :
  scratchpadPath dataDir ≠ identityPath dataDir
  ∧ scratchpadPath dataDir ≠ tmp_of (identityPath dataDir)
  ∧ identityPath dataDir ≠ tmp_of (scratchpadPath dataDir).
Proof.
  unfold scratchpadPath, identityPath, memoryPath. rewrite !tmp_of_join.
  split; [|split]; intros E; apply path_join_inj in E; discriminate E.
Qed.

Lemma ensureFiles_run (agentName : string) (env : Env) (d : Disk) :
  ∃ d', ensureFiles dataDir agentName env d = (Ok tt, d')
    ∧ files d' = files (loadIdentity dataDir agentName
                          (loadScratchpad dataDir env d).2).2.
Proof.
  unfold ensureFiles, bind, ensureDir, mkdirSync.
  rewrite loadScratchpad_run.
  destruct (files d !! scratchpadPath dataDir) as [c|]; simpl;
    rewrite loadIdentity_run;
    match goal with |- context [files ?d0 !! identityPath dataDir] =>
      destruct (files d0 !! identityPath dataDir) end; simpl; eauto.
Qed.


End ScratchpadLaws.

Section LogLaws.
Context `{JsRuntime}.
Variable dataDir : string.

Lemma unlinkSync_files (p : string) (d : Disk) :
  files (unlinkSync p d).2 = delete p (files d).
Proof. unfold unlinkSync. by destruct (files d !! p). Qed.

Lemma unlink_each_files (paths : list string) (d : Disk) :
  (∀ q, q ∉ paths → files (unlink_each paths d).2 !! q = files d !! q)
  ∧ (∀ q, files (unlink_each paths d).2 !! q = files d !! q
          ∨ files (unlink_each paths d).2 !! q = None).
Proof.
  revert d. induction paths as [|p ps IH]; intros d; [by split; [|left]|].
  cbn [unlink_each]. unfold bind.
  pose proof (unlinkSync_files p d) as Hu.
  destruct (unlinkSync p d) as [[[]|e] d1]; simpl in *.
  - destruct (IH d1) as [IH1 IH2]. split.
    + intros q Hq. apply not_elem_of_cons in Hq as [Hq1 Hq2].
      rewrite IH1 by done. rewrite Hu. by rewrite lookup_delete_ne.
    + intros q. destruct (IH2 q) as [->| ->]; [|by right]. rewrite Hu.
      destruct (decide (p = q)) as [->|]; [right; apply lookup_delete_eq|].
      left. by rewrite lookup_delete_ne.
  - split.
    + intros q Hq. apply not_elem_of_cons in Hq as [Hq1 Hq2].
      rewrite Hu. by rewrite lookup_delete_ne.
    + intros q. rewrite Hu.
      destruct (decide (p = q)) as [->|]; [right; apply lookup_delete_eq|].
      left. by rewrite lookup_delete_ne.
Qed.

Lemma rotated_ne (p ts : string) : p +:+ "." +:+ ts ≠ p.
Proof.
  intros E. apply (f_equal String.length) in E.
  rewrite !str_length_app in E. simpl in E. lia.
Qed.

(** What [rotateIfNeeded] does to the files. *)
Lemma rotateIfNeeded_run (p : string) (env : Env) (d : Disk) :
  ∃ d', rotateIfNeeded p env d = (Ok tt, d')
    ∧ match files d !! p with
      | None => files d' = files d
      | Some old =>
          if Z.of_nat (String.length old) <? LOG_MAX_BYTES then files d' = files d
          else
            files d' !! p = None
            ∧ (files d' !! (p +:+ "." +:+ dashed (now_iso env)) = Some old
               ∨ files d' !! (p +:+ "." +:+ dashed (now_iso env)) = None)
            ∧ (∀ q, q ≠ p → q ≠ p +:+ "." +:+ dashed (now_iso env) →
                    (∀ v, q ≠ path_join (dirname p) v) →
                    files d' !! q = files d !! q)
      end.
Proof.
  unfold rotateIfNeeded, try_catch, bind at 1, existsSync. simpl.
  destruct (files d !! p) as [old|] eqn:Hf; simpl;
    [|eexists; split; [reflexivity | done]].
  unfold bind at 1, statSync_size. simpl. rewrite Hf.
  destruct (Z.of_nat (String.length old) <? LOG_MAX_BYTES) eqn:Hsz;
    [eexists; split; [reflexivity | done]|].
  unfold bind at 1, renameSync. simpl. rewrite Hf.
  unfold bind at 1, readdirSync. simpl.
  set (rotated := p +:+ "." +:+ dashed (now_iso env)).
  set (fs1 := <[rotated := old]> (delete p (files d))).
  match goal with |- context [unlink_each ?ps ?d0] =>
    set (victims := ps); set (d1 := d0) end.
  assert (files d1 = fs1) as Hd1.
  { unfold d1, fs1, record. simpl. by rewrite Hf. }
  destruct (unlink_each_files victims d1) as [Hk Hn].
  assert (files (unlink_each victims d1).2 !! p = None) as Hp.
  { destruct (Hn p) as [->| ->]; [|done]. rewrite Hd1. unfold fs1.
    rewrite lookup_insert_ne by apply rotated_ne. apply lookup_delete_eq. }
  assert (files (unlink_each victims d1).2 !! rotated = Some old
          ∨ files (unlink_each victims d1).2 !! rotated = None) as Hr.
  { destruct (Hn rotated) as [->| ->]; [left|by right]. rewrite Hd1. unfold fs1.
    apply lookup_insert_eq. }
  assert (∀ q, q ≠ p → q ≠ rotated → (∀ v, q ≠ path_join (dirname p) v) →
               files (unlink_each victims d1).2 !! q = files d !! q) as Hfr.
  { intros q Q1 Q2 Q3. rewrite Hk.
    - rewrite Hd1. unfold fs1. rewrite lookup_insert_ne by done.
      by rewrite lookup_delete_ne.
    - unfold victims. intros Hin. apply list_elem_of_fmap in Hin as (v & -> & _).
      by apply (Q3 v). }
  destruct (unlink_each victims d1) as [[[]|e] d2]; simpl in *;
    eexists; (split; [reflexivity|]); done.
Qed.

Lemma split_dir_prefix (a b : string) :
  ∃ r, split_dir (a +:+ "/" +:+ b) = Some (a +:+ r).
Proof.
  induction a as [|c a [r IH]].
  - rewrite str_app_nil_l. change ("/" +:+ b) with (String slash b).
    cbn [split_dir]. destruct (split_dir b) as [x|].
    + by exists (String slash x).
    + rewrite Ascii.eqb_refl. by exists "".
  - rewrite str_app_cons. cbn [split_dir]. rewrite IH. by exists r.
Qed.

Lemma dirname_prefix (a b : string) :
  a ≠ "" → ∃ r, dirname (a +:+ "/" +:+ b) = a +:+ r.
Proof.
  intros Ha. unfold dirname. destruct (split_dir_prefix a b) as [r ->].
  exists r. destruct a as [|c a]; [done|]. by rewrite str_app_cons.
Qed.

(** Every path that [appendLog] can change lies under the log
    directory. *)
Lemma logs_paths (name : string) (ts q : string) :
  String.prefix (logsDir dataDir) q = false →
  q ≠ logsPath dataDir name ∧ q ≠ logsPath dataDir name +:+ "." +:+ ts
  ∧ ∀ v, q ≠ path_join (dirname (logsPath dataDir name)) v.
Proof.
  intros Hq. unfold logsPath. fold (logsDir dataDir). unfold path_join at 1 2 3.
  split; [|split].
  - intros ->. by rewrite prefix_app in Hq.
  - intros ->. rewrite str_app_assoc in Hq. by rewrite prefix_app in Hq.
  - intros v ->. destruct (dirname_prefix (logsDir dataDir) name) as [r Hr].
    { apply path_join_ne_empty. }
    unfold path_join in Hq at 1. rewrite Hr in Hq. rewrite str_app_assoc in Hq.
    by rewrite prefix_app in Hq.
Qed.

Lemma appendLog_effect
    (name : string) (entry : LogEntry) (env : Env) (d : Disk) :
  let p := logsPath dataDir name in
  let line := JSON_stringify_entry (stamped env entry) +:+ LF in
  let r := appendLog dataDir name entry env d in
  r.1 = Ok tt
  ∧ match files d !! p with
    | None => files r.2 = <[p := line]> (files d)
    | Some old =>
        if Z.of_nat (String.length old) <? LOG_MAX_BYTES
        then files r.2 = <[p := old +:+ line]> (files d)
        else files r.2 !! p = Some line
             ∧ (files r.2 !! (p +:+ "." +:+ dashed (now_iso env)) = Some old
                ∨ files r.2 !! (p +:+ "." +:+ dashed (now_iso env)) = None)
    end
  ∧ (∀ q, String.prefix (logsDir dataDir) q = false → files r.2 !! q = files d !! q).
Proof.
  intros p line r. subst r. unfold appendLog, bind. fold p.
  destruct (rotateIfNeeded_run p env d) as (d' & -> & Hd').
  rewrite appendJsonl_run. simpl. fold line. split; [done|].
  destruct (files d !! p) as [old|] eqn:Hf.
  - destruct (Z.of_nat (String.length old) <? LOG_MAX_BYTES).
    + rewrite Hd', Hf. simpl. split; [done|].
      intros q Hq. destruct (logs_paths name "" q Hq) as (Q1 & _).
      by rewrite lookup_insert_ne.
    + destruct Hd' as (Hp & Hr & Hfr). rewrite Hp. simpl. split.
      * split; [apply lookup_insert_eq|].
        rewrite lookup_insert_ne by (apply not_eq_sym, rotated_ne). done.
      * intros q Hq.
        destruct (logs_paths name (dashed (now_iso env)) q Hq) as (Q1 & Q2 & Q3).
        rewrite lookup_insert_ne by done. by apply Hfr.
  - rewrite Hd', Hf. simpl. split; [done|].
    intros q Hq. destruct (logs_paths name "" q Hq) as (Q1 & _).
    by rewrite lookup_insert_ne.
Qed.


Context `{JsonLines}.

Lemma readJsonlTail_run (name : string) (maxEntries : Z) (d : Disk) :
  ∃ d', files d' = files d
    ∧ readJsonlTail dataDir name maxEntries d =
        (Ok (match files d !! logsPath dataDir name with
             | None => []
             | Some text =>
                 parsed_lines (slice_from (split_lines (trim text)) (- maxEntries))
             end), d').
Proof.
  unfold readJsonlTail, bind, try_catch, existsSync, readText, readFileSync. simpl.
  destruct (files d !! logsPath dataDir name) as [text|] eqn:Hf; simpl.
  - rewrite Hf. simpl. eexists. split; [|reflexivity]. done.
  - eexists. split; [|reflexivity]. done.
Qed.

Lemma slice_from_zero {A} (l : list A) : slice_from l 0 = l.
Proof.
  unfold slice_from, slice. cbv zeta. change (0 <? 0) with false. cbv iota.
  destruct (Z.ltb_spec (Z.of_nat (length l)) 0) as [?|_]; [lia|].
  rewrite (Z.min_l 0) by lia. rewrite Z.min_id, Z.sub_0_r, Nat2Z.id. simpl.
  rewrite drop_0. by rewrite take_ge.
Qed.

Lemma slice_from_last {A} (l : list A) (k : Z) :
  1 ≤ k → slice_from l (- k) = drop (length l - Z.to_nat k) l.
Proof.
  intros Hk. unfold slice_from, slice. cbv zeta.
  destruct (Z.ltb_spec (- k) 0) as [_|?]; [|lia].
  destruct (Z.ltb_spec (Z.of_nat (length l)) 0) as [?|_]; [lia|].
  rewrite Z.min_id.
  replace (Z.to_nat ((Z.of_nat (length l) + - k) `max` 0))
    with (length l - Z.to_nat k)%nat by lia.
  rewrite take_ge; [done|]. rewrite length_drop. lia.
Qed.

Lemma parsed_lines_length (lines : list string) :
  (length (parsed_lines lines) ≤ length lines)%nat.
Proof.
  induction lines as [|l ls IH]; [done|].
  change (parsed_lines (l :: ls)) with
    (match (if String.eqb (trim l) "" then None else JSON_parse_line l) with
     | Some v => v :: parsed_lines ls
     | None => parsed_lines ls
     end).
  destruct (if String.eqb (trim l) "" then None else JSON_parse_line l);
    cbn [length]; lia.
Qed.

(** X16. [readJsonlTail] changes no file and returns a list: the empty
    one when the log is missing; for a limit of 1 or more, at most that
    many values; and the values of all the lines of the log that are not
    blank and parse when the limit is 0 (as [slice(-0)] is the whole
    array) or the log has no more lines than the limit. *)
Theorem readJsonlTail_reads_at_most_the_last_entries
    (name : string) (maxEntries : Z) (d : Disk) :
  let r := readJsonlTail dataDir name maxEntries d in
  files r.2 = files d
  ∧ ∃ vs, r.1 = Ok vs
      ∧ (files d !! logsPath dataDir name = None → vs = [])
      ∧ (1 ≤ maxEntries → Z.of_nat (length vs) ≤ maxEntries)
      ∧ (∀ text, files d !! logsPath dataDir name = Some text →
           maxEntries = 0
           ∨ Z.of_nat (length (split_lines (trim text))) ≤ maxEntries →
           vs = parsed_lines (split_lines (trim text))).
Proof.
  intros r. subst r. destruct (readJsonlTail_run name maxEntries d) as (d' & Hd & ->).
  simpl. split; [done|]. eexists. split; [done|]. split; [|split].
  - by intros ->.
  - intros Hk. destruct (files d !! logsPath dataDir name) as [text|]; [|simpl; lia].
    rewrite slice_from_last by done.
    pose proof (parsed_lines_length
                  (drop (length (split_lines (trim text)) - Z.to_nat maxEntries)
                        (split_lines (trim text)))) as Hl.
    rewrite length_drop in Hl. lia.
  - intros text -> [-> | Hk].
    + by rewrite slice_from_zero.
    + destruct (Z.le_gt_cases maxEntries 0) as [Hle|Hgt].
      * pose proof (split_lines_ne (trim text)).
        destruct (split_lines (trim text)); [done | simpl in Hk; lia].
      * rewrite slice_from_last by lia.
        replace (length (split_lines (trim text)) - Z.to_nat maxEntries)%nat
          with 0%nat by lia.
        done.
Qed.

Lemma trimStart_of_lines (x : string) :
  trimStart (x +:+ LF) = "" ∨ ∃ y, trimStart (x +:+ LF) = y +:+ LF.
Proof.
  induction x as [|c x IH].
  - left. done.
  - rewrite str_app_cons. simpl. destruct (is_ws c); [done|].
    right. by exists (String c x).
Qed.

Lemma trim_log (pre line : string) :
  line ≠ "" → trimStart line = line → trimEnd line = line →
  trim (pre +:+ line +:+ LF) = trimStart pre +:+ line.
Proof.
  intros Hne Hs He. destruct (trimStart_fixed line Hs Hne) as (c & s' & -> & Hc).
  unfold trim. rewrite str_app_cons, (trimStart_app pre c (s' +:+ LF) Hc).
  rewrite <- str_app_cons, <- str_app_assoc.
  rewrite trimEnd_app. change (trimEnd LF) with "". simpl.
  rewrite trimEnd_app, He. done.
Qed.

Lemma split_lines_log (pre line : string) :
  pre = "" ∨ (∃ x, pre = x +:+ LF) →
  includes LF line = false →
  ∃ ls, split_lines (pre +:+ line) = (ls ++ [line])%list.
Proof.
  intros [->|[x ->]] Hl.
  - exists []. rewrite str_app_nil_l. by apply split_lines_one.
  - exists (split_lines x). rewrite str_app_assoc, split_lines_app.
    by rewrite (split_lines_one line Hl).
Qed.

Lemma slice_from_keeps_last {A} (ls : list A) (x : A) (k : Z) :
  0 ≤ k → ∃ ls', slice_from (ls ++ [x]) (- k) = (ls' ++ [x])%list.
Proof.
  intros Hk. assert (k = 0 ∨ 1 ≤ k) as [->|H1] by lia.
  - exists ls. apply slice_from_zero.
  - rewrite slice_from_last by done. rewrite length_app. simpl.
    exists (drop (length ls + 1 - Z.to_nat k) ls).
    rewrite drop_app_le by lia. done.
Qed.

(** X17. An entry that [appendLog] appends to a log of whole lines is
    the last value that [readJsonlTail] returns afterwards, when the line
    that [JSON.stringify] prints for it is one line without blanks at its
    ends that [JSON.parse] reads. *)
Theorem appendLog_then_readJsonlTail
    (name : string) (entry : LogEntry) (env : Env) (d : Disk) (maxEntries : Z)
    (v : JsonValue) :
  let p := logsPath dataDir name in
  let line := JSON_stringify_entry (stamped env entry) in
  match files d !! p with
  | None => True
  | Some old => old = "" ∨ ∃ x, old = x +:+ LF
  end →
  includes LF line = false → line ≠ "" →
  trimStart line = line → trimEnd line = line →
  JSON_parse_line line = Some v →
  0 ≤ maxEntries →
  ∃ vs, (readJsonlTail dataDir name maxEntries
           (appendLog dataDir name entry env d).2).1 = Ok (vs ++ [v])%list.
Proof.
  intros p line Hold Hlf Hne Hts Hte Hv Hk.
  destruct (appendLog_effect name entry env d) as (_ & Hfiles & _).
  fold p line in Hfiles.
  assert (∃ pre, files (appendLog dataDir name entry env d).2 !! p
                   = Some (pre +:+ line +:+ LF)
                 ∧ (pre = "" ∨ ∃ x, pre = x +:+ LF)) as (pre & Hp & Hpre).
  { destruct (files d !! p) as [old|].
    - destruct (Z.of_nat (String.length old) <? LOG_MAX_BYTES).
      + exists old. rewrite Hfiles. split; [apply lookup_insert_eq | done].
      + exists "". destruct Hfiles as [-> _]. split; [done | by left].
    - exists "". rewrite Hfiles. split; [apply lookup_insert_eq | by left]. }
  destruct (readJsonlTail_run name maxEntries (appendLog dataDir name entry env d).2)
    as (d' & _ & ->). simpl. fold p. rewrite Hp.
  rewrite (trim_log pre line Hne Hts Hte).
  assert (trimStart pre = "" ∨ ∃ y, trimStart pre = y +:+ LF) as Hpre'.
  { destruct Hpre as [->|[x ->]]; [by left | apply trimStart_of_lines]. }
  destruct (split_lines_log (trimStart pre) line Hpre' Hlf) as [ls ->].
  destruct (slice_from_keeps_last ls line maxEntries Hk) as [ls' ->].
  exists (parsed_lines ls'). unfold parsed_lines. rewrite omap_app. simpl.
  f_equal. f_equal. unfold trim. rewrite Hts, Hte.
  destruct (String.eqb_spec line "") as [|_]; [done|]. by rewrite Hv.
Qed.

End LogLaws.

(* ===================================================================== *)
(** * Further properties of consciousness.ts and daemon.ts *)
(* ===================================================================== *)

Global Instance agree_on_preorder (Q : string → Prop) : PreOrder (agree_on Q).
Proof.
  split.
  - intros w. exists (disk w). split; [by destruct w | done].
  - intros w1 w2 w3 (d2 & -> & H2) (d3 & -> & H3). exists d3. split; [done|].
    intros q Hq. rewrite H3 by done. simpl. by apply H2.
Qed.

Section StateFileFacts.
Context `{JsRuntime}.
Variable dataDir : string.

Lemma statePath_not_log :
  String.prefix (logsDir dataDir) (statePath dataDir) = false.
Proof.
  unfold logsDir, statePath, path_join.
  rewrite !str_app_assoc. rewrite prefix_app_same. done.
Qed.

Lemma loadState_same_file (env : Env) (d d' : Disk) :
  files d' !! statePath dataDir = files d !! statePath dataDir →
  (loadState dataDir env d').1 = (loadState dataDir env d).1.
Proof.
  intros E.
  destruct (readable_or_not dataDir d) as [(raw & obj & Hf & Hp) | Hu].
  - rewrite (loadState_parsed dataDir env d raw obj Hf Hp).
    rewrite <- E in Hf. by rewrite (loadState_parsed dataDir env d' raw obj Hf Hp).
  - rewrite (loadState_fresh dataDir env d Hu).
    assert (unreadable dataDir d') as Hu'.
    { unfold unreadable in *. by rewrite E. }
    by rewrite (loadState_fresh dataDir env d' Hu').
Qed.

Lemma loadState_stored (env : Env) (d : Disk) (st : StateData) :
  json_roundtrip →
  files d !! statePath dataDir = Some (JSON_stringify_state st) →
  (loadState dataDir env d).1 = Ok st.
Proof.
  intros Hrt Hf.
  rewrite (loadState_parsed dataDir env d _ (total st) Hf (Hrt st)). simpl.
  by rewrite spread_total.
Qed.

Lemma appendLog_spares_state (name : string) (entry : LogEntry) (env : Env) (d : Disk) :
  files (appendLog dataDir name entry env d).2 !! statePath dataDir
  = files d !! statePath dataDir.
Proof.
  destruct (appendLog_effect dataDir name entry env d) as (_ & _ & Hfr).
  apply Hfr, statePath_not_log.
Qed.

End StateFileFacts.

Section SchedulerLaws.
Context `{JsRuntime} `{Collaborators}.
Variable config : AppConfig.

Lemma start_run_explicit (env : Env) (w : World) :
  running w = false →
  ∃ st d1, loadState (dataDir config) env (disk w) = (Ok st, d1)
    ∧ start config env w =
        (Ok tt,
         scheduled
           (set_disk (onLog "Consciousness started" env
                        (saveState (dataDir config) (set_bgEnabled true st) d1).2)
                     (set_paused false (set_running true w)))).
Proof.
  intros Hr. destruct (loadState_returns (dataDir config) env (disk w)) as (st & d1 & Hl).
  exists st, d1. split; [done|].
  unfold start, bind, get. simpl. rewrite Hr. unfold modify. simpl.
  rewrite on_disk_run. simpl. rewrite Hl. simpl.
  rewrite on_disk_run. simpl. unfold saveState. rewrite !writeText_run. simpl.
  unfold log, modify. rewrite scheduleNext_run. simpl. done.
Qed.

Lemma stop_run_explicit (env : Env) (w : World) :
  ∃ st d1, loadState (dataDir config) env (disk w) = (Ok st, d1)
    ∧ stop config env w =
        (Ok tt,
         set_disk (onLog "Consciousness stopped" env
                     (saveState (dataDir config) (set_bgEnabled false st) d1).2)
                  (unscheduled (set_running false w))).
Proof.
  destruct (loadState_returns (dataDir config) env (disk w)) as (st & d1 & Hl).
  exists st, d1. split; [done|].
  unfold stop, bind, get, modify, unscheduled, clearTimeout, modify. simpl.
  destruct (timer w) as [id|] eqn:Ht; simpl.
  all: rewrite on_disk_run; simpl; rewrite Hl; simpl.
  all: rewrite on_disk_run; simpl; unfold saveState; rewrite !writeText_run; simpl.
  all: unfold log, modify; simpl; done.
Qed.

(** *** Computations that change only the disk *)

Section AgreeOn.
Variable Q : string → Prop.
Hypothesis Hlog : ∀ q, Q q → log_spares q.
Hypothesis Hout : ∀ q, Q q → String.prefix (logsDir (dataDir config)) q = false.

Lemma agree_on_disk {A} (m : M Disk A) :
  (∀ d q, Q q → files (m d).2 !! q = files d !! q) →
  keeps (agree_on Q) (on_disk m).
Proof.
  intros Hm w. rewrite on_disk_run. simpl. exists (m (disk w)).2. split; [done|].
  intros q Hq. by apply Hm.
Qed.

Lemma agree_log (text : string) (env : Env) : keeps (agree_on Q) (log text env).
Proof.
  intros w. exists (onLog text env (disk w)). split; [done|].
  intros q Hq. by apply Hlog.
Qed.

Lemma agree_appendEvent (e : LogEntry) (env : Env) :
  keeps (agree_on Q) (appendEvent config e env).
Proof.
  apply agree_on_disk. intros d q Hq.
  destruct (appendLog_effect (dataDir config) "events.jsonl" e env d) as (_ & _ & Hfr).
  by apply Hfr, Hout.
Qed.

Lemma agree_consume label n msgs acc env w :
  ∃ w', consume label n msgs acc env w = (Ok (last_result msgs acc), w')
        ∧ agree_on Q w w'.
Proof.
  revert acc w. induction msgs as [|[cost turns success text|] msgs IH];
    intros acc w; simpl.
  - exists w. split; [done | reflexivity].
  - unfold bind.
    destruct (success && negb (String.eqb text "")).
    + pose proof (agree_log (label +:+ clipped n text) env w) as Hl.
      unfold log, modify in *. simpl in *.
      destruct (IH (cost, turns) (set_disk (onLog (label +:+ clipped n text) env (disk w)) w))
        as (w' & -> & Hw'). exists w'. split; [done|]. by etrans.
    + simpl. apply IH.
  - apply IH.
Qed.

Lemma agree_tick_catch env err : keeps (agree_on Q) (tick_catch config env err).
Proof.
  unfold tick_catch. apply keeps_bind; [apply _ | apply agree_log|].
  intros _. apply agree_appendEvent.
Qed.

Hypothesis Hbudget :
  ∀ q, Q q → q ≠ statePath (dataDir config) ∧ q ≠ tmp_of (statePath (dataDir config)).

Lemma updateBudget_other (cost : Qc) (turns pt ct : Z) (env : Env) (d : Disk) (q : string) :
  q ≠ statePath (dataDir config) → q ≠ tmp_of (statePath (dataDir config)) →
  files (updateBudget (dataDir config) cost turns pt ct env d).2 !! q = files d !! q.
Proof.
  intros Q1 Q2.
  destruct (updateBudget_run (dataDir config) env d cost turns pt ct) as (st & d' & Hl & E).
  simpl in E. rewrite E. simpl. unfold saveState. rewrite writeText_other by done.
  destruct (readable_or_not (dataDir config) d) as [(raw & obj & Hf & Hp) | Hu].
  - rewrite (loadState_parsed (dataDir config) env d raw obj Hf Hp) in Hl.
    by injection Hl as <- <-.
  - rewrite (loadState_fresh (dataDir config) env d Hu) in Hl. injection Hl as <- <-.
    unfold saveState. by rewrite writeText_other.
Qed.

Lemma agree_after_query label n t mn dn run env :
  keeps (agree_on Q) (after_query config label n t mn dn run env).
Proof.
  unfold after_query. apply keeps_bind; [apply _ | |].
  { intros w. destruct (agree_consume label n (messages run) (0%Qc, 0) env w)
      as (w' & -> & Hw'). done. }
  intros [costUsd turns].
  apply keeps_bind; [apply _ | |].
  { destruct (thrown run) as [err|]; [|apply keeps_ret; apply _].
    destruct (String.eqb (err_name err) "AbortError");
      [apply agree_log | apply keeps_throw; apply _]. }
  intros _. apply keeps_bind; [apply _ | |].
  { destruct (Qc_ltb 0 costUsd); [|apply keeps_ret; apply _].
    apply keeps_bind; [apply _ | | intros ?; apply keeps_ret; apply _].
    apply agree_on_disk. intros d q Hq. destruct (Hbudget q Hq).
    by apply updateBudget_other. }
  intros _. apply keeps_bind; [apply _ | apply agree_appendEvent|].
  intros _. apply agree_log.
Qed.

Lemma agree_episode_finish mode run env :
  keeps (agree_on Q) (episode_finish config mode run env).
Proof. destruct mode; apply agree_after_query. Qed.

(** The end of an episode: its body, with the [catch] of [tick], changes
    only the disk; then the completion time is recorded and the next
    timer scheduled. *)
Lemma tick_resume_run (i : nat) (ep : Episode) (run : QueryRun) (env : Env)
    (w : World) :
  inflight w !! i = Some ep →
  ∃ d', (∀ q, Q q → files d' !! q = files (disk w) !! q)
    ∧ tick_resume config i run env w =
        tick_end env (set_disk d' (set_inflight (delete i (inflight w)) w)).
Proof.
  intros Hi. unfold tick_resume, bind at 1, get. simpl. rewrite Hi.
  unfold bind at 1 2, modify. simpl.
  set (w1 := set_inflight (delete i (inflight w)) w).
  pose proof (keeps_try_catch (agree_on Q)
                (episode_finish config (ep_mode ep) run env) (tick_catch config env)
                (agree_episode_finish (ep_mode ep) run env)
                (agree_tick_catch env) w1) as (d' & Hw & Hd).
  exists d'. split; [done|].
  assert (try_catch (episode_finish config (ep_mode ep) run env)
                    (tick_catch config env) w1 = (Ok tt, set_disk d' w1)) as E.
  { rewrite <- Hw. unfold try_catch.
    destruct (episode_finish config (ep_mode ep) run env w1) as [[[]|err] w2];
      simpl; [done|].
    by destruct (tick_catch_run config env err w2) as (pre & d2 & -> & _). }
  unfold episode_finish in E. destruct (ep_mode ep); by rewrite E.
Qed.

End AgreeOn.

(** X18. [start] on a stopped scheduler sets the running flag, clears the
    paused flag, schedules exactly one timer one wake-up interval ahead and
    holds it, and leaves [bgEnabled] set in the state file with the other
    fields as loaded.  A second [start] changes nothing at all. *)
Theorem start_schedules_once_and_persists (env env' : Env) (w : World) :
  json_roundtrip → log_spares (statePath (dataDir config)) →
  running w = false →
  let w1 := (start config env w).2 in
  (start config env w).1 = Ok tt
  ∧ running w1 = true ∧ paused w1 = false
  ∧ timer w1 = Some (next_tid w)
  ∧ pending w1 = (pending w ++ [mkTimer (next_tid w) (wakeupSec w * 1000)])%list
  ∧ (∃ st, (loadState (dataDir config) env (disk w)).1 = Ok st
           ∧ (loadState (dataDir config) env' (disk w1)).1 = Ok (set_bgEnabled true st))
  ∧ start config env' w1 = (Ok tt, w1).
Proof.
  intros Hrt Hlog Hr w1. subst w1.
  destruct (start_run_explicit env w Hr) as (st & d1 & Hl & ->). simpl.
  split; [done|]. split; [done|]. split; [done|]. split; [done|]. split; [done|].
  split.
  - exists st. rewrite Hl. split; [done|].
    apply loadState_stored; [done|]. rewrite Hlog. apply writeText_target.
  - unfold start, bind, get. simpl. done.
Qed.

(** X19. [stop] clears the running flag and the timer handle, takes the
    held timer out of the pending ones, schedules none, and leaves
    [bgEnabled] unset in the state file with the other fields as
    loaded. *)
Theorem stop_unschedules_and_persists (env env' : Env) (w : World) :
  json_roundtrip → log_spares (statePath (dataDir config)) →
  let w1 := (stop config env w).2 in
  (stop config env w).1 = Ok tt
  ∧ running w1 = false ∧ timer w1 = None
  ∧ (∀ id t, timer w = Some id → t ∈ pending w1 → tid t ≠ id)
  ∧ no_new_timer w w1
  ∧ (∃ st, (loadState (dataDir config) env (disk w)).1 = Ok st
           ∧ (loadState (dataDir config) env' (disk w1)).1 = Ok (set_bgEnabled false st)).
Proof.
  intros Hrt Hlog w1. subst w1.
  destruct (stop_run_explicit env w) as (st & d1 & Hl & ->). simpl.
  split; [done|]. split; [by unfold unscheduled; simpl; destruct (timer w)|].
  split; [unfold unscheduled; simpl; destruct (timer w) eqn:Ht; simpl; by rewrite ?Ht|].
  split; [|split].
  - intros id t Ht. unfold unscheduled. simpl. rewrite Ht. simpl.
    unfold without. intros Hin%list_elem_of_In%filter_In.
    destruct Hin as [_ Hne]. apply negb_true_iff, Nat.eqb_neq in Hne. done.
  - unfold no_new_timer, unscheduled. simpl. destruct (timer w); simpl.
    + split; [done|]. intros t Hin%list_elem_of_In. apply list_elem_of_In.
      unfold without in Hin. by apply filter_In in Hin as [? _].
    + done.
  - exists st. rewrite Hl. split; [done|].
    apply loadState_stored; [done|]. rewrite Hlog. apply writeText_target.
Qed.

Lemma tick_resume_only_disk (i : nat) (ep : Episode) (run : QueryRun) (env : Env)
    (w : World) :
  inflight w !! i = Some ep →
  ∃ d', tick_resume config i run env w =
          tick_end env (set_disk d' (set_inflight (delete i (inflight w)) w)).
Proof.
  intros Hi.
  destruct (tick_resume_run (λ _, False) (λ _ F, False_ind _ F) (λ _ F, False_ind _ F)
              (λ _ F, False_ind _ F) i ep run env w Hi) as (d' & _ & E).
  eauto.
Qed.

Lemma without_sub (id : nat) (ts : list Timer) : without id ts ⊆ ts.
Proof.
  intros t Ht. apply list_elem_of_In. apply list_elem_of_In in Ht.
  unfold without in Ht. by apply filter_In in Ht as [? _].
Qed.

Lemma step_stopped (env : Env) (ev : Event) (w : World) :
  running w = false → starts ev = false → inert w (step config env ev w).2.
Proof.
  intros Hr Hev. unfold inert, no_new_timer.
  destruct ev as [| | | |text|sec|[]|id|i run]; try discriminate Hev; cbn [step].
  - destruct (stop_run_explicit env w) as (st & d1 & _ & ->). unfold unscheduled. simpl.
    destruct (timer w); simpl; repeat split; try done. apply without_sub.
  - simpl. by rewrite Hr.
  - rewrite resume_run, Hr. simpl. by rewrite Hr.
  - simpl. by rewrite Hr.
  - pose proof (set_next_wakeup_run config env sec w) as Hs. unfold bind.
    destruct (seconds_schema sec).
    + destruct Hs as (st & d' & _ & ->). simpl. by rewrite Hr.
    + rewrite Hs. simpl. by rewrite Hr.
  - unfold toggle_consciousness, call_opt, bind. simpl.
    destruct (stop_run_explicit env w) as (st & d1 & _ & ->). unfold unscheduled. simpl.
    destruct (timer w); simpl; repeat split; try done. apply without_sub.
  - assert (timer_fires config id env w =
              (Ok tt,
               if existsb (λ t, (tid t =? id)%nat) (pending w)
               then set_timer None
                      (set_pending (without id (pending w)) (next_tid w) w)
               else w)) as ->.
    { unfold timer_fires, bind, get, modify, tick, bind, get. simpl.
      destruct (existsb _ _); simpl; [by rewrite Hr | done]. }
    simpl. destruct (existsb _ _); simpl; rewrite Hr; repeat split; try done.
    apply without_sub.
  - destruct (inflight w !! i) as [ep|] eqn:Hi.
    + destruct (tick_resume_only_disk i ep run env w Hi) as (d' & ->).
      rewrite tick_end_run. simpl. rewrite Hr. simpl.
      repeat split; try done.
      rewrite length_delete by eauto. lia.
    + assert (tick_resume config i run env w = (Ok tt, w)) as ->.
      { unfold tick_resume, bind, get. simpl. by rewrite Hi. }
      simpl. by rewrite Hr.
Qed.

(** X20. As long as nothing starts it ([start] or a toggle to on), a
    stopped scheduler stays stopped through any events: timers that
    fire, queries that end, pause, resume, observations, wake-up changes
    and stops count no tick, schedule no timer and start no episode. *)
Theorem stopped_scheduler_stays_inert (evs : list (Env * Event)) (w : World) :
  running w = false →
  Forall (λ ee, starts ee.2 = false) evs →
  inert w (run config evs w).
Proof.
  revert w. induction evs as [|[env ev] evs IH]; intros w Hr Hall.
  - unfold inert, no_new_timer. simpl. by rewrite Hr.
  - apply Forall_cons_1 in Hall as [Hev Hall]. simpl in Hev.
    destruct (step_stopped env ev w Hr Hev) as (R1 & T1 & [N1 P1] & L1).
    change (run config ((env, ev) :: evs) w)
      with (run config evs (step config env ev w).2).
    destruct (IH (step config env ev w).2 R1 Hall) as (R2 & T2 & [N2 P2] & L2).
    unfold inert, no_new_timer. repeat split.
    + done.
    + congruence.
    + congruence.
    + by etrans.
    + lia.
Qed.

(** X21. When the process starts again on the disk it left, a
    scheduler that was stopped stays stopped and one that was started is
    started again, when the consciousness feature is enabled; with the
    feature disabled the scheduler is never started. *)
Theorem restore_follows_the_persisted_flag (env1 env2 : Env) (w : World) :
  json_roundtrip → log_spares (statePath (dataDir config)) →
  (consciousness (features config) = true →
   running (restore config env2 (new config (disk (stop config env1 w).2))).2 = false
   ∧ (running w = false →
      running (restore config env2
                 (new config (disk (start config env1 w).2))).2 = true))
  ∧ (consciousness (features config) = false →
     ∀ d, restore config env2 (new config d) = (Ok tt, new config d)).
Proof.
  intros Hrt Hlog. split.
  - intros Hc. split.
    + destruct (stop_run_explicit env1 w) as (st & d1 & _ & ->). simpl.
      unfold restore. rewrite Hc. unfold bind. rewrite on_disk_run. simpl.
      match goal with |- context [loadState (dataDir config) env2 ?d0] =>
        pose proof (loadState_stored (dataDir config) env2 d0
                      (set_bgEnabled false st) Hrt) as Hl;
        destruct (loadState (dataDir config) env2 d0) as [r d2] end.
      simpl in Hl. rewrite Hl; [done|].
      rewrite Hlog. apply writeText_target.
    + intros Hr. destruct (start_run_explicit env1 w Hr) as (st & d1 & _ & ->). simpl.
      unfold restore. rewrite Hc. unfold bind. rewrite on_disk_run. simpl.
      match goal with |- context [loadState (dataDir config) env2 ?d0] =>
        pose proof (loadState_stored (dataDir config) env2 d0
                      (set_bgEnabled true st) Hrt) as Hl;
        destruct (loadState (dataDir config) env2 d0) as [r d2] end.
      simpl in Hl. rewrite Hl by (rewrite Hlog; apply writeText_target). simpl.
      destruct (start_run_explicit env2 (set_disk d2 (new config
                  (onLog "Consciousness started" env1
                     (saveState (dataDir config) (set_bgEnabled true st) d1).2))) eq_refl)
        as (st2 & d3 & _ & ->). done.
  - intros Hc d. unfold restore. by rewrite Hc.
Qed.


Lemma with_observations_block (prompt : string) (w : World) :
  observations w ≠ [] →
  with_observations prompt w =
    (Ok (prompt +:+ observations_block (observations w)), set_observations [] w).
Proof.
  intros Hne. unfold with_observations, bind, get, modify. simpl.
  destruct (observations w) as [|o os] eqn:Ho; [done|]. simpl.
  unfold observations_block. by rewrite !str_app_assoc.
Qed.

Lemma appendEvent_run (e : LogEntry) (env : Env) (w : World) :
  ∃ d', appendEvent config e env w = (Ok tt, set_disk d' w).
Proof.
  unfold appendEvent. rewrite on_disk_run.
  destruct (appendLog_run (dataDir config) "events.jsonl" e env (disk w))
    as (pre & d' & -> & _).
  simpl. eauto.
Qed.

Lemma episode_start_observations (mode : Mode) (state : StateData) (env : Env)
    (w : World) :
  observations w ≠ [] →
  match episode_start config mode state env w with
  | (Ok _, w') =>
      observations w' = []
      ∧ ∃ base, inflight w' =
          (inflight w ++ [mkEpisode mode (base +:+ observations_block (observations w))])%list
  | (Throw _, w') => observations w' = observations w ∧ inflight w' = inflight w
  end.
Proof.
  intros Hne. destruct mode; unfold episode_start, think_start, thinkDeep_start.
  all: unfold bind at 1 2, log, modify; simpl; rewrite on_disk_run; simpl.
  - destruct (buildConsciousnessPrompt config state env _) as [[base|e] d1];
      simpl; [|done].
    unfold bind at 1. rewrite with_observations_block by done.
    unfold bind at 1, get. simpl. unfold bind.
    match goal with |- context [appendEvent config ?e env ?x] =>
      destruct (appendEvent_run e env x) as (d2 & ->) end.
    simpl. split; [done|]. by exists base.
  - destruct (buildDeepConsciousnessPrompt config state env _) as [[base|e] d1];
      simpl; [|done].
    unfold bind at 1. rewrite with_observations_block by done.
    unfold bind at 1, get. simpl. unfold bind.
    match goal with |- context [appendEvent config ?e env ?x] =>
      destruct (appendEvent_run e env x) as (d2 & ->) end.
    simpl. split; [done|]. eexists. reflexivity.
Qed.

Lemma injected_observations (texts : list string) (w : World) :
  let w1 := foldl (λ w t, (injectObservation t w).2) w texts in
  observations w1 = (observations w ++ texts)%list ∧ inflight w1 = inflight w.
Proof.
  revert w. induction texts as [|t ts IH]; intros w.
  - simpl. by rewrite app_nil_r.
  - cbn [foldl]. specialize (IH (injectObservation t w).2). cbv zeta in *.
    destruct IH as [-> ->]. unfold injectObservation, modify. simpl.
    by rewrite <- app_assoc.
Qed.

(** X23. The observations injected since the last episode are put
    into the prompt of the next one, all of them in the order of their
    injection under the heading of the recent observations, and are then
    cleared; when the assembly of the prompt throws, they are kept for
    the episode after. *)
Theorem observations_go_into_the_next_prompt_once
    (texts : list string) (mode : Mode) (state : StateData) (env : Env) (w : World) :
  texts ≠ [] → observations w = [] →
  let w1 := foldl (λ w t, (injectObservation t w).2) w texts in
  match episode_start config mode state env w1 with
  | (Ok _, w') =>
      observations w' = []
      ∧ ∃ base, inflight w' =
          (inflight w ++ [mkEpisode mode (base +:+ observations_block texts)])%list
  | (Throw _, w') => observations w' = texts ∧ inflight w' = inflight w
  end.
Proof.
  intros Hne Hw w1. destruct (injected_observations texts w) as [Ho Hi].
  fold w1 in Ho, Hi. rewrite Hw in Ho. simpl in Ho.
  pose proof (episode_start_observations mode state env w1) as Hs.
  rewrite Ho, Hi in Hs. by apply Hs.
Qed.

Lemma bind_ok {S A B} (m : M S A) (f : A → M S B) (s : S) (a : A) (s' : S) :
  m s = (Ok a, s') → bind m f s = f a s'.
Proof. intros E. unfold bind. by rewrite E. Qed.

Lemma bind_throw {S A B} (m : M S A) (f : A → M S B) (s : S) (e : Err) (s' : S) :
  m s = (Throw e, s') → bind m f s = (Throw e, s').
Proof. intros E. unfold bind. by rewrite E. Qed.

(** *** The cost of an episode *)

Section Cost.
Hypothesis Hrt : json_roundtrip.
Hypothesis Hlog : log_spares (statePath (dataDir config)).

Lemma state_file_log : ∀ q, is_state_file (dataDir config) q → log_spares q.
Proof. intros q Hq. unfold is_state_file in Hq. by subst q. Qed.

Lemma state_file_out :
  ∀ q, is_state_file (dataDir config) q →
       String.prefix (logsDir (dataDir config)) q = false.
Proof.
  intros q Hq. unfold is_state_file in Hq. subst q. apply statePath_not_log.
Qed.

Lemma budget_then_done (c : Qc) (k : Z) (mn dn : string) (env : Env) (w : World)
    (st : StateData) :
  (loadState (dataDir config) env (disk w)).1 = Ok st →
  ∃ d',
    ((if Qc_ltb 0 c
      then on_disk (updateBudget (dataDir config) c k 0 0 env) ;; ret tt else ret tt) ;;
     appendEvent config [("type", VStr "consciousness_done"); ("mode", VStr mn);
                         ("cost", VNum c); ("turns", VInt k)] env ;;
     log (dn +:+ " (cost: $" +:+ toFixed c 4 +:+ ", turns: " +:+
          pretty k +:+ ")") env) w = (Ok tt, set_disk d' w)
    ∧ files d' !! statePath (dataDir config) =
        if Qc_ltb 0 c
        then Some (JSON_stringify_state
                     (set_spent (spentUsd st + c)%Qc (spentCalls st + k)
                        (spentTokensPrompt st) (spentTokensCompletion st) st))
        else files (disk w) !! statePath (dataDir config).
Proof.
  intros Hl.
  assert (∃ d2, (if Qc_ltb 0 c
                 then on_disk (updateBudget (dataDir config) c k 0 0 env) ;; ret tt else ret tt) w
                = (Ok tt, set_disk d2 w)
                ∧ files d2 !! statePath (dataDir config) =
                    if Qc_ltb 0 c
                    then Some (JSON_stringify_state
                                 (set_spent (spentUsd st + c)%Qc (spentCalls st + k)
                                    (spentTokensPrompt st) (spentTokensCompletion st) st))
                    else files (disk w) !! statePath (dataDir config)) as (d2 & E2 & F2).
  { destruct (Qc_ltb 0 c).
    - unfold bind. rewrite on_disk_run.
      destruct (updateBudget_run (dataDir config) env (disk w) c k 0 0)
        as (st0 & d0 & Hl0 & E).
      simpl in E. rewrite E. simpl. rewrite Hl0 in Hl. simpl in Hl.
      injection Hl as ->. rewrite !Z.add_0_r. eexists. split; [done|].
      apply writeText_target.
    - exists (disk w). split; [by destruct w | done]. }
  unfold bind at 1. rewrite E2.
  pose proof (agree_appendEvent (is_state_file (dataDir config)) state_file_out
                [("type", VStr "consciousness_done"); ("mode", VStr mn);
                 ("cost", VNum c); ("turns", VInt k)] env (set_disk d2 w))
    as (d3 & E3 & F3).
  destruct (appendEvent_run
              [("type", VStr "consciousness_done"); ("mode", VStr mn);
               ("cost", VNum c); ("turns", VInt k)] env (set_disk d2 w)) as (d3' & E3').
  rewrite E3' in E3. simpl in E3. unfold bind. rewrite E3'. unfold log, modify. simpl.
  eexists. split; [done|].
  rewrite Hlog. assert (d3' = d3) as -> by (by injection E3).
  rewrite (F3 (statePath (dataDir config)) eq_refl). simpl. done.
Qed.

Lemma after_query_state label n t mn dn (run : QueryRun) (env : Env) (w : World)
    (st : StateData) :
  (loadState (dataDir config) env (disk w)).1 = Ok st →
  let c := (last_result (messages run) (0%Qc, 0)).1 in
  let k := (last_result (messages run) (0%Qc, 0)).2 in
  ∃ r d', after_query config label n t mn dn run env w = (r, set_disk d' w)
    ∧ match thrown run with
      | Some err =>
          if String.eqb (err_name err) "AbortError"
          then r = Ok tt
               ∧ files d' !! statePath (dataDir config) =
                   if Qc_ltb 0 c
                   then Some (JSON_stringify_state
                                (set_spent (spentUsd st + c)%Qc (spentCalls st + k)
                                   (spentTokensPrompt st) (spentTokensCompletion st) st))
                   else files (disk w) !! statePath (dataDir config)
          else r = Throw err
               ∧ files d' !! statePath (dataDir config)
                 = files (disk w) !! statePath (dataDir config)
      | None =>
          r = Ok tt
          ∧ files d' !! statePath (dataDir config) =
              if Qc_ltb 0 c
              then Some (JSON_stringify_state
                           (set_spent (spentUsd st + c)%Qc (spentCalls st + k)
                              (spentTokensPrompt st) (spentTokensCompletion st) st))
              else files (disk w) !! statePath (dataDir config)
      end.
Proof.
  intros Hl c k. subst c k.
  destruct (agree_consume (is_state_file (dataDir config)) state_file_log label n (messages run) (0%Qc, 0) env w)
    as (w1 & E1 & (d1 & -> & A1)).
  unfold after_query. rewrite (bind_ok _ _ _ _ _ E1).
  destruct (last_result (messages run) (0%Qc, 0)) as [c k].
  cbn [fst snd].
  assert ((loadState (dataDir config) env d1).1 = Ok st) as Hl1.
  { rewrite <- Hl. apply loadState_same_file. by apply A1. }
  destruct (thrown run) as [err|].
  - destruct (String.eqb (err_name err) "AbortError").
    + rewrite (bind_ok _ _ _ tt (set_disk (onLog t env d1) w)) by done.
      destruct (budget_then_done c k mn dn env
                  (set_disk (onLog t env d1) w) st) as (d' & E & F).
      { simpl. rewrite <- Hl1. apply loadState_same_file. apply Hlog. }
      rewrite E. eexists _, _. split; [done|]. split; [done|].
      rewrite F. simpl. destruct (Qc_ltb 0 c); [done|].
      rewrite Hlog. by apply A1.
    + rewrite (bind_throw _ _ _ err (set_disk d1 w)) by done.
      eexists _, _. split; [done|]. split; [done|]. by apply A1.
  - rewrite (bind_ok _ _ _ tt (set_disk d1 w)) by done.
    destruct (budget_then_done c k mn dn env (set_disk d1 w) st Hl1) as (d' & E & F).
    rewrite E. eexists _, _. split; [done|]. split; [done|].
    rewrite F. simpl. destruct (Qc_ltb 0 c); [done|]. by apply A1.
Qed.

Lemma tick_end_disk (env : Env) (w : World) : disk (tick_end env w).2 = disk w.
Proof. rewrite tick_end_run. simpl. by destruct (running w). Qed.

Lemma tick_resume_state (i : nat) (ep : Episode) (run : QueryRun) (env : Env)
    (w : World) (st : StateData) :
  inflight w !! i = Some ep →
  (loadState (dataDir config) env (disk w)).1 = Ok st →
  let c := (last_result (messages run) (0%Qc, 0)).1 in
  let k := (last_result (messages run) (0%Qc, 0)).2 in
  files (disk (tick_resume config i run env w).2) !! statePath (dataDir config) =
    match thrown run with
    | Some err =>
        if String.eqb (err_name err) "AbortError"
        then if Qc_ltb 0 c
             then Some (JSON_stringify_state
                          (set_spent (spentUsd st + c)%Qc (spentCalls st + k)
                             (spentTokensPrompt st) (spentTokensCompletion st) st))
             else files (disk w) !! statePath (dataDir config)
        else files (disk w) !! statePath (dataDir config)
    | None =>
        if Qc_ltb 0 c
        then Some (JSON_stringify_state
                     (set_spent (spentUsd st + c)%Qc (spentCalls st + k)
                        (spentTokensPrompt st) (spentTokensCompletion st) st))
        else files (disk w) !! statePath (dataDir config)
    end.
Proof.
  intros Hi Hl c k.
  set (w1 := set_inflight (delete i (inflight w)) w).
  assert (∃ r d', episode_finish config (ep_mode ep) run env w1 = (r, set_disk d' w1)
    ∧ match thrown run with
      | Some err =>
          if String.eqb (err_name err) "AbortError"
          then r = Ok tt
               ∧ files d' !! statePath (dataDir config) =
                   if Qc_ltb 0 c
                   then Some (JSON_stringify_state
                                (set_spent (spentUsd st + c)%Qc (spentCalls st + k)
                                   (spentTokensPrompt st) (spentTokensCompletion st) st))
                   else files (disk w) !! statePath (dataDir config)
          else r = Throw err
               ∧ files d' !! statePath (dataDir config)
                 = files (disk w) !! statePath (dataDir config)
      | None =>
          r = Ok tt
          ∧ files d' !! statePath (dataDir config) =
              if Qc_ltb 0 c
              then Some (JSON_stringify_state
                           (set_spent (spentUsd st + c)%Qc (spentCalls st + k)
                              (spentTokensPrompt st) (spentTokensCompletion st) st))
              else files (disk w) !! statePath (dataDir config)
      end) as (r & d' & E & Hcase).
  { unfold episode_finish, think_finish, thinkDeep_finish.
    destruct (ep_mode ep); apply (after_query_state _ _ _ _ _ run env w1 st Hl). }
  assert (tick_resume config i run env w =
            (try_catch (episode_finish config (ep_mode ep) run env)
                       (tick_catch config env) ;; tick_end env) w1) as ->.
  { unfold tick_resume, bind at 1, get. simpl. rewrite Hi.
    unfold bind at 1, modify. simpl. fold w1.
    unfold episode_finish. by destruct (ep_mode ep). }
  unfold bind, try_catch. rewrite E.
  destruct (thrown run) as [err|].
  - destruct (String.eqb (err_name err) "AbortError").
    + destruct Hcase as [-> F]. rewrite tick_end_disk. done.
    + destruct Hcase as [-> F].
      pose proof (agree_tick_catch (is_state_file (dataDir config)) state_file_log state_file_out env err (set_disk d' w1))
        as (d2 & E2 & F2).
      destruct (tick_catch_run config env err (set_disk d' w1)) as (pre & d2' & E2' & _).
      rewrite E2' in E2 |- *. simpl in E2. rewrite tick_end_disk. simpl.
      assert (d2' = d2) as -> by (by injection E2).
      rewrite (F2 (statePath (dataDir config)) eq_refl). done.
  - destruct Hcase as [-> F]. rewrite tick_end_disk. done.
Qed.

End Cost.


Lemma watchdog_step (env : Env) (w : World) (n : nat) :
  watchdog env w n =
    if running w && negb (isHealthy env w)
    then (if (4 <=? n)%nat then None else Some (S n))
    else Some 0%nat.
Proof.
  unfold watchdog, isRunning. destruct (running w); simpl; [|done].
  destruct (isHealthy env w); simpl; [done|].
  by destruct n as [|[|[|[|[|?]]]]].
Qed.

Lemma unhealthy_dec (env : Env) (w : World) :
  running w && negb (isHealthy env w) = true ↔ unhealthy (env, w).
Proof.
  unfold unhealthy. simpl. rewrite andb_true_iff, negb_true_iff. done.
Qed.

Lemma watch_exits (checks : list (Env * World)) (n : nat) :
  (n ≤ 4)%nat →
  watch checks n = None ↔
    (5 - n ≤ length checks)%nat ∧ Forall unhealthy (take (5 - n) checks)
    ∨ ∃ pre five post, checks = (pre ++ five ++ post)%list
                       ∧ length five = 5%nat ∧ Forall unhealthy five.
Proof.
  revert n. induction checks as [|[env w] cs IH]; intros n Hn.
  - simpl. split; [done|]. intros [[Hl _]|(pre & five & post & E & Hl & _)].
    + simpl in Hl. lia.
    + symmetry in E. apply app_eq_nil in E as [_ [-> _]%app_eq_nil]. done.
  - cbn [watch]. rewrite watchdog_step.
    destruct (running w && negb (isHealthy env w)) eqn:Hu.
    + apply unhealthy_dec in Hu.
      destruct (Nat.leb_spec 4 n) as [H4|H4].
      * split; [|done]. intros _. left. assert (n = 4)%nat as -> by lia. simpl.
        split; [lia|]. apply Forall_cons_2; [done | apply Forall_nil_2].
      * rewrite IH by lia. replace (5 - n)%nat with (S (5 - S n)) by lia.
        cbn [take length]. split.
        -- intros [[Hl Hall]|(pre & five & post & -> & Hl & Hall)].
           ++ left. split; [lia|]. by apply Forall_cons_2.
           ++ right. exists ((env, w) :: pre), five, post. done.
        -- intros [[Hl Hall]|(pre & five & post & E & Hl & Hall)].
           ++ left. split; [lia|]. by apply Forall_cons_1 in Hall as [_ ?].
           ++ destruct pre as [|p pre].
              ** left. destruct five as [|f five]; [done|]. simpl in E.
                 injection E as E1 E2; subst. apply Forall_cons_1 in Hall as [_ Hall].
                 simpl in Hl. split; [rewrite length_app; lia|].
                 rewrite take_app_le by lia. by apply Forall_take.
              ** right. simpl in E. injection E as E1 E2; subst. by exists pre, five, post.
    + assert (¬ unhealthy (env, w)) as Hh.
      { intros Hx%unhealthy_dec. congruence. }
      rewrite IH by lia. split.
      * intros [[Hl Hall]|(pre & five & post & -> & Hl & Hall)].
        -- right. exists [(env, w)], (take 5 cs), (drop 5 cs).
           split; [simpl; by rewrite take_drop|]. split; [|done].
           rewrite length_take. simpl in Hl. lia.
        -- right. exists ((env, w) :: pre), five, post. done.
      * intros [[Hl Hall]|(pre & five & post & E & Hl & Hall)].
        -- replace (5 - n)%nat with (S (4 - n)) in Hall by lia. simpl in Hall.
           by apply Forall_cons_1 in Hall as [? _].
        -- destruct pre as [|p pre].
           ++ destruct five as [|f five]; [done|]. simpl in E.
              injection E as E1 E2; subst. by apply Forall_cons_1 in Hall as [? _].
           ++ right. simpl in E. injection E as E1 E2; subst. by exists pre, five, post.
Qed.

(** X25. The watchdog ends the process at a check that finds the
    scheduler running and not healthy for the fifth time in a row, and at
    no other check: any check that finds it stopped or healthy sets the
    count back to zero. *)
Theorem watchdog_exits_after_five_unhealthy_checks :
  (∀ env w n, watchdog env w n = None ↔ unhealthy (env, w) ∧ (4 ≤ n)%nat)
  ∧ (∀ env w n, ¬ unhealthy (env, w) → watchdog env w n = Some 0%nat)
  ∧ (∀ checks,
       watch checks 0 = None ↔
       ∃ pre five post, checks = (pre ++ five ++ post)%list
                        ∧ length five = 5%nat ∧ Forall unhealthy five).
Proof.
  split; [|split].
  - intros env w n. rewrite watchdog_step.
    destruct (running w && negb (isHealthy env w)) eqn:Hu.
    + apply unhealthy_dec in Hu. destruct (Nat.leb_spec 4 n); [by intuition|].
      split; [done|]. intros [_ ?]. lia.
    + split; [done|]. intros [Hx%unhealthy_dec _]. congruence.
  - intros env w n Hh. rewrite watchdog_step.
    destruct (running w && negb (isHealthy env w)) eqn:Hu; [|done].
    by apply unhealthy_dec in Hu.
  - intros checks. rewrite watch_exits by lia. split.
    + intros [[Hl Hall]|?]; [|done].
      exists [], (take 5 checks), (drop 5 checks). simpl.
      split; [by rewrite take_drop|]. split; [|done]. rewrite length_take. lia.
    + intros ?. by right.
Qed.

End SchedulerLaws.

(* ===================================================================== *)
(** * Further properties of the memory tools and of log rotation *)
(* ===================================================================== *)

Section ToolLaws.
Context `{JsRuntime}.
Variable dataDir : string.

Lemma memory_not_log (rel : string) :
  String.prefix (logsDir dataDir) (memoryPath dataDir rel) = false.
Proof.
  unfold logsDir, memoryPath, path_join.
  rewrite !str_app_assoc. rewrite prefix_app_same. done.
Qed.


End ToolLaws.

Section RotationLaws.
Context `{JsRuntime}.
Variable dataDir : string.

Lemma split_dir_none (s : string) : split_dir s = None → includes "/" s = false.
Proof.
  induction s as [|c s IH]; [done|]. cbn [split_dir].
  destruct (split_dir s) as [d|]; [done|].
  destruct (Ascii.eqb_spec c slash) as [->|Hc]; [done|]. intros _.
  rewrite includes_slash_cons, (IH eq_refl), orb_false_r.
  destruct (Ascii.eqb_spec slash c) as [<-|]; done.
Qed.

Lemma split_dir_basename (p d : string) :
  split_dir p = Some d → p = d +:+ "/" +:+ basename p.
Proof.
  revert d. induction p as [|c s IH]; intros d; [done|]. cbn [split_dir basename].
  destruct (split_dir s) as [d'|] eqn:Hs.
  - intros [= <-]. rewrite str_app_cons. pose proof (IH d' eq_refl) as E.
    assert (includes "/" s = true) as ->.
    { rewrite E, includes_slash_app. rewrite (includes_slash_app "/").
      change (includes "/" "/") with true. by rewrite orb_true_r. }
    by rewrite <- E.
  - apply split_dir_none in Hs. rewrite Hs.
    destruct (Ascii.eqb_spec c slash) as [->|]; [|done]. by intros [= <-].
Qed.

Lemma dirname_basename (p dir : string) :
  dirname p = dir → dir ≠ "/" → dir ≠ "." → p = path_join dir (basename p).
Proof.
  unfold dirname. destruct (split_dir p) as [d|] eqn:Hs; [|by intros <-].
  destruct d as [|c d]; [by intros <-|]. intros <- _ _.
  by apply split_dir_basename.
Qed.

Lemma elem_keys (fs : gmap string string) (p : string) :
  p ∈ (map_to_list fs).*1 ↔ is_Some (fs !! p).
Proof.
  rewrite list_elem_of_fmap. split.
  - intros ([q x] & -> & Hin). apply elem_of_map_to_list in Hin. simpl. eauto.
  - intros [x Hx]. exists (p, x). split; [done|]. by apply elem_of_map_to_list.
Qed.

Lemma names_of_elem (dir : string) (fs : gmap string string) (f : string) :
  f ∈ names_of dir fs ↔ ∃ p, is_Some (fs !! p) ∧ dirname p = dir ∧ f = basename p.
Proof.
  unfold names_of. rewrite list_elem_of_fmap. split.
  - intros (p & -> & Hin). apply list_elem_of_filter in Hin as [Hd Hk].
    apply elem_keys in Hk. eauto.
  - intros (p & Hp & Hd & ->). exists p. split; [done|].
    apply list_elem_of_filter. split; [done|]. by apply elem_keys.
Qed.

Lemma names_of_NoDup (dir : string) (fs : gmap string string) :
  dir ≠ "/" → dir ≠ "." → NoDup (names_of dir fs).
Proof.
  intros H1 H2. unfold names_of. apply NoDup_fmap_2_strong.
  - intros p q Hp Hq E. apply list_elem_of_filter in Hp as [Hp _].
    apply list_elem_of_filter in Hq as [Hq _].
    rewrite (dirname_basename p dir Hp H1 H2), (dirname_basename q dir Hq H1 H2).
    by rewrite E.
  - apply NoDup_filter, NoDup_fst_map_to_list.
Qed.

Lemma unlink_each_deletes (ps : list string) (d : Disk) :
  NoDup ps → (∀ p, p ∈ ps → is_Some (files d !! p)) →
  ∀ q, q ∈ ps → files (unlink_each ps d).2 !! q = None.
Proof.
  revert d. induction ps as [|p ps IH]; intros d Hnd Hex q Hq.
  { by apply elem_of_nil in Hq. }
  apply NoDup_cons in Hnd as [Hp Hnd].
  cbn [unlink_each]. unfold bind, unlinkSync.
  destruct (Hex p) as [x Hx]; [by left|]. rewrite Hx.
  set (d1 := record (Unlink p) d).
  assert (files d1 = delete p (files d)) as Hd1 by done.
  apply elem_of_cons in Hq as [->|Hq].
  - destruct (unlink_each_files ps d1) as [_ Hn].
    destruct (Hn p) as [->| ->]; [|done]. rewrite Hd1. apply lookup_delete_eq.
  - apply IH; [done| |done]. intros p' Hp'. rewrite Hd1.
    rewrite lookup_delete_ne by (intros ->; done). apply Hex. by right.
Qed.

Lemma NoDup_bool_filter {A} (f : A → bool) (l : list A) :
  NoDup l → NoDup (List.filter f l).
Proof.
  induction 1 as [|x l Hx Hl IH]; simpl; [constructor|].
  destruct (f x); [|done]. constructor; [|done].
  intros Hin%list_elem_of_In%filter_In. destruct Hin as [Hin _].
  by apply list_elem_of_In in Hin.
Qed.

Lemma logs_dir_good (name : string) :
  dirname (logsPath dataDir name) ≠ "/" ∧ dirname (logsPath dataDir name) ≠ "."
  ∧ logsPath dataDir name =
      path_join (dirname (logsPath dataDir name)) (basename (logsPath dataDir name)).
Proof.
  assert (dirname (logsPath dataDir name) ≠ "/"
          ∧ dirname (logsPath dataDir name) ≠ ".") as [H1 H2].
  { assert (∃ r, dirname (logsPath dataDir name) = path_join dataDir "logs" +:+ r)
      as [r Hr].
    { apply dirname_prefix, path_join_ne_empty. }
    rewrite Hr.
    split; intros E; apply (f_equal String.length) in E.
    all: unfold path_join in E.
    all: rewrite !str_length_app in E.
    all: simpl in E; lia. }
  split; [done|]. split; [done|]. by apply dirname_basename.
Qed.

Lemma rotateIfNeeded_prunes (p : string) (env : Env) (d : Disk) (old : string) :
  dirname p ≠ "/" → dirname p ≠ "." →
  files d !! p = Some old →
  LOG_MAX_BYTES ≤ Z.of_nat (String.length old) →
  ∃ d2 keep, rotateIfNeeded p env d = (Ok tt, d2)
    ∧ files d2 !! p = None
    ∧ (length keep ≤ LOG_KEEP_ROTATED)%nat
    ∧ ∀ f, f ∈ names_of (dirname p) (files d2) →
           f ∈ rotated_logs (basename p) (names_of (dirname p) (files d2)) →
           f ∈ keep.
Proof.
  intros G1 G2 Hf Hsz.
  unfold rotateIfNeeded, try_catch, bind at 1, existsSync. simpl. rewrite Hf. simpl.
  unfold bind at 1, statSync_size. simpl. rewrite Hf.
  destruct (Z.ltb_spec (Z.of_nat (String.length old)) LOG_MAX_BYTES) as [?|_]; [lia|].
  unfold bind at 1, renameSync. simpl. rewrite Hf.
  unfold bind at 1, readdirSync. simpl. rewrite Hf.
  set (dir := dirname p). set (base := basename p).
  set (rotated := p +:+ "." +:+ dashed (now_iso env)).
  set (fs1 := <[rotated := old]> (delete p (files d))).
  fold (names_of dir fs1). fold (rotated_logs base (names_of dir fs1)).
  set (sorted := reverse (merge_sort String.le (rotated_logs base (names_of dir fs1)))).
  match goal with |- context [unlink_each ?ps ?d0] => set (d1 := d0) end.
  assert (files d1 = fs1) as Hd1.
  { unfold d1, fs1, record. simpl. by rewrite Hf. }
  assert (NoDup sorted) as Hnd.
  { unfold sorted. rewrite reverse_Permutation, merge_sort_Permutation.
    unfold rotated_logs. apply NoDup_bool_filter. by apply names_of_NoDup. }
  assert (∀ v, v ∈ sorted → v ∈ names_of dir fs1) as Hsn.
  { intros v Hv. unfold sorted in Hv.
    rewrite reverse_Permutation, merge_sort_Permutation in Hv.
    unfold rotated_logs in Hv. apply list_elem_of_In, filter_In in Hv as [Hv _].
    by apply list_elem_of_In. }
  assert (∀ q, is_Some (fs1 !! q) → dirname q = dir → q = path_join dir (basename q))
    as Hrec.
  { intros q _ Hq. by apply dirname_basename. }
  pose proof (unlink_each_deletes (path_join dir <$> drop LOG_KEEP_ROTATED sorted) d1)
    as Hdel.
  pose proof (unlink_each_files (path_join dir <$> drop LOG_KEEP_ROTATED sorted) d1)
    as [_ Hkeep].
  assert (files (unlink_each (path_join dir <$> drop LOG_KEEP_ROTATED sorted) d1).2 !! p
          = None) as Hp.
  { destruct (Hkeep p) as [->| ->]; [|done]. rewrite Hd1. unfold fs1.
    rewrite lookup_insert_ne by apply rotated_ne. apply lookup_delete_eq. }
  assert (∀ f, f ∈ names_of dir
                 (files (unlink_each (path_join dir <$> drop LOG_KEEP_ROTATED sorted) d1).2) →
               f ∈ rotated_logs base (names_of dir
                 (files (unlink_each (path_join dir <$> drop LOG_KEEP_ROTATED sorted) d1).2)) →
               f ∈ take LOG_KEEP_ROTATED sorted) as Hres.
  { intros f Hin Hrot.
    apply names_of_elem in Hin as (q & Hq & Hqd & ->).
    assert (is_Some (fs1 !! q)) as Hq1.
    { destruct (Hkeep q) as [E|E]; rewrite E in Hq; [by rewrite <- Hd1 | by destruct Hq]. }
    assert (basename q ∈ sorted) as Hs.
    { unfold sorted. rewrite reverse_Permutation, merge_sort_Permutation.
      unfold rotated_logs in *. apply list_elem_of_In, filter_In.
      apply list_elem_of_In, filter_In in Hrot as [_ Hpred]. split; [|done].
      apply list_elem_of_In, names_of_elem. eauto. }
    rewrite <- (take_drop LOG_KEEP_ROTATED sorted) in Hs.
    apply elem_of_app in Hs as [Hs|Hs]; [done|]. exfalso.
    assert (files (unlink_each (path_join dir <$> drop LOG_KEEP_ROTATED sorted) d1).2
              !! path_join dir (basename q) = None) as Hnone.
    { apply Hdel.
      - apply NoDup_fmap_2; [intros a b; apply path_join_inj|].
        eapply sublist_NoDup; [done | apply sublist_drop].
      - intros x (v & -> & Hv)%list_elem_of_fmap. rewrite Hd1.
        assert (v ∈ sorted) as Hvs.
        { rewrite <- (take_drop LOG_KEEP_ROTATED sorted). apply elem_of_app. by right. }
        apply Hsn, names_of_elem in Hvs as (q' & Hq' & Hqd' & ->).
        by rewrite <- (Hrec q' Hq' Hqd').
      - apply list_elem_of_fmap. eauto. }
    rewrite <- (Hrec q Hq1 Hqd) in Hnone. rewrite Hnone in Hq. by destruct Hq. }
  destruct (unlink_each (path_join dir <$> drop LOG_KEEP_ROTATED sorted) d1)
    as [[[]|e] d2]; simpl in *;
    exists d2, (take LOG_KEEP_ROTATED sorted);
    (split; [done|]); (split; [done|]); (split; [rewrite length_take; lia | done]).
Qed.

(** X27. After [appendLog] has rotated a log that reached the size
    limit, the directory of the logs, which holds files only, holds at
    most two rotated copies of it. *)
Theorem appendLog_keeps_at_most_two_rotated_logs
    (name : string) (entry : LogEntry) (env : Env) (d : Disk) (old : string) :
  let p := logsPath dataDir name in
  files d !! p = Some old →
  LOG_MAX_BYTES ≤ Z.of_nat (String.length old) →
  let d' := (appendLog dataDir name entry env d).2 in
  ∃ names, (readdirSync (dirname p) d').1 = Ok names
    ∧ (length (rotated_logs (basename p) names) ≤ LOG_KEEP_ROTATED)%nat.
Proof.
  intros p Hf Hsz d'. exists (names_of (dirname p) (files d')). split; [done|].
  destruct (logs_dir_good name) as (G1 & G2 & Hp). fold p in G1, G2, Hp.
  destruct (rotateIfNeeded_prunes p env d old G1 G2 Hf Hsz)
    as (d2 & keep & E & Hnone & Hlen & Hkeep).
  assert (files d' = <[p := JSON_stringify_entry (stamped env entry) +:+ LF]> (files d2))
    as Hd'.
  { unfold d', appendLog, bind. fold p. rewrite E, appendJsonl_run. simpl.
    by rewrite Hnone. }
  etrans; [|exact Hlen]. apply submseteq_length, NoDup_submseteq.
  { unfold rotated_logs. apply NoDup_bool_filter. by apply names_of_NoDup. }
  intros f Hrot. pose proof Hrot as Hrot'.
  unfold rotated_logs in Hrot. apply list_elem_of_In, filter_In in Hrot as [Hin Hpred].
  apply list_elem_of_In, names_of_elem in Hin as (q & Hq & Hqd & ->).
  apply andb_true_iff in Hpred as [Hpre Hne].
  apply negb_true_iff in Hne. apply String.eqb_neq in Hne.
  assert (q ≠ p) as Hqp by (intros ->; done).
  rewrite Hd', lookup_insert_ne in Hq by done.
  assert (basename q ∈ names_of (dirname p) (files d2)) as Hin2.
  { apply names_of_elem. eauto. }
  apply Hkeep; [done|].
  unfold rotated_logs. apply list_elem_of_In, filter_In. split.
  - by apply list_elem_of_In.
  - apply andb_true_iff. split; [done|]. apply negb_true_iff. by apply String.eqb_neq.
Qed.

End RotationLaws.

(* ===================================================================== *)
(** * The index of the knowledge base, and the cycle of a tick *)
(* ===================================================================== *)

Section IndexLaws.
Context `{JsRuntime} `{IndexText}.
Variable dataDir : string.

Lemma updateIndexEntry_index (t : string) (d : Disk) :
  files (updateIndexEntry dataDir t d).2 !! indexPath dataDir =
    Some (index_text
            (default ("# Knowledge Base Index" +:+ LF +:+ LF)
                     (files d !! indexPath dataDir))
            t
            (match files d !! topicFile dataDir t with
             | Some text => Some (Some text)
             | None => None
             end)).
Proof.
  unfold updateIndexEntry, bind, ensureDir, mkdirSync, existsSync, readText,
    readFileSync, try_catch, ret, topicFile. simpl.
  fold (indexPath dataDir).
  destruct (files d !! indexPath dataDir) as [idx|] eqn:Hi; simpl;
    rewrite ?Hi; simpl;
    destruct (files d !! path_join (knowledgeDir dataDir) (t +:+ ".md")) as [tx|] eqn:Ht;
    simpl; rewrite ?Ht; simpl; rewrite writeText_run; simpl;
    by rewrite lookup_insert_eq.
Qed.

(** X28. [knowledgeWrite] to a valid topic leaves the topic file
    written and the index rebuilt from the old index (or from the bare
    heading, when there was none) and the new text of the topic. *)
Theorem knowledgeWrite_refreshes_the_index
    (topic t content : string) (mode : WriteMode) (d : Disk) :
  sanitizeTopic topic = Ok t →
  let r := knowledgeWrite dataDir topic content mode d in
  ∃ new,
    files r.2 !! topicFile dataDir t = Some new
    ∧ files r.2 !! indexPath dataDir =
        Some (index_text
                (default ("# Knowledge Base Index" +:+ LF +:+ LF)
                         (files d !! indexPath dataDir))
                t (Some (Some new))).
Proof.
  intros Hok r. subst r.
  destruct (knowledgeWrite_run dataDir topic t content mode d Hok) as (d1 & Hd1 & E).
  pose proof (knowledgeWrite_topic_file dataDir topic t content mode d Hok) as Ht.
  rewrite E in Ht |- *. simpl in Ht |- *.
  set (new := match mode with
              | overwrite => content
              | append => appended_text (files d !! topicFile dataDir t) content
              end) in *.
  exists new. split; [done|].
  pose proof Hok as Hok'. apply sanitizeTopic_ok in Hok' as (_&_&_&_&_&Hv&_).
  destruct (topic_index_paths dataDir t Hv) as [P1 P2].
  set (d2 := (writeText (topicFile dataDir t) new d1).2).
  assert (files d2 !! topicFile dataDir t = Some new) as Hnew by apply writeText_target.
  assert (files d2 !! indexPath dataDir = files d !! indexPath dataDir) as Hidx.
  { unfold d2. rewrite writeText_other; [by rewrite Hd1 | by apply not_eq_sym|].
    intros E'.
    unfold indexPath, topicFile in E'. rewrite tmp_of_join in E'.
    apply path_join_inj in E'. unfold INDEX_FILE in E'.
    destruct (valid_topic_facts t Hv) as ((a & rest & -> & Ha) & _).
    rewrite !str_app_cons in E'. injection E' as <- _. done. }
  by rewrite updateIndexEntry_index, Hidx, Hnew.
Qed.

End IndexLaws.

Section CycleLaws.
Context `{JsRuntime} `{Collaborators}.
Variable config : AppConfig.

Lemma episode_start_control (mode : Mode) (state : StateData) (env : Env)
    (w : World) :
  same_control w (episode_start config mode state env w).2.
Proof.
  destruct mode; [apply keeps_think_start | apply keeps_thinkDeep_start].
Qed.

Lemma idle_scheduled (w : World) :
  running w = true → paused w = false → inflight w = [] → pending w = [] →
  idle (scheduled w)
  ∧ pending (scheduled w) = [mkTimer (next_tid w) (wakeupSec w * 1000)].
Proof.
  intros Hr Hp Hi Hpe. unfold idle, scheduled. simpl. rewrite Hpe. simpl.
  repeat split; try done. by exists (next_tid w).
Qed.

(** A timer firing on an idle scheduler: what [tick] leaves. *)
Lemma tick_from_idle (env : Env) (w0 : World) :
  running w0 = true → paused w0 = false → inflight w0 = [] → pending w0 = [] →
  let w1 := (tick config env w0).2 in
  (idle w1 ∧ pending w1 = [mkTimer (next_tid w0) (wakeupSec w0 * 1000)]
   ∧ (tickCount w1 = tickCount w0 ∨ tickCount w1 = tickCount w0 + 1))
  ∨ (running w1 = true ∧ paused w1 = false ∧ pending w1 = []
     ∧ next_tid w1 = next_tid w0 ∧ wakeupSec w1 = wakeupSec w0
     ∧ tickCount w1 = tickCount w0 + 1
     ∧ ∃ ep, inflight w1 = [ep]).
Proof.
  intros Hr Hp Hi Hpe w1. subst w1.
  destruct (loadState_returns (dataDir config) env (disk w0)) as (state & d1 & Hl).
  destruct (exceeds (spentUsd state) (bgBudgetLimit config)) eqn:Hb.
  - left.
    assert (tick config env w0 =
              (Ok tt, scheduled (set_disk (onLog "Background budget exceeded, skipping"
                                                 env d1) w0))) as ->.
    { unfold tick, bind at 1 2, get. simpl. rewrite Hr, Hp. simpl.
      rewrite on_disk_run, Hl. simpl. rewrite Hb.
      unfold bind, log, modify. simpl. rewrite scheduleNext_run. simpl.
      by rewrite ?Hr. }
    simpl.
    destruct (idle_scheduled (set_disk (onLog "Background budget exceeded, skipping"
                                              env d1) w0)) as [A B]; try done.
    split; [done|]. split; [done|]. by left.
  - rewrite (tick_runs config env w0 state d1 Hr Hp Hl Hb). cbv zeta.
    set (w' := set_tickCount (tickCount w0 + 1) (set_disk d1 w0)).
    set (mode := if isDeep config (tickCount w0 + 1) then Deep else Light).
    pose proof (episode_start_control mode state env w') as Hc.
    pose proof (episode_start_inflight config mode state env w') as Hin.
    destruct (episode_start config mode state env w') as [[[]|err] w2]; simpl in *.
    + right. destruct Hc as (Ht & Hpa & Hru & Hwk & Htc & _ & Hpen & Hnt).
      subst w'. simpl in *.
      destruct Hin as [prompt Hin]. rewrite Hi in Hin. simpl in Hin.
      rewrite Hru, Hpa, Hpen, Hnt, Hwk, Htc. repeat split; try done. eauto.
    + left. destruct Hc as (Ht & Hpa & Hru & Hwk & Htc & _ & Hpen & Hnt).
      subst w'. simpl in *.
      destruct (tick_catch_run config env err w2) as (pre & d' & E & _).
      unfold bind. rewrite E. rewrite tick_end_run. cbn [snd]. cbv zeta.
      change (running (set_disk d' w2)) with (running w2). rewrite Hru, Hr.
      destruct (idle_scheduled (set_lastTickAt (now_ms env) (set_disk d' w2)))
        as [A B]; [simpl; congruence..|].
      split; [exact A|]. split; [rewrite B; simpl; by rewrite Hnt, Hwk|].
      right. simpl. done.
Qed.

(** X29. From a scheduler that waits for its one timer, the fire of
    that timer and the end of the query it may have started lead back to a
    scheduler that waits for exactly one timer, one wake-up interval
    ahead; the tick count has grown by one, or not at all when the tick
    was skipped for the budget. *)
Theorem one_tick_leaves_one_timer
    (env1 env2 : Env) (id : nat) (run : QueryRun) (w : World) :
  idle w → timer w = Some id →
  let w1 := (step config env1 (ETimerFires id) w).2 in
  let w2 := (step config env2 (EQueryEnds 0 run) w1).2 in
  idle w2
  ∧ pending w2 = [mkTimer (next_tid w) (wakeupSec w * 1000)]
  ∧ (tickCount w2 = tickCount w ∨ tickCount w2 = tickCount w + 1).
Proof.
  intros (Hr & Hp & Hi & id' & Ht & Hpe) Ht' w1 w2.
  rewrite Ht in Ht'. injection Ht' as ->.
  destruct (pending w) as [|t [|??]] eqn:Hpw; try discriminate Hpe.
  simpl in Hpe. injection Hpe as Hid.
  set (w0 := set_timer None (set_pending [] (next_tid w) w)).
  assert (w1 = (tick config env1 w0).2) as Hw1.
  { unfold w1. cbn [step]. unfold timer_fires, bind at 1, get. simpl. rewrite Hpw.
    simpl. rewrite Hid, Nat.eqb_refl. simpl.
    unfold bind at 1 2, modify. simpl. rewrite Hpw. simpl.
    by rewrite Hid, Nat.eqb_refl. }
  destruct (tick_from_idle env1 w0 Hr Hp Hi eq_refl)
    as [(Hidle & Hpen & Htc) | (Hr1 & Hp1 & Hpe1 & Hn1 & Hw1' & Htc1 & ep & Hi1)];
    rewrite <- Hw1 in *.
  - assert (w2 = w1) as ->.
    { unfold w2. cbn [step]. unfold tick_resume, bind, get. simpl.
      destruct Hidle as (_ & _ & -> & _). done. }
    done.
  - destruct (tick_resume_only_disk config 0 ep run env2 w1) as (d' & E).
    { by rewrite Hi1. }
    unfold w2. cbn [step]. rewrite E, tick_end_run. cbn [snd]. cbv zeta.
    change (running (set_disk d' (set_inflight (delete 0%nat (inflight w1)) w1)))
      with (running w1). rewrite Hr1.
    destruct (idle_scheduled
                (set_lastTickAt (now_ms env2)
                   (set_disk d' (set_inflight (delete 0%nat (inflight w1)) w1))))
      as [A B]; [simpl; try done; by rewrite Hi1..|].
    split; [exact A|]. split; [rewrite B; simpl; by rewrite Hn1, Hw1'|].
    right. simpl. done.
Qed.

End CycleLaws.

(* ===================================================================== *)
(** * The theorems at concrete inputs, and the inputs that refute *)
(* ===================================================================== *)

Section Instances.
Import Demo.


(** C2, refuted as stated: the scheduler is paused while an episode is in
    flight; when the episode ends, the paused flag is still set, no
    [resume] has been called, and a new timer is pending. *)
Lemma timer_scheduled_while_paused_without_resume :
  paused paused_mid_tick = true
  ∧ pending paused_mid_tick = []
  ∧ paused (step config (at_ms 3000) (EQueryEnds 0 good_run) paused_mid_tick).2 = true
  ∧ pending (step config (at_ms 3000) (EQueryEnds 0 good_run) paused_mid_tick).2
    = [mkTimer 1 300000].
Proof. vm_compute. repeat split; reflexivity. Qed.

Lemma paused_timer_is_a_noop_witness :
  paused (step config (at_ms 2000) (ETimerFires 0) paused_idle).2 = true
  ∧ no_new_timer paused_idle (step config (at_ms 2000) (ETimerFires 0) paused_idle).2.
Proof.
  apply (proj1 (proj2 (proj2 (paused_timer_is_a_noop config (at_ms 2000))))
           paused_idle (ETimerFires 0)).
  - vm_compute. reflexivity.
  - reflexivity.
Defined.

(** C3, refuted as stated: on a scheduler that is not running, [resume]
    leaves the paused flag set. *)
Lemma resume_leaves_flag_when_stopped :
  paused (run config message_while_stopped fresh) = true.
Proof. vm_compute. reflexivity. Qed.

(** The handle and the pending timers can differ: [resume] during an
    episode finds no handle and schedules a timer, and the end of the
    episode schedules another and holds only that one. *)
Lemma resume_mid_tick_leaves_two_timers :
  pending (run config message_mid_tick fresh) = [mkTimer 1 300000; mkTimer 2 300000]
  ∧ timer (run config message_mid_tick fresh) = Some 2%nat.
Proof. vm_compute. split; reflexivity. Qed.

Lemma resume_schedules_once_when_running_witness :
  resume paused_no_timer = (Ok tt, scheduled (set_paused false paused_no_timer))
  ∧ pending (scheduled (set_paused false paused_no_timer)) =
      (pending paused_no_timer
         ++ [mkTimer (next_tid paused_no_timer) (wakeupSec paused_no_timer * 1000)])%list
  ∧ timer (scheduled (set_paused false paused_no_timer)) =
      Some (next_tid paused_no_timer).
Proof.
  apply (proj1 (proj2 resume_schedules_once_when_running) paused_no_timer).
  - vm_compute. reflexivity.
  - vm_compute. reflexivity.
Defined.


(** C5, refuted as stated: with deep mode disabled in the configuration,
    the third tick starts a light episode. *)
Lemma third_tick_is_light_without_deep_mode :
  tickCount (run config_light three_ticks (new config_light empty_disk)) = 3
  ∧ 3 mod 3 = 0
  ∧ ep_mode <$> inflight (run config_light three_ticks (new config_light empty_disk))
    = [Light].
Proof. vm_compute. repeat split; reflexivity. Qed.

Lemma tick_kind_follows_tick_number_witness :
  tickCount (tick config (at_ms 2000) started).2 = tickCount started + 1
  ∧ (inflight (tick config (at_ms 2000) started).2 = inflight started
     ∨ ∃ prompt,
         inflight (tick config (at_ms 2000) started).2 =
           (inflight started
              ++ [mkEpisode (expected_mode config (tickCount started + 1)) prompt])%list).
Proof.
  edestruct (tick_kind_follows_tick_number config (at_ms 2000) started)
    as (_ & Hn & Hin & _).
  - vm_compute. reflexivity.
  - vm_compute. reflexivity.
  - vm_compute. reflexivity.
  - vm_compute. reflexivity.
  - split; [exact Hn | exact Hin].
Defined.

(** C8, refuted as stated: a scheduler configured with a default interval
    of one second holds the interval 1, and [loadState] returns the
    interval 5 that the state file holds. *)
Lemma wakeup_interval_out_of_range :
  wakeupSec (new config_fast empty_disk) = 1
  ∧ ¬ in_range 1
  ∧ (∃ st, (loadState "/repo/data" (at_ms 0) (disk_with_state (only_wakeup 5))).1
           = Ok st ∧ bgWakeupSec st = 5)
  ∧ ¬ in_range 5.
Proof.
  split; [reflexivity|]. split; [unfold in_range; lia|]. split; [|unfold in_range; lia].
  eexists. split; [vm_compute; reflexivity | reflexivity].
Qed.

Lemma wakeup_interval_is_set_only_in_range_witness :
  wakeupSec (set_next_wakeup (deps config (at_ms 5000)) 600 started).2 = 600
  ∧ ∃ st, files (disk (set_next_wakeup (deps config (at_ms 5000)) 600 started).2)
            !! statePath (dataDir config) = Some (JSON_stringify_state st)
          ∧ bgWakeupSec st = 600.
Proof.
  apply (proj1 (wakeup_interval_is_set_only_in_range config (at_ms 5000))
           started 600).
  unfold in_range. lia.
Defined.



Lemma state_and_memory_writes_are_atomic_witness :
  <[tmp_of (statePath "/repo/data") := "ne"]>
    (files (disk_with_state (only_wakeup 600))) !! statePath "/repo/data"
  = files (disk_with_state (only_wakeup 600)) !! statePath "/repo/data"
  ∨ <[tmp_of (statePath "/repo/data") := "ne"]>
      (files (disk_with_state (only_wakeup 600))) !! statePath "/repo/data"
    = Some "new".
Proof.
  apply (proj1 (state_and_memory_writes_are_atomic "/repo/data")
           (statePath "/repo/data") "new" (disk_with_state (only_wakeup 600))).
  rewrite writeText_calls. simpl. set_solver.
Defined.

(** C7, refuted as stated: an entry is appended to the event log in
    place, by one [appendFileSync] and no temporary file; a crash in the
    middle of it leaves a log that is neither the old one nor the new
    one, its last line cut short. *)
Lemma appendJsonl_tears_the_log :
  torn_log ∈ crash_states (calls_of (appendJsonl events_path an_entry) disk_with_log)
                          (files disk_with_log)
  ∧ torn_log !! events_path ≠ files disk_with_log !! events_path
  ∧ torn_log !! events_path ≠
      files (appendJsonl events_path an_entry disk_with_log).2 !! events_path
  ∧ ¬ Forall by_rename (calls_of (appendJsonl events_path an_entry) disk_with_log).
Proof.
  split; [|split; [|split]].
  - apply list_elem_of_lookup. exists 3%nat. vm_compute. reflexivity.
  - vm_compute. intros [=].
  - vm_compute. intros [=].
  - rewrite (calls_of_journal _ _ _ (f_equal (λ x, journal x.2)
                                         (appendJsonl_run _ _ _))).
    intros Hall. apply Forall_cons_1 in Hall as [_ Hall].
    apply Forall_cons_1 in Hall as [Hbad _]. exact Hbad.
Qed.

Lemma invalid_topic_is_answered_with_a_warning_witness :
  ∃ e, sanitizeTopic "../../etc/passwd" = Throw e
       ∧ err_message e ∈ rejections (trim "../../etc/passwd")
       ∧ knowledgeRead "/repo/data" "../../etc/passwd" empty_disk =
           (Ok ("Warning: Invalid topic: " +:+ err_message e), empty_disk)
       ∧ knowledgeWrite "/repo/data" "../../etc/passwd" "x" overwrite empty_disk =
           (Ok ("Warning: Invalid topic: " +:+ err_message e), empty_disk).
Proof.
  apply (proj1 (invalid_topic_is_answered_with_a_warning "/repo/data")).
  right. left. vm_compute. exact I.
Defined.

Lemma loadState_reads_back_what_was_saved_witness :
  (loadState "/repo/data" (at_ms 2)
     (saveState "/repo/data" overspent empty_disk).2).1 = Ok overspent
  ∧ (loadState "/repo/data" (at_ms 1) empty_disk).1 = Ok (defaultState (at_ms 1))
  ∧ (loadState "/repo/data" (at_ms 2)
       (loadState "/repo/data" (at_ms 1) empty_disk).2).1
    = Ok (defaultState (at_ms 1)).
Proof.
  destruct (loadState_reads_back_what_was_saved "/repo/data" (at_ms 1) (at_ms 2)
              overspent empty_disk demo_roundtrip) as [[Hsaved _] Hfresh].
  split; [exact Hsaved|].
  destruct Hfresh as (Hfirst & Hsecond & _).
  - left. vm_compute. reflexivity.
  - split; [exact Hfirst | exact Hsecond].
Defined.


Lemma appendJsonl_keeps_the_log_in_order_witness :
  files (appended events_path [an_entry; another_entry] disk_with_log) !! events_path
  = Some ("{}" +:+ LF +:+ JSON_stringify_entry an_entry +:+ LF
               +:+ JSON_stringify_entry another_entry +:+ LF).
Proof.
  destruct (appendJsonl_keeps_the_log_in_order events_path [an_entry; another_entry]
              disk_with_log) as [Hlog _].
  - discriminate.
  - rewrite Hlog. vm_compute. reflexivity.
Defined.

Lemma clipText_length_witness :
  clipText [104; 101; 108; 108; 111]%N 4 = [104; 101; 108; ELLIPSIS]%N
  ∧ Z.of_nat (length (clipText [104; 101; 108; 108; 111]%N 4)) = 4.
Proof.
  apply (proj1 (proj2 (clipText_length [104; 101; 108; 108; 111]%N 4))).
  simpl. lia.
Defined.

Lemma sanitizeTopic_accepts_plain_names_witness :
  "notes.v2" = trim " notes.v2 "
  ∧ (1 ≤ String.length "notes.v2" ≤ 100)%nat
  ∧ all_chars is_topic_char "notes.v2" = true
  ∧ (∃ a z, String.get 0 "notes.v2" = Some a
            ∧ String.get (String.length "notes.v2" - 1) "notes.v2" = Some z
            ∧ is_alnum a = true ∧ is_alnum z = true)
  ∧ includes ".." "notes.v2" = false
  ∧ is_reserved (toLowerCase "notes.v2") = false
  ∧ sanitizeTopic "notes.v2" = Ok "notes.v2".
Proof.
  apply (sanitizeTopic_accepts_plain_names " notes.v2 " "notes.v2").
  vm_compute. reflexivity.
Defined.

Lemma knowledgeWrite_then_knowledgeRead_witness :
  (knowledgeWrite "/repo/data" " notes " "hello" overwrite disk_with_topic).1
  = Ok ("Knowledge '" +:+ "notes" +:+ "' saved (overwrite).")
  ∧ (knowledgeRead "/repo/data" "notes"
       (knowledgeWrite "/repo/data" " notes " "hello" overwrite disk_with_topic).2).1
    = Ok "hello".
Proof.
  apply (knowledgeWrite_then_knowledgeRead "/repo/data" " notes " "notes" "notes").
  - vm_compute. reflexivity.
  - vm_compute. reflexivity.
Defined.


Lemma knowledgeWrite_leaves_other_topics_witness :
  files (knowledgeWrite "/repo/data" "ideas" "an idea" append disk_with_topic).2
    !! topicFile "/repo/data" "notes"
  = files disk_with_topic !! topicFile "/repo/data" "notes".
Proof.
  apply (knowledgeWrite_leaves_other_topics "/repo/data" "ideas" "ideas" "notes" "notes").
  - vm_compute. reflexivity.
  - vm_compute. reflexivity.
  - discriminate.
Defined.

Lemma knowledgeWrite_refreshes_the_index_witness :
  ∃ new,
    files (knowledgeWrite "/repo/data" "notes" "line two" append disk_with_topic).2
      !! topicFile "/repo/data" "notes" = Some new
    ∧ files (knowledgeWrite "/repo/data" "notes" "line two" append disk_with_topic).2
        !! indexPath "/repo/data" =
        Some (index_text
                (default ("# Knowledge Base Index" +:+ LF +:+ LF)
                         (files disk_with_topic !! indexPath "/repo/data"))
                "notes" (Some (Some new))).
Proof.
  apply (knowledgeWrite_refreshes_the_index "/repo/data" "notes" "notes").
  vm_compute. reflexivity.
Defined.

Lemma loadScratchpad_returns_what_is_stored_witness :
  (loadScratchpad "/repo/data" (at_ms 1) disk_with_scratchpad).1
  = Ok "remember the milk"
  ∧ files (loadScratchpad "/repo/data" (at_ms 1) disk_with_scratchpad).2
    = files disk_with_scratchpad.
Proof.
  apply (proj1 (proj2 (loadScratchpad_returns_what_is_stored "/repo/data"
                         (at_ms 1) (at_ms 2) disk_with_scratchpad))).
  vm_compute. reflexivity.
Defined.

(** The host of daemon.ts logs to the event log, which is not the state
    file. *)
Lemma demo_log_spares : log_spares (statePath "/repo/data").
Proof. intros text env d. apply (appendLog_spares_state "/repo/data"). Qed.

Lemma appendLog_then_readJsonlTail_witness :
  ∃ vs, (readJsonlTail "/repo/data" "events.jsonl" 10
           (appendLog "/repo/data" "events.jsonl" an_entry (at_ms 1) disk_with_log).2).1
        = Ok (vs ++ [JSON_stringify_entry (stamped (at_ms 1) an_entry)])%list.
Proof.
  refine (appendLog_then_readJsonlTail "/repo/data" "events.jsonl" an_entry (at_ms 1)
            disk_with_log 10 (JSON_stringify_entry (stamped (at_ms 1) an_entry))
            _ _ _ _ _ _ _).
  - right. exists "{}". vm_compute. reflexivity.
  - vm_compute. reflexivity.
  - vm_compute. discriminate.
  - vm_compute. reflexivity.
  - vm_compute. reflexivity.
  - vm_compute. reflexivity.
  - lia.
Defined.

Lemma start_schedules_once_and_persists_witness :
  (start config (at_ms 1000) fresh).1 = Ok tt
  ∧ running (start config (at_ms 1000) fresh).2 = true
  ∧ paused (start config (at_ms 1000) fresh).2 = false
  ∧ timer (start config (at_ms 1000) fresh).2 = Some (next_tid fresh)
  ∧ pending (start config (at_ms 1000) fresh).2 =
      (pending fresh ++ [mkTimer (next_tid fresh) (wakeupSec fresh * 1000)])%list
  ∧ (∃ st, (loadState (dataDir config) (at_ms 1000) (disk fresh)).1 = Ok st
           ∧ (loadState (dataDir config) (at_ms 2000)
                (disk (start config (at_ms 1000) fresh).2)).1
             = Ok (set_bgEnabled true st))
  ∧ start config (at_ms 2000) (start config (at_ms 1000) fresh).2
    = (Ok tt, (start config (at_ms 1000) fresh).2).
Proof.
  apply (start_schedules_once_and_persists config (at_ms 1000) (at_ms 2000) fresh).
  - exact demo_roundtrip.
  - exact demo_log_spares.
  - reflexivity.
Defined.

Lemma stop_unschedules_and_persists_witness :
  (stop config (at_ms 5000) started).1 = Ok tt
  ∧ running (stop config (at_ms 5000) started).2 = false
  ∧ timer (stop config (at_ms 5000) started).2 = None
  ∧ (∀ id t, timer started = Some id →
             t ∈ pending (stop config (at_ms 5000) started).2 → tid t ≠ id)
  ∧ no_new_timer started (stop config (at_ms 5000) started).2
  ∧ (∃ st, (loadState (dataDir config) (at_ms 5000) (disk started)).1 = Ok st
           ∧ (loadState (dataDir config) (at_ms 6000)
                (disk (stop config (at_ms 5000) started).2)).1
             = Ok (set_bgEnabled false st)).
Proof.
  apply (stop_unschedules_and_persists config (at_ms 5000) (at_ms 6000) started).
  - exact demo_roundtrip.
  - exact demo_log_spares.
Defined.

Lemma stopped_scheduler_stays_inert_witness :
  inert fresh
    (run config
       ((at_ms 500, ETimerFires 0%nat) :: (at_ms 600, EInjectObservation "a file changed")
          :: message_while_stopped)
       fresh).
Proof.
  apply (stopped_scheduler_stays_inert config).
  - reflexivity.
  - repeat (apply Forall_cons_2; [reflexivity|]). apply Forall_nil_2.
Defined.

Lemma restore_follows_the_persisted_flag_witness :
  running (restore config (at_ms 9000)
             (new config (disk (stop config (at_ms 5000) started).2))).2 = false
  ∧ running (restore config (at_ms 9000)
               (new config (disk (start config (at_ms 1000) fresh).2))).2 = true.
Proof.
  split.
  - apply (proj1 (restore_follows_the_persisted_flag config (at_ms 5000) (at_ms 9000)
                    started demo_roundtrip demo_log_spares)).
    reflexivity.
  - apply (proj1 (restore_follows_the_persisted_flag config (at_ms 1000) (at_ms 9000)
                    fresh demo_roundtrip demo_log_spares)).
    + reflexivity.
    + reflexivity.
Defined.


Lemma observations_go_into_the_next_prompt_once_witness :
  ∃ w',
    episode_start config Light (defaultState (at_ms 0)) (at_ms 2000)
      (foldl (λ w t, (injectObservation t w).2) started
             ["a file changed"; "a message came"])
    = (Ok tt, w')
    ∧ observations w' = []
    ∧ ∃ base, inflight w' =
        (inflight started
           ++ [mkEpisode Light
                 (base +:+ observations_block ["a file changed"; "a message came"])])%list.
Proof.
  assert (["a file changed"; "a message came"] ≠ []) as Hne by discriminate.
  pose proof (observations_go_into_the_next_prompt_once config
                ["a file changed"; "a message came"] Light (defaultState (at_ms 0))
                (at_ms 2000) started Hne eq_refl) as Hm.
  cbv zeta in Hm. revert Hm.
  destruct (episode_start config Light (defaultState (at_ms 0)) (at_ms 2000)
              (foldl (λ w t, (injectObservation t w).2) started
                     ["a file changed"; "a message came"]))
    as [[[]|e] w'] eqn:E; intros Hm.
  - exists w'. split; [reflexivity | exact Hm].
  - vm_compute in E. discriminate E.
Defined.



Lemma doubled_length (n : nat) (s : string) :
  Z.of_nat (String.length (doubled n s)) = 2 ^ Z.of_nat n * Z.of_nat (String.length s).
Proof.
  revert s. induction n as [|n IH]; intros s.
  - simpl. lia.
  - change (doubled (S n) s) with (doubled n (s +:+ s)).
    rewrite IH, str_length_app, Nat2Z.inj_succ, Z.pow_succ_r by lia. lia.
Qed.

Lemma appendLog_keeps_at_most_two_rotated_logs_witness :
  ∃ names,
    (readdirSync (dirname (logsPath "/repo/data" "events.jsonl"))
       (appendLog "/repo/data" "events.jsonl" an_entry (at_ms 1) disk_with_big_log).2).1
    = Ok names
    ∧ (length (rotated_logs (basename (logsPath "/repo/data" "events.jsonl")) names)
       ≤ LOG_KEEP_ROTATED)%nat.
Proof.
  apply (appendLog_keeps_at_most_two_rotated_logs "/repo/data" "events.jsonl" an_entry
           (at_ms 1) disk_with_big_log big_log).
  - change (logsPath "/repo/data" "events.jsonl") with events_path.
    apply lookup_singleton_eq.
  - unfold big_log. rewrite doubled_length. vm_compute. discriminate.
Defined.

Lemma one_tick_leaves_one_timer_witness :
  idle (step config (at_ms 3000) (EQueryEnds 0 good_run)
          (step config (at_ms 2000) (ETimerFires 0) started).2).2
  ∧ pending (step config (at_ms 3000) (EQueryEnds 0 good_run)
               (step config (at_ms 2000) (ETimerFires 0) started).2).2
    = [mkTimer (next_tid started) (wakeupSec started * 1000)]
  ∧ (tickCount (step config (at_ms 3000) (EQueryEnds 0 good_run)
                  (step config (at_ms 2000) (ETimerFires 0) started).2).2
     = tickCount started
     ∨ tickCount (step config (at_ms 3000) (EQueryEnds 0 good_run)
                    (step config (at_ms 2000) (ETimerFires 0) started).2).2
       = tickCount started + 1).
Proof.
  apply (one_tick_leaves_one_timer config (at_ms 2000) (at_ms 3000) 0 good_run started).
  - split; [reflexivity|]. split; [reflexivity|]. split; [reflexivity|].
    exists 0%nat. split; reflexivity.
  - reflexivity.
Defined.

End Instances.
